(** * Record stores of the contact manager and the to-do manager,
      and the password generator: a shallow embedding

    The three programs are Python scripts.  Their data are Python
    objects (dictionaries held in a list, strings, integers), their
    effects are reads from the terminal, prints, and one JSON file.
    The embedding keeps both: Python values are an inductive type,
    the effects are threaded through a state-and-exception monad. *)

From Stdlib Require Import ZArith List String Ascii Bool Lia Sorted.
From Stdlib Require Import DecimalString.
Import ListNotations.

Set Warnings "-register-all".

Local Open Scope string_scope.
Local Open Scope Z_scope.

(** ** Python strings

    A [str] is the sequence of its code points.  One [ascii] stands for
    one code point, so the text covered here is the text whose code
    points are below 256. *)

Module pystr.

Definition code (c : ascii) : Z := Z.of_nat (nat_of_ascii c).

(** The code points below 256 for which [str.isspace] holds. *)
Definition isspace (c : ascii) : bool :=
  let n := code c in
  ((9 <=? n) && (n <=? 13)) || ((28 <=? n) && (n <=? 32))
  || (n =? 133) || (n =? 160).

Fixpoint lstrip_chars (space : ascii -> bool) (l : list ascii) : list ascii :=
  match l with
  | c :: l' => if space c then lstrip_chars space l' else l
  | [] => []
  end.

Definition strip_chars (space : ascii -> bool) (l : list ascii) : list ascii :=
  rev (lstrip_chars space (rev (lstrip_chars space l))).

(** [s.strip()] *)
Definition strip (s : string) : string :=
  string_of_list_ascii (strip_chars isspace (list_ascii_of_string s)).

(** [str.lower] on one code point below 256: the upper-case letters are
    A-Z and U+00C0-U+00DE without the multiplication sign U+00D7. *)
Definition lower_char (c : ascii) : ascii :=
  let n := code c in
  if ((65 <=? n) && (n <=? 90))
     || ((192 <=? n) && (n <=? 222) && negb (n =? 215))
  then ascii_of_nat (nat_of_ascii c + 32) else c.

Fixpoint lower (s : string) : string :=
  match s with
  | EmptyString => EmptyString
  | String c s' => String (lower_char c) (lower s')
  end.

(** [needle in hay] *)
Fixpoint contains (needle hay : string) : bool :=
  if String.prefix needle hay then true
  else match hay with
       | EmptyString => false
       | String _ hay' => contains needle hay'
       end.

Definition isdigit (c : ascii) : bool :=
  let n := code c in (48 <=? n) && (n <=? 57).

Definition digit (c : ascii) : Z := code c - 48.

(** [s.isdigit()]: non-empty and every character a digit.  Below 256 the
    superscripts U+00B2, U+00B3 and U+00B9 count as digits for
    [str.isdigit] although [int] refuses them. *)
Definition isdigit_char (c : ascii) : bool :=
  let n := code c in
  isdigit c || (n =? 178) || (n =? 179) || (n =? 185).

Definition str_isdigit (s : string) : bool :=
  match list_ascii_of_string s with
  | [] => false
  | l => forallb isdigit_char l
  end.

(** The digits of a decimal literal after its first digit: digits, with
    single underscores allowed between two digits. *)
Fixpoint int_digits (acc : Z) (l : list ascii) : option Z :=
  match l with
  | [] => Some acc
  | c :: l' =>
      if isdigit c then int_digits (acc * 10 + digit c) l'
      else if Ascii.eqb c "_"%char then
        match l' with
        | d :: l'' =>
            if isdigit d then int_digits (acc * 10 + digit d) l'' else None
        | [] => None
        end
      else None
  end.

Definition int_unsigned (l : list ascii) : option Z :=
  match l with
  | c :: l' => if isdigit c then int_digits (digit c) l' else None
  | [] => None
  end.

(** The whitespace that [int] drops around a literal: the one of
    [str.isspace] without the separators U+001C to U+001F. *)
Definition int_isspace (c : ascii) : bool :=
  let n := code c in
  ((9 <=? n) && (n <=? 13)) || (n =? 32) || (n =? 133) || (n =? 160).

(** [int(s)] for a string: surrounding whitespace is dropped, one sign
    is allowed; [None] stands for [ValueError].  The interpreter's
    limit on the number of digits is not part of this. *)
Definition int (s : string) : option Z :=
  match strip_chars int_isspace (list_ascii_of_string s) with
  | c :: l =>
      if Ascii.eqb c "-"%char then option_map Z.opp (int_unsigned l)
      else if Ascii.eqb c "+"%char then int_unsigned l
      else int_unsigned (c :: l)
  | [] => None
  end.

(** [str(n)] for an integer *)
Definition of_int (n : Z) : string := NilZero.string_of_int (Z.to_int n).

End pystr.

(** ** Python values

    The objects the programs handle: what [json.load] can return and
    what the programs build themselves.  Floats are left out: no
    operation of the programs creates one, and a file that the
    programs wrote holds none.  A file from elsewhere can hold one;
    what is shown of stores with such values is shown under the
    assumption that there are none. *)

Module py.

(** Dictionary keys: the hashable values. *)
Inductive key : Type :=
| KNone
| KBool (b : bool)
| KInt (n : Z)
| KStr (s : string).

Inductive value : Type :=
| VNone
| VBool (b : bool)
| VInt (n : Z)
| VStr (s : string)
| VList (l : list value)
| VDict (d : list (key * value)).

(** A dictionary keeps its items in insertion order. *)
Abbreviation dict := (list (key * value)).

(** The exceptions that occur.  [IOError] carries its message, which
    the programs print.  [JSONDecodeError] and [UnicodeDecodeError] are
    both subclasses of [ValueError]; a handler for the first does not
    catch the second. *)
Inductive exn : Type :=
| KeyError | TypeError | ValueError | AttributeError | EOFError | IndexError
| IOError (msg : string) | JSONDecodeError | UnicodeDecodeError
| SystemExit.

Inductive result (A : Type) : Type :=
| Ok (a : A)
| Raise (e : exn).
Arguments Ok {A} a.
Arguments Raise {A} e.

(** [bool] is a subclass of [int]: [True] is 1 and [False] is 0. *)
Definition key_num (k : key) : option Z :=
  match k with
  | KBool b => Some (Z.b2z b)
  | KInt n => Some n
  | _ => None
  end.

(** Equality of keys, as a dictionary lookup sees it. *)
Definition key_eqb (k1 k2 : key) : bool :=
  match k1, k2 with
  | KNone, KNone => true
  | KStr s, KStr t => String.eqb s t
  | _, _ =>
      match key_num k1, key_num k2 with
      | Some a, Some b => a =? b
      | _, _ => false
      end
  end.

(** [d.get(k)], with [None] of [option] for a missing key. *)
Fixpoint get (d : dict) (k : key) : option value :=
  match d with
  | [] => None
  | (k', v) :: d' => if key_eqb k' k then Some v else get d' k
  end.

(** [d.get(k, default)] *)
Definition get_default (d : dict) (k : key) (default : value) : value :=
  match get d k with Some v => v | None => default end.

(** [d[k]] *)
Definition getitem (d : dict) (k : key) : result value :=
  match get d k with Some v => Ok v | None => Raise KeyError end.

(** [d[k] = v]: the value of an existing key is replaced in place, a
    new key goes to the end. *)
Fixpoint setitem (d : dict) (k : key) (v : value) : dict :=
  match d with
  | [] => [(k, v)]
  | (k', v') :: d' =>
      if key_eqb k' k then (k', v) :: d' else (k', v') :: setitem d' k v
  end.

Definition num (v : value) : option Z :=
  match v with
  | VBool b => Some (Z.b2z b)
  | VInt n => Some n
  | _ => None
  end.

(** [isinstance(v, int)] *)
Definition is_int (v : value) : bool :=
  match v with VBool _ | VInt _ => true | _ => false end.

(** Truth value of an object, as [if v:] and [not v] take it. *)
Definition truthy (v : value) : bool :=
  match v with
  | VNone => false
  | VBool b => b
  | VInt n => negb (n =? 0)
  | VStr s => negb (String.eqb s "")
  | VList l => match l with [] => false | _ => true end
  | VDict d => match d with [] => false | _ => true end
  end.

(** [a == b] *)
Fixpoint eqb (a b : value) : bool :=
  match a, b with
  | VNone, VNone => true
  | VStr s, VStr t => String.eqb s t
  | VList l, VList m =>
      (fix all2 (l m : list value) : bool :=
         match l, m with
         | [], [] => true
         | x :: l', y :: m' => eqb x y && all2 l' m'
         | _, _ => false
         end) l m
  | VDict d, VDict e =>
      (List.length d =? List.length e)%nat &&
      (fix each (d : dict) : bool :=
         match d with
         | [] => true
         | (k, v) :: d' =>
             match get e k with
             | Some w => eqb v w
             | None => false
             end && each d'
         end) d
  | _, _ =>
      match num a, num b with
      | Some x, Some y => x =? y
      | _, _ => false
      end
  end.

(** [v == n] for an integer [n] *)
Definition eq_int (v : value) (n : Z) : bool := eqb v (VInt n).

Definition hashable (v : value) : result key :=
  match v with
  | VNone => Ok KNone
  | VBool b => Ok (KBool b)
  | VInt n => Ok (KInt n)
  | VStr s => Ok (KStr s)
  | VList _ | VDict _ => Raise TypeError
  end.

Definition of_key (k : key) : value :=
  match k with
  | KNone => VNone
  | KBool b => VBool b
  | KInt n => VInt n
  | KStr s => VStr s
  end.

(** The items an object yields when it is iterated over; [None] when it
    is not iterable.  A string yields its characters, a dictionary its
    keys. *)
Definition iterate (v : value) : option (list value) :=
  match v with
  | VStr s => Some (map (fun c => VStr (String c EmptyString)) (list_ascii_of_string s))
  | VList l => Some l
  | VDict d => Some (map (fun kv => of_key (fst kv)) d)
  | VNone | VBool _ | VInt _ => None
  end.

(** [dict(seq)] for a sequence of pairs, one element at a time: each
    element must itself yield exactly two items, a key and a value. *)
Fixpoint dict_of_pairs (acc : dict) (items : list value) : result dict :=
  match items with
  | [] => Ok acc
  | item :: items' =>
      match iterate item with
      | None => Raise TypeError
      | Some [k; v] =>
          match hashable k with
          | Ok k' => dict_of_pairs (setitem acc k' v) items'
          | Raise e => Raise e
          end
      | Some _ => Raise ValueError
      end
  end.

(** [dict(v)]: a copy of a dictionary, or a dictionary built from an
    iterable of pairs. *)
Definition dict_of (v : value) : result dict :=
  match v with
  | VDict d => Ok d
  | _ =>
      match iterate v with
      | Some items => dict_of_pairs [] items
      | None => Raise TypeError
      end
  end.

(** [l.remove(x)] where [x] is the object at position [i] of [l]: the
    first element that is [x] or equal to [x] goes. *)
Fixpoint remove_from (j : nat) (i : nat) (x : dict) (l : list dict) : list dict :=
  match l with
  | [] => []
  | y :: l' =>
      if (j =? i)%nat || eqb (VDict y) (VDict x) then l'
      else y :: remove_from (S j) i x l'
  end.

Definition remove (l : list dict) (i : nat) : list dict :=
  match nth_error l i with
  | Some x => remove_from 0 i x l
  | None => l
  end.

End py.

Export py(key(..), value(..), exn(..), result(..)).
Coercion KStr : string >-> key.

(** ** JSON documents

    The persisted file is looked at through the [json] module: a
    document is the tree [json.load] parses.  Object keys are strings
    and may repeat in a document; numbers are the integers. *)

Module json.

Inductive t : Type :=
| Null
| Bool (b : bool)
| Int (n : Z)
| Str (s : string)
| Arr (l : list t)
| Obj (m : list (string * t)).

(** [json.load]: an object becomes a dictionary, a repeated key keeps
    its first place and takes its last value. *)
Fixpoint load (j : t) : value :=
  match j with
  | Null => VNone
  | Bool b => VBool b
  | Int n => VInt n
  | Str s => VStr s
  | Arr l => VList (map load l)
  | Obj m =>
      VDict (fold_left (fun d kx => py.setitem d (KStr (fst kx)) (load (snd kx))) m [])
  end.

(** The text [json.dump] writes for a key that is not a string. *)
Definition key_text (k : key) : string :=
  match k with
  | KStr s => s
  | KBool true => "true"
  | KBool false => "false"
  | KNone => "null"
  | KInt n => pystr.of_int n
  end.

(** [json.dump] *)
Fixpoint dump (v : value) : t :=
  match v with
  | VNone => Null
  | VBool b => Bool b
  | VInt n => Int n
  | VStr s => Str s
  | VList l => Arr (map dump l)
  | VDict d => Obj (map (fun kv => (key_text (fst kv), dump (snd kv))) d)
  end.

(** The text holds a character that takes several bytes in UTF-8: one
    above U+007F. *)
Definition wide_text (s : string) : bool :=
  existsb (fun c => 128 <=? pystr.code c) (list_ascii_of_string s).

(** The document, written with [ensure_ascii=False], holds such a
    character, in a string or in a key. *)
Fixpoint wide (j : t) : bool :=
  match j with
  | Str s => wide_text s
  | Arr l => existsb wide l
  | Obj m => existsb (fun kx => wide_text (fst kx) || wide (snd kx)) m
  | Null | Bool _ | Int _ => false
  end.

End json.

(** ** The world a program runs in, and the monad of its effects *)

(** The persisted file, as opening and parsing it turns out. *)
Inductive file : Type :=
| Absent                 (* [os.path.exists] is false *)
| Unreadable (msg : string) (* [open] raises [IOError] *)
| Undecodable            (* the bytes are not UTF-8 *)
| Garbled                (* the text is not a JSON document *)
| Holds (j : json.t).    (* the text is the document [j] *)

(** What goes wrong at a write, if anything. *)
Inductive fault : Type :=
| OpenFails (msg : string)   (* [open] raises, the file stays as it is *)
| WriteFails (msg : string)  (* the write breaks off, the file is cut short *)
| WriteSplits (msg : string). (* the write breaks off inside a character of
                                 several bytes, if the document has one *)

(** An f-string before it is rendered: literal text and the values
    placed into it. *)
Inductive piece : Type :=
| Lit (s : string)
| Chr (code : Z)   (* one character above U+00FF *)
| Fmt (v : value).

Definition nl : string := String (ascii_of_nat 10) EmptyString.

(** The en dash of the list lines. *)
Definition en_dash : piece := Chr 8211.

Inductive out : Type :=
| Print (text : list piece)   (* [print(text)] *)
| Prompt (text : list piece). (* the prompt that [input(text)] shows *)

Record world : Type := mkWorld {
  store : list py.dict;        (* the list object [contacts] / [tasks] *)
  stdin : list string;         (* the lines the user will type *)
  stdout : list out;           (* what was shown so far, oldest first *)
  disk : file;                 (* [DATA_FILE] *)
  faults : list (option fault) (* the fate of the writes to come *)
}.

Definition M (A : Type) : Type := world -> result A * world.

Definition ret {A} (a : A) : M A := fun w => (Ok a, w).

Definition bind {A B} (m : M A) (k : A -> M B) : M B :=
  fun w =>
    match m w with
    | (Ok a, w') => k a w'
    | (Raise e, w') => (Raise e, w')
    end.

Definition raise {A} (e : exn) : M A := fun w => (Raise e, w).

(** [try: m  except <the exceptions of catches>: handler] *)
Definition try_except {A} (m : M A) (catches : exn -> bool) (handler : exn -> M A) : M A :=
  fun w =>
    match m w with
    | (Raise e, w') => if catches e then handler e w' else (Raise e, w')
    | r => r
    end.

Definition lift {A} (r : result A) : M A := fun w => (r, w).

Declare Scope py_scope.
Delimit Scope py_scope with py.
Notation "x <- m ;; k" := (bind m (fun x => k))
  (at level 100, m at next level, right associativity) : py_scope.
Notation "m ;; k" := (bind m (fun _ => k))
  (at level 100, right associativity) : py_scope.
Local Open Scope py_scope.

Definition with_stdout (w : world) (o : out) : world :=
  mkWorld (store w) (stdin w) (stdout w ++ [o]) (disk w) (faults w).

(** [print(text)] *)
Definition print (text : list piece) : M unit :=
  fun w => (Ok tt, with_stdout w (Print text)).

(** [input(text)]: the prompt is shown, then one line is read; at the
    end of the input [EOFError] is raised.  The input is a script of
    lines; a signal from the keyboard ([KeyboardInterrupt]) is not
    part of it. *)
Definition input (text : list piece) : M string :=
  fun w =>
    match stdin w with
    | [] => (Raise EOFError, with_stdout w (Prompt text))
    | line :: rest =>
        (Ok line, mkWorld (store w) rest (stdout w ++ [Prompt text]) (disk w) (faults w))
    end.

Definition get_store : M (list py.dict) := fun w => (Ok (store w), w).

Definition set_store (s : list py.dict) : M unit :=
  fun w => (Ok tt, mkWorld s (stdin w) (stdout w) (disk w) (faults w)).

(** [os.path.exists(DATA_FILE)] *)
Definition path_exists : M bool :=
  fun w => (Ok (match disk w with Absent => false | _ => true end), w).

(** [with open(DATA_FILE, "r", encoding="utf-8") as f: json.load(f)] *)
Definition read_json : M value :=
  fun w =>
    match disk w with
    | Absent => (Raise (IOError "No such file or directory"), w)
    | Unreadable msg => (Raise (IOError msg), w)
    | Undecodable => (Raise UnicodeDecodeError, w)
    | Garbled => (Raise JSONDecodeError, w)
    | Holds j => (Ok (json.load j), w)
    end.

(** [with open(DATA_FILE, "w", encoding="utf-8") as f: json.dump(v, f, ...)] *)
Definition write_json (v : value) : M unit :=
  fun w =>
    match faults w with
    | Some (OpenFails msg) :: fs =>
        (Raise (IOError msg), mkWorld (store w) (stdin w) (stdout w) (disk w) fs)
    | Some (WriteFails msg) :: fs =>
        (Raise (IOError msg), mkWorld (store w) (stdin w) (stdout w) Garbled fs)
    | Some (WriteSplits msg) :: fs =>
        (Raise (IOError msg),
         mkWorld (store w) (stdin w) (stdout w)
           (if json.wide (json.dump v) then Undecodable else Garbled) fs)
    | None :: fs =>
        (Ok tt, mkWorld (store w) (stdin w) (stdout w) (Holds (json.dump v)) fs)
    | [] =>
        (Ok tt, mkWorld (store w) (stdin w) (stdout w) (Holds (json.dump v)) [])
    end.

(** A reference to a record of the store is the record's position: the
    elements of the store are distinct objects, so a position names
    one object, and a change made through the reference is a change
    of the store. *)
Definition deref (i : nat) : M py.dict :=
  fun w => (Ok (nth i (store w) []), w).

Fixpoint update_nth {A} (i : nat) (f : A -> A) (l : list A) : list A :=
  match l, i with
  | [], _ => []
  | x :: l', O => f x :: l'
  | x :: l', S i' => x :: update_nth i' f l'
  end.

(** [r[k] = v] for the record [r] at position [i] *)
Definition setitem_at (i : nat) (k : key) (v : value) : M unit :=
  fun w =>
    (Ok tt, mkWorld (update_nth i (fun d => py.setitem d k v) (store w))
                    (stdin w) (stdout w) (disk w) (faults w)).

(** [enumerate(l, start)] *)
Fixpoint enumerate {A} (start : Z) (l : list A) : list (Z * A) :=
  match l with
  | [] => []
  | x :: l' => (start, x) :: enumerate (start + 1) l'
  end.

(** [[f(x) for x in l]] where [f] may raise *)
Fixpoint map_result {A B} (f : A -> result B) (l : list A) : result (list B) :=
  match l with
  | [] => Ok []
  | x :: l' =>
      match f x with
      | Ok y =>
          match map_result f l' with
          | Ok ys => Ok (y :: ys)
          | Raise e => Raise e
          end
      | Raise e => Raise e
      end
  end.

(** [for x in l: body(x)] *)
Fixpoint for_each {A} (l : list A) (body : A -> M unit) : M unit :=
  match l with
  | [] => ret tt
  | x :: l' => body x ;; for_each l' body
  end.

(** ** What the two record stores share

    [load_contacts] and [load_tasks] are the same function, and so are
    [save_contacts] and [save_tasks] up to the noun of one message, and
    the two [generate_new_id]. *)

Module record_store.

Definition catches_load (e : exn) : bool :=
  match e with JSONDecodeError | IOError _ => true | _ => false end.

Definition catches_save (e : exn) : bool :=
  match e with IOError _ => true | _ => false end.

Definition load_records : M (list py.dict) :=
  exists_ <- path_exists ;;
  if negb exists_ then ret []
  else
    try_except
      (data <- read_json ;;
       match data with
       | VList entries => lift (map_result py.dict_of entries)
       | _ => ret []
       end)
      catches_load
      (fun _ => ret []).

Definition save_records (noun : string) (records : list py.dict) : M unit :=
  try_except
    (write_json (VList (map VDict records)))
    catches_save
    (fun exc =>
       match exc with
       | IOError msg => print [Lit ("Error saving " ++ noun ++ ": "); Lit msg]
       | _ => ret tt
       end).

Definition int_of (v : value) : Z :=
  match py.num v with Some n => n | None => 0 end.

(** [max(l, default=default)] on integers *)
Definition max_default (l : list Z) (default : Z) : Z :=
  match l with
  | [] => default
  | x :: l' => fold_left Z.max l' x
  end.

(** [[c.get("id", 0) for c in records if isinstance(c.get("id"), int)]] *)
Definition existing_ids (records : list py.dict) : list Z :=
  map (fun c => int_of (py.get_default c "id" (VInt 0)))
      (filter (fun c => py.is_int (py.get_default c "id" VNone)) records).

Definition generate_new_id (records : list py.dict) : Z :=
  match records with
  | [] => 1
  | _ => max_default (existing_ids records) 0 + 1
  end.

End record_store.

(** ** contact_manager.py *)

Module contact_manager.

Definition load_contacts : M (list py.dict) := record_store.load_records.

Definition save_contacts (contacts : list py.dict) : M unit :=
  record_store.save_records "contacts" contacts.

Definition generate_new_id (contacts : list py.dict) : Z :=
  record_store.generate_new_id contacts.

Definition add_contact : M unit :=
  print [Lit (nl ++ "=== Add New Contact ===")] ;;
  name <- input [Lit "Enter name: "] ;;
  let name := pystr.strip name in
  phone <- input [Lit "Enter phone number: "] ;;
  let phone := pystr.strip phone in
  email <- input [Lit "Enter email: "] ;;
  let email := pystr.strip email in
  address <- input [Lit "Enter address: "] ;;
  let address := pystr.strip address in
  if String.eqb name "" || String.eqb phone "" then
    print [Lit "Name and phone number are required. Contact not added."]
  else
    contacts <- get_store ;;
    let new_contact : py.dict :=
      [ (KStr "id", VInt (generate_new_id contacts));
        (KStr "name", VStr name);
        (KStr "phone", VStr phone);
        (KStr "email", VStr email);
        (KStr "address", VStr address) ] in
    set_store (contacts ++ [new_contact]) ;;
    contacts <- get_store ;;
    save_contacts contacts ;;
    print [Lit ("Contact added successfully!" ++ nl)].

Definition view_contacts : M unit :=
  print [Lit (nl ++ "=== Contact List ===")] ;;
  contacts <- get_store ;;
  match contacts with
  | [] => print [Lit ("No contacts found." ++ nl)]
  | _ =>
      for_each (enumerate 1 contacts)
        (fun ic =>
           let name := py.get_default (snd ic) "name" (VStr "Unknown") in
           let phone := py.get_default (snd ic) "phone" (VStr "") in
           print [Fmt (VInt (fst ic)); Lit ". "; Fmt name; Lit " "; en_dash; Lit " "; Fmt phone]) ;;
      print [Lit ""]
  end.

(** [v.lower()]: only a string has the method. *)
Definition str_lower (v : value) : result string :=
  match v with
  | VStr s => Ok (pystr.lower s)
  | _ => Raise AttributeError
  end.

(** [query in c.get("name", "").lower() or query in c.get("phone", "").lower()] *)
Definition matches (query : string) (c : py.dict) : result bool :=
  match str_lower (py.get_default c "name" (VStr "")) with
  | Raise e => Raise e
  | Ok name =>
      if pystr.contains query name then Ok true
      else
        match str_lower (py.get_default c "phone" (VStr "")) with
        | Raise e => Raise e
        | Ok phone => Ok (pystr.contains query phone)
        end
  end.

(** [[c for c in contacts if cond(c)]], as the references to the
    records kept, the first record being at position [from]. *)
Fixpoint filter_refs (cond : py.dict -> result bool) (from : nat) (l : list py.dict)
  : result (list nat) :=
  match l with
  | [] => Ok []
  | c :: l' =>
      match cond c with
      | Raise e => Raise e
      | Ok b =>
          match filter_refs cond (S from) l' with
          | Raise e => Raise e
          | Ok refs => Ok (if b then from :: refs else refs)
          end
      end
  end.

(** One line [f"{idx}. {contact['name']} – {contact['phone']}"] *)
Definition print_line (idx : Z) (ref : nat) : M unit :=
  contact <- deref ref ;;
  name <- lift (py.getitem contact "name") ;;
  phone <- lift (py.getitem contact "phone") ;;
  print [Fmt (VInt idx); Lit ". "; Fmt name; Lit " "; en_dash; Lit " "; Fmt phone].

Definition search_contacts : M (list nat) :=
  contacts <- get_store ;;
  match contacts with
  | [] => print [Lit (nl ++ "No contacts to search." ++ nl)] ;; ret []
  | _ =>
      query <- input [Lit (nl ++ "Enter name or phone number to search: ")] ;;
      let query := pystr.lower (pystr.strip query) in
      results <- lift (filter_refs (matches query) 0 contacts) ;;
      match results with
      | [] => print [Lit ("No matching contacts found." ++ nl)]
      | _ =>
          print [Lit (nl ++ "Search Results:")] ;;
          for_each (enumerate 1 results) (fun ic => print_line (fst ic) (snd ic)) ;;
          print [Lit ""]
      end ;;
      ret results
  end.

(** The [while True] loop of [select_contact].  Every round reads one
    line, so the loop ends with the input at the latest; [fuel] counts
    the rounds that may still come. *)
Fixpoint select_loop (fuel : nat) (contacts : list nat) : M (option nat) :=
  match fuel with
  | O => raise EOFError
  | S fuel' =>
      choice <- input [Lit "Select a contact by number (or press Enter to cancel): "] ;;
      let choice := pystr.strip choice in
      if String.eqb choice "" then ret None
      else
        let again := print [Lit "Invalid selection. Try again."] ;;
                     select_loop fuel' contacts in
        if pystr.str_isdigit choice then
          match pystr.int choice with
          | None => raise ValueError
          | Some i =>
              if (1 <=? i) && (i <=? Z.of_nat (List.length contacts)) then
                ret (nth_error contacts (Z.to_nat (i - 1)))
              else again
          end
        else again
  end.

Definition select_contact (contacts : list nat) : M (option nat) :=
  match contacts with
  | [] => print [Lit "No contacts available."] ;; ret None
  | _ =>
      for_each (enumerate 1 contacts) (fun ic => print_line (fst ic) (snd ic)) ;;
      fun w => select_loop (S (List.length (stdin w))) contacts w
  end.

(** [input(f"New <what> [{contact[field]}]: ").strip()] *)
Definition ask_new (what : string) (field : string) (ref : nat) : M string :=
  contact <- deref ref ;;
  old <- lift (py.getitem contact field) ;;
  line <- input [Lit ("New " ++ what ++ " ["); Fmt old; Lit "]: "] ;;
  ret (pystr.strip line).

Definition update_contact : M unit :=
  print [Lit (nl ++ "=== Update Contact ===")] ;;
  search_results <- search_contacts ;;
  match search_results with
  | [] => ret tt
  | _ =>
      selected <- select_contact search_results ;;
      contact <- match selected with
                 | Some ref => c <- deref ref ;; ret (if py.truthy (VDict c) then Some ref else None)
                 | None => ret None
                 end ;;
      match contact with
      | None => print [Lit ("Update cancelled." ++ nl)]
      | Some contact =>
          print [Lit "Leave a field blank to keep the current value."] ;;
          new_name <- ask_new "name" "name" contact ;;
          new_phone <- ask_new "phone" "phone" contact ;;
          new_email <- ask_new "email" "email" contact ;;
          new_address <- ask_new "address" "address" contact ;;
          (if String.eqb new_name "" then ret tt
           else setitem_at contact "name" (VStr new_name)) ;;
          (if String.eqb new_phone "" then ret tt
           else setitem_at contact "phone" (VStr new_phone)) ;;
          (if String.eqb new_email "" then ret tt
           else setitem_at contact "email" (VStr new_email)) ;;
          (if String.eqb new_address "" then ret tt
           else setitem_at contact "address" (VStr new_address)) ;;
          contacts <- get_store ;;
          save_contacts contacts ;;
          print [Lit ("Contact updated successfully!" ++ nl)]
      end
  end.

Definition delete_contact : M unit :=
  print [Lit (nl ++ "=== Delete Contact ===")] ;;
  search_results <- search_contacts ;;
  match search_results with
  | [] => ret tt
  | _ =>
      selected <- select_contact search_results ;;
      contact <- match selected with
                 | Some ref => c <- deref ref ;; ret (if py.truthy (VDict c) then Some ref else None)
                 | None => ret None
                 end ;;
      match contact with
      | None => print [Lit ("Deletion cancelled." ++ nl)]
      | Some contact =>
          c <- deref contact ;;
          name <- lift (py.getitem c "name") ;;
          confirmation <- input [Lit "Are you sure you want to delete '"; Fmt name; Lit "'? (y/n): "] ;;
          let confirmation := pystr.lower (pystr.strip confirmation) in
          if String.eqb confirmation "y" || String.eqb confirmation "yes" then
            contacts <- get_store ;;
            set_store (py.remove contacts contact) ;;
            contacts <- get_store ;;
            save_contacts contacts ;;
            print [Lit ("Contact deleted successfully!" ++ nl)]
          else
            print [Lit ("Deletion aborted." ++ nl)]
      end
  end.

(** The table [options] of [main_menu]. *)
Definition options (choice : string) : option (M unit) :=
  if String.eqb choice "1" then Some add_contact
  else if String.eqb choice "2" then Some view_contacts
  else if String.eqb choice "3" then Some (search_contacts ;; ret tt)
  else if String.eqb choice "4" then Some update_contact
  else if String.eqb choice "5" then Some delete_contact
  else if String.eqb choice "6" then Some (raise SystemExit)
  else None.

(** One round of the [while True] loop of [main_menu]. *)
Definition menu_round : M unit :=
  print [Lit "=== Contact Manager ==="] ;;
  print [Lit "1. Add Contact"] ;;
  print [Lit "2. View Contacts"] ;;
  print [Lit "3. Search Contact"] ;;
  print [Lit "4. Update Contact"] ;;
  print [Lit "5. Delete Contact"] ;;
  print [Lit "6. Exit"] ;;
  choice <- input [Lit "Select an option (1-6): "] ;;
  match options (pystr.strip choice) with
  | Some action => action
  | None => print [Lit ("Invalid selection. Please choose a valid option." ++ nl)]
  end.

(** The start of [main_menu]: [contacts = load_contacts()]. *)
Definition main_menu_start : M unit :=
  contacts <- load_contacts ;;
  set_store contacts.

(** The [while True] loop of [main_menu].  Every round reads at least
    one line, the choice; [fuel] counts the rounds that may still
    come. *)
Fixpoint menu_loop (fuel : nat) : M unit :=
  match fuel with
  | O => raise EOFError
  | S fuel' => menu_round ;; menu_loop fuel'
  end.

Definition main_menu : M unit :=
  main_menu_start ;;
  fun w => menu_loop (S (List.length (stdin w))) w.

End contact_manager.

(** ** Text beyond U+00FF

    The programs take their text as the user types it and write it to
    the file as it is ([ensure_ascii=False]): a name can hold any
    character.  Below U+0100 [str.lower] is a map on single code
    points, which is how [pystr.lower] has it; beyond, it is not: what
    becomes of a capital sigma depends on its place in the word.
    This module has [str.strip], [str.lower] and [in] for text whose
    code points are below U+0100 or in the Greek and Coptic block,
    U+0370 to U+03FF, and the search of [search_contacts] over such
    text. *)

Module unicode.

(** A text is the list of its code points. *)
Definition text : Type := list Z.

Definition of_string (s : string) : text := map pystr.code (list_ascii_of_string s).

Definition within (ranges : list (Z * Z)) (n : Z) : bool :=
  existsb (fun r => (fst r <=? n) && (n <=? snd r)) ranges.

(** [str.isspace] *)
Definition isspace (n : Z) : bool :=
  within [(9, 13); (28, 32); (133, 133); (160, 160)] n.

Fixpoint lstrip (s : text) : text :=
  match s with
  | c :: s' => if isspace c then lstrip s' else s
  | [] => []
  end.

(** [s.strip()] *)
Definition strip (s : text) : text := rev (lstrip (rev (lstrip s))).

(** The characters that do not count when the neighbours of a letter
    are looked for (Case_Ignorable): apostrophe, full stop, colon,
    circumflex, grave, diaeresis, soft hyphen, macron, acute, middle
    dot, cedilla, and the Greek numeral signs, iota subscript, tonos,
    dialytika tonos and ano teleia. *)
Definition case_ignorable (n : Z) : bool :=
  within [(39, 39); (46, 46); (58, 58); (94, 94); (96, 96); (168, 168); (173, 173);
          (175, 175); (180, 180); (183, 184); (884, 885); (890, 890); (900, 901);
          (903, 903)] n.

(** The letters that have a case (Cased). *)
Definition cased (n : Z) : bool :=
  within [(65, 90); (97, 122); (170, 170); (181, 181); (186, 186); (192, 214);
          (216, 246); (248, 255); (880, 883); (886, 887); (890, 893); (895, 895);
          (902, 902); (904, 906); (908, 908); (910, 929); (931, 1013); (1015, 1023)] n.

(** The capital letters, in runs from a first to a last code point,
    with the distance from each to its small letter. *)
Definition capitals : list (Z * Z * Z) :=
  [(65, 90, 32); (192, 214, 32); (216, 222, 32); (880, 880, 1); (882, 882, 1);
   (886, 886, 1); (895, 895, 116); (902, 902, 38); (904, 906, 37); (908, 908, 64);
   (910, 911, 63); (913, 929, 32); (931, 939, 32); (975, 975, 8); (984, 984, 1);
   (986, 986, 1); (988, 988, 1); (990, 990, 1); (992, 992, 1); (994, 994, 1);
   (996, 996, 1); (998, 998, 1); (1000, 1000, 1); (1002, 1002, 1); (1004, 1004, 1);
   (1006, 1006, 1); (1012, 1012, -60); (1015, 1015, 1); (1017, 1017, -7);
   (1018, 1018, 1); (1021, 1023, -130)].

(** The small letter of one code point. *)
Definition to_lower (n : Z) : Z :=
  match find (fun r => (fst (fst r) <=? n) && (n <=? snd (fst r))) capitals with
  | Some r => n + snd r
  | None => n
  end.

Fixpoint skip_ignorable (s : text) : text :=
  match s with
  | c :: s' => if case_ignorable c then skip_ignorable s' else s
  | [] => []
  end.

(** The capital sigma is final: a cased letter comes before it, with
    nothing but case-ignorable characters in between, and no cased
    letter comes after it in the same way.  [before] is the text
    before the sigma, the nearest character first; [after] is the text
    after it. *)
Definition final_sigma (before after : text) : bool :=
  match skip_ignorable before with
  | c :: _ =>
      cased c
      && match skip_ignorable after with
         | c' :: _ => negb (cased c')
         | [] => true
         end
  | [] => false
  end.

(** [str.lower] from a place on: the capital sigma U+03A3 becomes the
    final sigma U+03C2 or the sigma U+03C3, every other character its
    small letter. *)
Fixpoint lower_from (before s : text) : text :=
  match s with
  | [] => []
  | c :: after =>
      (if c =? 931 then (if final_sigma before after then 962 else 963) else to_lower c)
      :: lower_from (c :: before) after
  end.

(** [s.lower()] *)
Definition lower (s : text) : text := lower_from [] s.

Fixpoint prefix (a b : text) : bool :=
  match a, b with
  | [], _ => true
  | x :: a', y :: b' => (x =? y) && prefix a' b'
  | _ :: _, [] => false
  end.

(** [needle in hay] *)
Fixpoint contains (needle hay : text) : bool :=
  if prefix needle hay then true
  else match hay with
       | [] => false
       | _ :: hay' => contains needle hay'
       end.

(** The query and the list [results] of [search_contacts], for
    contacts that have a name and a phone number, each given as the
    pair of the two:
    [query = input(...).strip().lower()] and
    [[c for c in contacts if query in c.get("name", "").lower()
                          or query in c.get("phone", "").lower()]]. *)
Definition results (line : text) (contacts : list (text * text)) : list (text * text) :=
  let query := lower (strip line) in
  filter (fun c => contains query (lower (fst c)) || contains query (lower (snd c)))
         contacts.

End unicode.

(** ** todo_manager.py *)

Module todo_manager.

Definition load_tasks : M (list py.dict) := record_store.load_records.

Definition save_tasks (tasks : list py.dict) : M unit :=
  record_store.save_records "tasks" tasks.

Definition generate_new_id (tasks : list py.dict) : Z :=
  record_store.generate_new_id tasks.

(** One line of [list_tasks]. *)
Definition print_task (task : py.dict) : M unit :=
  let status := if py.truthy (py.get_default task "completed" VNone)
                then "Completed" else "Pending" in
  let due := py.get_default task "due_date" (VStr "") in
  let due_str := if py.truthy due then [Lit " (Due: "; Fmt due; Lit ")"] else [Lit ""] in
  id <- lift (py.getitem task "id") ;;
  description <- lift (py.getitem task "description") ;;
  print ([Fmt id; Lit ". "; Fmt description] ++ due_str ++ [Lit " "; en_dash; Lit " "; Lit status]).

Definition list_tasks : M unit :=
  print [Lit (nl ++ "=== To-Do List ===")] ;;
  tasks <- get_store ;;
  match tasks with
  | [] => print [Lit ("No tasks found." ++ nl)]
  | _ => for_each tasks print_task ;; print [Lit ""]
  end.

(** [next((t for t in tasks if t.get("id") == task_id), None)], as the
    reference to the task found, the first task being at position
    [from]. *)
Fixpoint find_from (from : nat) (tasks : list py.dict) (task_id : Z) : option nat :=
  match tasks with
  | [] => None
  | t :: tasks' =>
      if py.eq_int (py.get_default t "id" VNone) task_id then Some from
      else find_from (S from) tasks' task_id
  end.

Definition find_task_by_id (tasks : list py.dict) (task_id : Z) : option nat :=
  find_from 0 tasks task_id.

(** [task = find_task_by_id(tasks, task_id)] followed by [if not task]:
    [None] when no task is found or the task found is an empty
    dictionary. *)
Definition find_task (task_id : Z) : M (option nat) :=
  tasks <- get_store ;;
  match find_task_by_id tasks task_id with
  | Some ref => t <- deref ref ;; ret (if py.truthy (VDict t) then Some ref else None)
  | None => ret None
  end.

(** [v or 'None'] *)
Definition or_none (v : value) : value :=
  if py.truthy v then v else VStr "None".

Definition toggle_completion : M unit :=
  list_tasks ;;
  tasks <- get_store ;;
  match tasks with
  | [] => ret tt
  | _ =>
      line <- input [Lit "Enter the ID of the task to toggle completion (or 0 to cancel): "] ;;
      match pystr.int line with
      | None => print [Lit ("Invalid input. Operation cancelled." ++ nl)]
      | Some task_id =>
          if task_id =? 0 then print [Lit ("Operation cancelled." ++ nl)]
          else
            task <- find_task task_id ;;
            match task with
            | None => print [Lit ("Task not found." ++ nl)]
            | Some task =>
                t <- deref task ;;
                setitem_at task "completed"
                  (VBool (negb (py.truthy (py.get_default t "completed" (VBool false))))) ;;
                t <- deref task ;;
                completed <- lift (py.getitem t "completed") ;;
                let status := if py.truthy completed then "completed" else "pending" in
                tasks <- get_store ;;
                save_tasks tasks ;;
                print [Lit "Task marked as "; Lit status; Lit ("." ++ nl)]
            end
      end
  end.

Definition delete_task : M unit :=
  list_tasks ;;
  tasks <- get_store ;;
  match tasks with
  | [] => ret tt
  | _ =>
      line <- input [Lit "Enter the ID of the task to delete (or 0 to cancel): "] ;;
      match pystr.int line with
      | None => print [Lit ("Invalid input. Deletion cancelled." ++ nl)]
      | Some task_id =>
          if task_id =? 0 then print [Lit ("Deletion cancelled." ++ nl)]
          else
            task <- find_task task_id ;;
            match task with
            | None => print [Lit ("Task not found." ++ nl)]
            | Some task =>
                t <- deref task ;;
                description <- lift (py.getitem t "description") ;;
                confirm <- input [Lit "Are you sure you want to delete '"; Fmt description;
                                  Lit "'? (y/n): "] ;;
                let confirm := pystr.lower (pystr.strip confirm) in
                if String.eqb confirm "y" || String.eqb confirm "yes" then
                  tasks <- get_store ;;
                  set_store (py.remove tasks task) ;;
                  tasks <- get_store ;;
                  save_tasks tasks ;;
                  print [Lit ("Task deleted successfully!" ++ nl)]
                else
                  print [Lit ("Deletion aborted." ++ nl)]
            end
      end
  end.

Section with_datetime.

(** [datetime.strptime(s, "%Y-%m-%d")] returns, rather than raising
    [ValueError]. *)
Variable strptime_ok : string -> bool.

Definition add_task : M unit :=
  print [Lit (nl ++ "=== Add New Task ===")] ;;
  description <- input [Lit "Enter task description: "] ;;
  let description := pystr.strip description in
  if String.eqb description "" then
    print [Lit ("Description cannot be empty. Task not added." ++ nl)]
  else
    due_date_input <- input [Lit "Enter due date (optional, YYYY-MM-DD) or leave blank: "] ;;
    let due_date_input := pystr.strip due_date_input in
    due_date <- (if String.eqb due_date_input "" then ret ""
                 else if strptime_ok due_date_input then ret due_date_input
                 else print [Lit "Invalid date format. Due date ignored."] ;; ret "") ;;
    notes <- input [Lit "Enter any notes (optional): "] ;;
    let notes := pystr.strip notes in
    tasks <- get_store ;;
    let new_task : py.dict :=
      [ (KStr "id", VInt (generate_new_id tasks));
        (KStr "description", VStr description);
        (KStr "completed", VBool false);
        (KStr "due_date", VStr due_date);
        (KStr "notes", VStr notes) ] in
    set_store (tasks ++ [new_task]) ;;
    tasks <- get_store ;;
    save_tasks tasks ;;
    print [Lit ("Task added successfully!" ++ nl)].

Definition update_task : M unit :=
  list_tasks ;;
  tasks <- get_store ;;
  match tasks with
  | [] => ret tt
  | _ =>
      line <- input [Lit "Enter the ID of the task to update (or 0 to cancel): "] ;;
      match pystr.int line with
      | None => print [Lit ("Invalid input. Update cancelled." ++ nl)]
      | Some task_id =>
          if task_id =? 0 then print [Lit ("Update cancelled." ++ nl)]
          else
            task <- find_task task_id ;;
            match task with
            | None => print [Lit ("Task not found." ++ nl)]
            | Some task =>
                print [Lit "Leave a field blank to keep the current value."] ;;
                t <- deref task ;;
                description <- lift (py.getitem t "description") ;;
                new_description <- input [Lit "New description ["; Fmt description; Lit "]: "] ;;
                let new_description := pystr.strip new_description in
                due_date <- lift (py.getitem t "due_date") ;;
                new_due <- input [Lit "New due date (YYYY-MM-DD) ["; Fmt (or_none due_date); Lit "]: "] ;;
                let new_due := pystr.strip new_due in
                notes <- lift (py.getitem t "notes") ;;
                new_notes <- input [Lit "New notes ["; Fmt (or_none notes); Lit "]: "] ;;
                let new_notes := pystr.strip new_notes in
                (if String.eqb new_description "" then ret tt
                 else setitem_at task "description" (VStr new_description)) ;;
                (if String.eqb new_due "" then ret tt
                 else if strptime_ok new_due then setitem_at task "due_date" (VStr new_due)
                 else print [Lit "Invalid date format. Due date not updated."]) ;;
                (if String.eqb new_notes "" then ret tt
                 else setitem_at task "notes" (VStr new_notes)) ;;
                tasks <- get_store ;;
                save_tasks tasks ;;
                print [Lit ("Task updated successfully!" ++ nl)]
            end
      end
  end.

(** The table [actions] of [main_menu]. *)
Definition actions (choice : string) : option (M unit) :=
  if String.eqb choice "1" then Some add_task
  else if String.eqb choice "2" then Some list_tasks
  else if String.eqb choice "3" then Some update_task
  else if String.eqb choice "4" then Some toggle_completion
  else if String.eqb choice "5" then Some delete_task
  else if String.eqb choice "6" then Some (raise SystemExit)
  else None.

(** One round of the [while True] loop of [main_menu]. *)
Definition menu_round : M unit :=
  print [Lit "=== To-Do List Manager ==="] ;;
  print [Lit "1. Add Task"] ;;
  print [Lit "2. View Tasks"] ;;
  print [Lit "3. Update Task"] ;;
  print [Lit "4. Mark Task Completed/Uncompleted"] ;;
  print [Lit "5. Delete Task"] ;;
  print [Lit "6. Exit"] ;;
  choice <- input [Lit "Select an option (1-6): "] ;;
  match actions (pystr.strip choice) with
  | Some action => action
  | None => print [Lit ("Invalid selection. Please choose a valid option." ++ nl)]
  end.

(** The [while True] loop of [main_menu].  Every round reads at least
    one line, the choice; [fuel] counts the rounds that may still
    come. *)
Fixpoint menu_loop (fuel : nat) : M unit :=
  match fuel with
  | O => raise EOFError
  | S fuel' => menu_round ;; menu_loop fuel'
  end.

End with_datetime.

(** The start of [main_menu]: [tasks = load_tasks()]. *)
Definition main_menu_start : M unit :=
  tasks <- load_tasks ;;
  set_store tasks.

Definition main_menu (strptime_ok : string -> bool) : M unit :=
  main_menu_start ;;
  fun w => menu_loop strptime_ok (S (List.length (stdin w))) w.

End todo_manager.

(** ** password_generator.py *)

Module password_generator.

Definition ascii_lowercase : string := "abcdefghijklmnopqrstuvwxyz".
Definition ascii_uppercase : string := "ABCDEFGHIJKLMNOPQRSTUVWXYZ".
Definition digits : string := "0123456789".
Definition punctuation : string :=
  "!" ++ String (ascii_of_nat 34) "#$%&'()*+,-./:;<=>?@[\]^_`{|}~".

Section with_random.

(** [random.SystemRandom()._randbelow(n)] at its [i]-th call: the
    operating system's randomness, known only to be below [n]. *)
Variable randbelow : nat -> nat -> nat.

(** [secure_random.choice(seq)] at the [i]-th draw *)
Definition choice (i : nat) (seq : string) : result ascii :=
  match String.get (randbelow i (String.length seq)) seq with
  | Some c => Ok c
  | None => Raise IndexError
  end.

(** [''.join(secure_random.choice(characters) for _ in range(length))] *)
Definition join_choices (characters : string) (length : Z) : result string :=
  match map_result (fun i => choice i characters) (List.seq 0 (Z.to_nat length)) with
  | Ok l => Ok (string_of_list_ascii l)
  | Raise e => Raise e
  end.

Definition generate_password (length : Z)
    (use_uppercase use_lowercase use_digits use_symbols : bool) : result string :=
  if length <=? 0 then Raise ValueError
  else
    let characters := "" in
    let characters := if use_lowercase then characters ++ ascii_lowercase else characters in
    let characters := if use_uppercase then characters ++ ascii_uppercase else characters in
    let characters := if use_digits then characters ++ digits else characters in
    let characters := if use_symbols then characters ++ punctuation else characters in
    if String.eqb characters "" then Raise ValueError
    else join_choices characters length.

(** The [while True] loop of [ask_yes_no].  Every round reads one
    line, so the loop ends with the input at the latest; [fuel] counts
    the rounds that may still come. *)
Fixpoint ask_loop (fuel : nat) (prompt : string) : M bool :=
  match fuel with
  | O => raise EOFError
  | S fuel' =>
      response <- input [Lit prompt] ;;
      let response := pystr.lower (pystr.strip response) in
      if String.eqb response "y" || String.eqb response "yes" then ret true
      else if String.eqb response "n" || String.eqb response "no" then ret false
      else print [Lit "Please answer with 'y' or 'n'."] ;; ask_loop fuel' prompt
  end.

Definition ask_yes_no (prompt : string) : M bool :=
  fun w => ask_loop (S (List.length (stdin w))) prompt w.

(** The first [while True] loop of [main], which asks for the length
    until it gets a positive integer. *)
Fixpoint length_loop (fuel : nat) : M Z :=
  match fuel with
  | O => raise EOFError
  | S fuel' =>
      length_input <- input [Lit "Enter the desired password length (positive integer): "] ;;
      match pystr.int length_input with
      | Some length =>
          if length <=? 0 then
            print [Lit "Please enter a positive integer greater than zero."] ;;
            length_loop fuel'
          else ret length
      | None =>
          print [Lit "Invalid input. Please enter a positive integer."] ;;
          length_loop fuel'
      end
  end.

(** [except ValueError]: the handler also takes the subclasses. *)
Definition catches_value_error (e : exn) : bool :=
  match e with ValueError | JSONDecodeError | UnicodeDecodeError => true | _ => false end.

(** [str(exc)] for the [ValueError] of [generate_password]: which of
    its two messages it is follows from the length asked for. *)
Definition error_text (length : Z) : string :=
  if length <=? 0 then "Password length must be a positive integer."
  else "No character types selected. Enable at least one type of characters.".

Definition main : M unit :=
  print [Lit "Password Generator"] ;;
  length <- (fun w => length_loop (S (List.length (stdin w))) w) ;;
  include_uppercase <- ask_yes_no "Include uppercase letters? (y/n): " ;;
  include_lowercase <- ask_yes_no "Include lowercase letters? (y/n): " ;;
  include_digits <- ask_yes_no "Include digits? (y/n): " ;;
  include_symbols <- ask_yes_no "Include symbols? (y/n): " ;;
  try_except
    (password <- lift (generate_password length include_uppercase include_lowercase
                         include_digits include_symbols) ;;
     print [Lit "Generated password: "; Fmt (VStr password)])
    catches_value_error
    (fun _ =>
       print [Lit "Error: "; Lit (error_text length)] ;;
       print [Lit "Unable to generate password with the selected options."]).

End with_random.

End password_generator.


(** * What the specification talks about *)

Module spec.

(** A value that a JSON document can hold as it is: the keys of every
    dictionary in it are strings, no key twice. *)
Definition is_str_key (k : key) : bool :=
  match k with KStr _ => true | _ => false end.

Fixpoint nodup_keys (ks : list key) : bool :=
  match ks with
  | [] => true
  | k :: ks' => negb (existsb (py.key_eqb k) ks') && nodup_keys ks'
  end.

Fixpoint json_like (v : value) : bool :=
  match v with
  | VList l => forallb json_like l
  | VDict d =>
      forallb (fun kv => is_str_key (fst kv) && json_like (snd kv)) d
      && nodup_keys (map fst d)
  | _ => true
  end.

(** A record, as the data model has it: a mapping from field names to
    values. *)
Definition record (r : py.dict) : Prop := json_like (VDict r) = true.

(** The identifier of a record. *)
Definition id_of (r : py.dict) : option value := py.get r "id".

(** The records of a store carry integer identifiers, at least 1, in
    strictly increasing order. *)
Definition has_id (r : py.dict) (n : Z) : Prop := id_of r = Some (VInt n).

Inductive ids_of : list py.dict -> list Z -> Prop :=
| ids_nil : ids_of [] []
| ids_cons r s n ns : has_id r n -> ids_of s ns -> ids_of (r :: s) (n :: ns).

Definition good_store (s : list py.dict) : Prop :=
  Forall record s
  /\ exists ns, ids_of s ns /\ StronglySorted Z.lt ns /\ Forall (fun n => 1 <= n) ns.

(** The file is missing, cut short (between two characters or inside
    one), or holds a good store. *)
Definition good_disk (d : file) : Prop :=
  d = Absent \/ d = Garbled \/ d = Undecodable
  \/ exists s, good_store s /\ d = Holds (json.dump (VList (map VDict s))).

Definition invariant (w : world) : Prop :=
  good_store (store w) /\ good_disk (disk w).

(** A task that [list_tasks] can show: it has an identifier and a
    description. *)
Definition listable (t : py.dict) : Prop :=
  (exists i, py.get t "id" = Some i) /\ (exists d, py.get t "description" = Some d).

(** The completion status of a task, as the list shows it. *)
Definition completed (t : py.dict) : bool :=
  py.truthy (py.get_default t "completed" (VBool false)).

(** A session begins: [main_menu] loads the store from the file that
    the sessions before left behind. *)
Definition session (start : M unit) (d : file) (lines : list string)
    (fs : list (option fault)) : result unit * world :=
  start (mkWorld [] lines [] d fs).

(** The worlds a program can be in.  The first session finds no file.
    Within a session the menu goes round after round; a later session
    starts from the file as it then is. *)
Section reachability.

Variable start : M unit.
Variable round : M unit.

Inductive step : world -> world -> Prop :=
| step_round w : step w (snd (round w))
| step_restart w lines fs w' :
    session start (disk w) lines fs = (Ok tt, w') -> step w w'.

Inductive reachable : world -> Prop :=
| reach_first lines fs w :
    session start Absent lines fs = (Ok tt, w) -> reachable w
| reach_step w w' : reachable w -> step w w' -> reachable w'.

End reachability.

End spec.

Definition contacts_reachable : world -> Prop :=
  spec.reachable contact_manager.main_menu_start contact_manager.menu_round.

Definition tasks_reachable (strptime_ok : string -> bool) : world -> Prop :=
  spec.reachable todo_manager.main_menu_start (todo_manager.menu_round strptime_ok).

(** ** How an action may change the world *)

Module frame.

(** Every run of [m] changes the world along [R]. *)
Definition acts (R : world -> world -> Prop) {A} (m : M A) : Prop :=
  forall w, R w (snd (m w)).

(** Talking to the user: lines are shown and read, nothing else. *)
Definition talk (w w' : world) : Prop :=
  store w' = store w /\ disk w' = disk w /\ faults w' = faults w.

(** Showing lines only. *)
Definition shows (w w' : world) : Prop :=
  talk w w' /\ stdin w' = stdin w.

(** The records keep their number and their identifiers. *)
Definition same_ids (w w' : world) : Prop :=
  map spec.id_of (store w') = map spec.id_of (store w).

(** The invariant of the store and its file is kept. *)
Definition keeps (w w' : world) : Prop :=
  spec.invariant w -> spec.invariant w'.

End frame.

Module effect.

(** At most one record is added, at the end, under the new
    identifier. *)
Definition appends (w w' : world) : Prop :=
  store w' = store w
  \/ exists r, store w' = (store w ++ [r])%list
               /\ spec.has_id r (record_store.generate_new_id (store w)).

(** At most one record is taken out. *)
Definition removes (w w' : world) : Prop :=
  store w' = store w
  \/ exists l1 r l2, store w = (l1 ++ r :: l2)%list /\ store w' = (l1 ++ l2)%list.

(** What one round of a menu does to the store. *)
Definition round (w w' : world) : Prop :=
  appends w w' \/ frame.same_ids w w' \/ removes w w'.

End effect.

Module identifiers.

(** [n] is the identifier that a new record gets in the store [s]: 1
    in the empty store, otherwise the greatest identifier in [s] plus
    one; no record of [s] has it. *)
Definition new_id_rule (s : list py.dict) (n : Z) : Prop :=
  exists ns,
    spec.ids_of s ns
    /\ (s = [] -> n = 1)
    /\ (s <> [] -> exists m, In m ns /\ Forall (fun k => k <= m) ns /\ n = m + 1)
    /\ Forall (fun k => k <> n) ns.

(** The identifier that [generate_new_id] computes in the world [w]
    follows the rule, and it is the one that the create operation
    [add] uses: [add] does nothing to the store, or puts one record at
    its end, with this identifier. *)
Definition creates_by_rule (add : M unit) (w : world) : Prop :=
  let n := record_store.generate_new_id (store w) in
  let w' := snd (add w) in
  new_id_rule (store w) n
  /\ (store w' = store w
      \/ exists r, store w' = (store w ++ [r])%list /\ spec.has_id r n).


End identifiers.

Module toggle.

(** What [toggle_completion] does to the task it finds. *)
Definition flip (t : py.dict) : py.dict :=
  py.setitem t "completed" (VBool (negb (spec.completed t))).

End toggle.

Module update.

(** An answer to "New ...": blank keeps the field, anything else is
    the new value. *)
Definition answer (field : string) (line : string) (r : py.dict) : py.dict :=
  if String.eqb (pystr.strip line) "" then r
  else py.setitem r field (VStr (pystr.strip line)).

(** The answer for the due date is also dropped when it is no date. *)
Definition answer_date (strptime_ok : string -> bool) (field : string) (line : string)
    (r : py.dict) : py.dict :=
  if String.eqb (pystr.strip line) "" then r
  else if strptime_ok (pystr.strip line) then py.setitem r field (VStr (pystr.strip line))
  else r.

(** What is done to the contact chosen, from the four answers. *)
Definition edit_contact (name phone email address : string) (c : py.dict) : py.dict :=
  answer "address" address (answer "email" email (answer "phone" phone (answer "name" name c))).

(** What is done to the task chosen, from the three answers. *)
Definition edit_task (strptime_ok : string -> bool) (description due notes : string)
    (t : py.dict) : py.dict :=
  answer "notes" notes
    (answer_date strptime_ok "due_date" due (answer "description" description t)).

(** The record has the field. *)
Definition has (r : py.dict) (field : string) : Prop :=
  exists v, py.get r field = Some v.

End update.

Module search.

(** [q] occurs in [s] when the case of the letters is disregarded. *)
Definition ci_substring (q s : string) : bool :=
  pystr.contains (pystr.lower q) (pystr.lower s).

Definition text_of (c : py.dict) (field : string) : string :=
  match py.get c field with
  | Some (VStr s) => s
  | _ => ""
  end.

(** The contact is one that a search for [q] is to find: [q] occurs in
    its name or in its phone number. *)
Definition found (q : string) (c : py.dict) : bool :=
  ci_substring q (text_of c "name") || ci_substring q (text_of c "phone").

(** [u] is a capital letter and [l] is its small letter.  Below
    U+0100 the capital letters are A to Z and U+00C0 to U+00DE without
    the multiplication sign U+00D7; the small letter of each is 32
    code points further. *)
Definition capital_of (u l : ascii) : Prop :=
  ((65 <= pystr.code u <= 90)
   \/ (192 <= pystr.code u <= 222 /\ pystr.code u <> 215))
  /\ pystr.code l = pystr.code u + 32.

(** Two characters are the same letter, the case disregarded. *)
Definition same_letter (a b : ascii) : Prop :=
  a = b \/ capital_of a b \/ capital_of b a.

(** [q] is a case-insensitive substring of [s]: a stretch of [s] has
    the letters of [q], one by one, the case disregarded. *)
Definition occurs (q s : string) : Prop :=
  exists before middle after,
    list_ascii_of_string s = (before ++ middle ++ after)%list
    /\ Forall2 same_letter (list_ascii_of_string q) middle.

(** [q] is a case-insensitive substring of the name or of the phone
    number of the contact. *)
Definition matches (q : string) (c : py.dict) : Prop :=
  occurs q (text_of c "name") \/ occurs q (text_of c "phone").

(** The name and the phone number of a contact as texts. *)
Definition wide (c : py.dict) : unicode.text * unicode.text :=
  (unicode.of_string (text_of c "name"), unicode.of_string (text_of c "phone")).

(** A contact with a name and a phone number, both strings. *)
Definition contact_fields (c : py.dict) : Prop :=
  exists name phone,
    py.get c "name" = Some (VStr name) /\ py.get c "phone" = Some (VStr phone).

(** The positions of the elements of [l] that satisfy [p], counted
    from [from]. *)
Fixpoint positions (p : py.dict -> bool) (from : nat) (l : list py.dict) : list nat :=
  match l with
  | [] => []
  | c :: l' => if p c then from :: positions p (S from) l' else positions p (S from) l'
  end.

End search.

(** ** What an operation leaves in the file *)

Module persist.

(** The file after a write of the store [s], by the fate [f] of the
    write. *)
Definition written (f : option fault) (d : file) (s : list py.dict) : file :=
  match f with
  | Some (OpenFails _) => d
  | Some (WriteFails _) => Garbled
  | Some (WriteSplits _) =>
      if json.wide (json.dump (VList (map VDict s))) then Undecodable else Garbled
  | None => Holds (json.dump (VList (map VDict s)))
  end.

(** The store was written once, as it now is. *)
Definition commits (w w' : world) : Prop :=
  disk w' = written (hd None (faults w)) (disk w) (store w')
  /\ faults w' = tl (faults w).

(** Store and file are untouched, or the store was written once, as
    it now is. *)
Definition saved (w w' : world) : Prop :=
  (store w' = store w /\ disk w' = disk w /\ faults w' = faults w)
  \/ commits w w'.

(** The store changes, nothing is written; the step does not raise. *)
Definition edits {A} (m : M A) : Prop :=
  forall w, exists a w',
    m w = (Ok a, w') /\ disk w' = disk w /\ faults w' = faults w.

End persist.

Module removal.

(** The records have identifiers other than [n]. *)
Definition others (n : Z) (s : list py.dict) : Prop :=
  Forall (fun y => exists m, spec.has_id y m /\ m <> n) s.

(** The answer to "Are you sure ...?" that confirms. *)
Definition confirms (line : string) : bool :=
  let answer := pystr.lower (pystr.strip line) in
  String.eqb answer "y" || String.eqb answer "yes".

End removal.

Module selection.

(** An answer that [select_contact] refuses and asks again for: it is
    not blank, and either it is not made of digits only, as
    [str.isdigit] has it, or it is a number that is not from 1 to [n],
    the number of contacts listed. *)
Definition refused (n : nat) (line : string) : Prop :=
  pystr.strip line <> ""
  /\ (pystr.str_isdigit (pystr.strip line) = false
      \/ exists i, pystr.int (pystr.strip line) = Some i /\ ~ (1 <= i <= Z.of_nat n)).

(** The contacts listed can be shown: they have a name and a phone
    number. *)
Definition showable (s : list py.dict) (refs : list nat) : Prop :=
  Forall (fun ref => update.has (nth ref s []) "name" /\ update.has (nth ref s []) "phone")
         refs.

(** What is shown for one answer that is refused. *)
Definition asked_again : list out :=
  [Prompt [Lit "Select a contact by number (or press Enter to cancel): "];
   Print [Lit "Invalid selection. Try again."]].

End selection.

(** ** What the list of the contacts shows *)

Module listing.

(** The line for the contact [c] at the place [idx] of the list: a
    contact without a name is shown as "Unknown", one without a phone
    number with an empty one. *)
Definition contact_line (idx : Z) (c : py.dict) : out :=
  Print [Fmt (VInt idx); Lit ". ";
         Fmt match py.get c "name" with Some name => name | None => VStr "Unknown" end;
         Lit " "; en_dash; Lit " ";
         Fmt match py.get c "phone" with Some phone => phone | None => VStr "" end].

End listing.

(** ** Identifiers that are integers *)

Module fresh.

(** Every identifier that is there is an integer for Python,
    [isinstance(t.get("id"), int)]; a record may be without one. *)
Definition integer_ids (s : list py.dict) : Prop :=
  Forall (fun t => match py.get t "id" with
                   | Some v => py.is_int v = true
                   | None => True
                   end) s.

End fresh.

Module yes_no.

(** An answer to a yes/no question, as it is compared. *)
Definition answer (line : string) : string := pystr.lower (pystr.strip line).

(** The line says yes ([b] is [true]) or no ([b] is [false]). *)
Definition says (line : string) (b : bool) : Prop :=
  if b then answer line = "y" \/ answer line = "yes"
  else answer line = "n" \/ answer line = "no".

(** The line says neither. *)
Definition unclear (line : string) : Prop :=
  ~ In (answer line) ["y"; "yes"; "n"; "no"].

(** What is shown for one unclear answer to the question [prompt]. *)
Definition asked_again (prompt : string) : list out :=
  [Prompt [Lit prompt]; Print [Lit "Please answer with 'y' or 'n'."]].

(** The line is no password length: it is no integer, or one that is
    not positive. *)
Definition not_a_length (line : string) : Prop :=
  forall n, pystr.int line = Some n -> n <= 0.

(** What is shown for one line that is no password length. *)
Definition length_asked_again (line : string) : list out :=
  [Prompt [Lit "Enter the desired password length (positive integer): "];
   Print [Lit match pystr.int line with
              | Some _ => "Please enter a positive integer greater than zero."
              | None => "Invalid input. Please enter a positive integer."
              end]].

End yes_no.

(** ** The records that the programs themselves make *)

Module shape.

(** A contact as [add_contact] makes it and [update_contact] leaves
    it: the five fields in their order, the name and the phone number
    not empty. *)
Definition contact (c : py.dict) : Prop :=
  exists n name phone email address,
    c = [(KStr "id", VInt n); (KStr "name", VStr name); (KStr "phone", VStr phone);
         (KStr "email", VStr email); (KStr "address", VStr address)]
    /\ name <> "" /\ phone <> "".

(** A task as [add_task] makes it and [update_task] and
    [toggle_completion] leave it: the five fields in their order, the
    description not empty, the due date empty or a date. *)
Definition task (strptime_ok : string -> bool) (t : py.dict) : Prop :=
  exists n description completed due_date notes,
    t = [(KStr "id", VInt n); (KStr "description", VStr description);
         (KStr "completed", VBool completed); (KStr "due_date", VStr due_date);
         (KStr "notes", VStr notes)]
    /\ description <> "" /\ (due_date = "" \/ strptime_ok due_date = true).

(** The file is missing, cut short (between two characters or inside
    one), or holds records of the shape. *)
Definition on_disk (P : py.dict -> Prop) (d : file) : Prop :=
  d = Absent \/ d = Garbled \/ d = Undecodable
  \/ exists s, Forall P s /\ d = Holds (json.dump (VList (map VDict s))).

Definition holds (P : py.dict -> Prop) (w : world) : Prop :=
  Forall P (store w) /\ on_disk P (disk w).

End shape.

(** ** What an action may end with *)

Module hoare.

(** From a world in which [inv] holds and the store satisfies [pre],
    the action [m] returns with [post] for its result and the store,
    or raises one of the exceptions [allowed]; [inv] holds
    afterwards. *)
Definition safe (inv : world -> Prop) (allowed : exn -> Prop) {A}
    (pre : list py.dict -> Prop) (m : M A) (post : A -> list py.dict -> Prop) : Prop :=
  forall w, inv w -> pre (store w) ->
    match m w with
    | (Ok a, w') => inv w' /\ post a (store w')
    | (Raise e, w') => inv w' /\ allowed e
    end.

(** The ways out of the contact manager. *)
Definition contacts_exit (e : exn) : Prop :=
  e = SystemExit \/ e = EOFError \/ e = ValueError.

(** The ways out of the to-do manager. *)
Definition tasks_exit (e : exn) : Prop :=
  e = SystemExit \/ e = EOFError.

End hoare.

Module refs.

(** The references are positions of the store. *)
Definition in_range (refs : list nat) (s : list py.dict) : Prop :=
  Forall (fun r => r < List.length s)%nat refs.

(** The reference chosen, if any, is a position of the store. *)
Definition chosen (selected : option nat) (s : list py.dict) : Prop :=
  match selected with
  | Some ref => (ref < List.length s)%nat
  | None => True
  end.

End refs.

Module input_use.

(** No line comes back: what is left of the input is not longer than
    before. *)
Definition reads (w w' : world) : Prop :=
  (List.length (stdin w') <= List.length (stdin w))%nat.

(** The action reads at least one line when it returns. *)
Definition reads_one {A} (m : M A) : Prop :=
  forall w a w', m w = (Ok a, w') -> (List.length (stdin w') < List.length (stdin w))%nat.

End input_use.

(** * Proofs *)

(** ** The model on small inputs *)

Example strip_ex : pystr.strip "  Bob Ross	 " = "Bob Ross".
Proof. reflexivity. Qed.

Example lower_ex : pystr.lower "Bob ROSS-42" = "bob ross-42".
Proof. reflexivity. Qed.

Example contains_ex :
  pystr.contains "ros" "bob ross" = true /\ pystr.contains "rob" "bob ross" = false
  /\ pystr.contains "" "" = true.
Proof. repeat split. Qed.

Example int_ex :
  pystr.int " -1_000 " = Some (-1000) /\ pystr.int "007" = Some 7
  /\ pystr.int "1__0" = None /\ pystr.int "+" = None /\ pystr.int "2a" = None
  /\ pystr.int "" = None /\ pystr.int "- 5" = None
  /\ pystr.int (String (ascii_of_nat 28) "5") = None
  /\ pystr.int (String (ascii_of_nat 160) "5") = Some 5.
Proof. repeat split. Qed.

Example of_int_ex :
  pystr.of_int (-5) = "-5" /\ pystr.of_int 0 = "0" /\ pystr.of_int 120 = "120".
Proof. repeat split. Qed.

Example dict_of_ex :
  py.dict_of (VList [VInt 1]) = Raise TypeError
  /\ py.dict_of (VStr "ab") = Raise ValueError
  /\ py.dict_of (VList []) = Ok []
  /\ py.dict_of (VList [VList [VStr "a"; VInt 1]; VStr "bc"])
     = Ok [(KStr "a", VInt 1); (KStr "b", VStr "c")].
Proof. repeat split. Qed.

Example eqb_ex :
  py.eqb (VBool true) (VInt 1) = true
  /\ py.eqb (VDict [(KStr "a", VInt 1); (KStr "b", VNone)])
            (VDict [(KStr "b", VNone); (KStr "a", VInt 1)]) = true
  /\ py.eqb (VStr "1") (VInt 1) = false.
Proof. repeat split. Qed.

Example punctuation_ex : String.length password_generator.punctuation = 32%nat.
Proof. reflexivity. Qed.

Example generate_password_ex :
  password_generator.generate_password (fun i n => (7 * i + 3) mod n)%nat 6 true true true false
  = Ok "dkryFM".
Proof. reflexivity. Qed.

(** ** Strings and lists *)

Lemma list_ascii_of_string_app (a b : string) :
  list_ascii_of_string (a ++ b) = (list_ascii_of_string a ++ list_ascii_of_string b)%list.
Proof. induction a as [|c a IH]; simpl; [reflexivity | now rewrite IH]. Qed.

Lemma length_string_of_list_ascii (l : list ascii) :
  String.length (string_of_list_ascii l) = List.length l.
Proof. induction l as [|c l IH]; simpl; [reflexivity | now rewrite IH]. Qed.

Lemma string_get_in (s : string) (n : nat) (c : ascii) :
  String.get n s = Some c -> In c (list_ascii_of_string s).
Proof.
  revert n; induction s as [|d s IH]; intros n H; simpl in *.
  - discriminate.
  - destruct n as [|n].
    + left; congruence.
    + right; eauto.
Qed.

Lemma string_get_lt (s : string) (n : nat) :
  (n < String.length s)%nat -> exists c, String.get n s = Some c.
Proof.
  revert n; induction s as [|d s IH]; intros n H; simpl in *.
  - lia.
  - destruct n as [|n]; [eauto | apply IH; lia].
Qed.

Lemma string_eqb_empty_length (s : string) :
  String.eqb s "" = false -> (0 < String.length s)%nat.
Proof. destruct s; simpl; [discriminate | lia]. Qed.

Lemma map_result_ok {A B} (f : A -> result B) (P : B -> Prop) (l : list A) :
  (forall x, In x l -> exists y, f x = Ok y /\ P y) ->
  exists ys, map_result f l = Ok ys /\ List.length ys = List.length l /\ Forall P ys.
Proof.
  induction l as [|x l IH]; intros H; simpl.
  - exists []; repeat split; constructor.
  - destruct (H x (or_introl eq_refl)) as (y & Hy & Py).
    destruct IH as (ys & Hys & Hlen & HP); [intros; apply H; now right|].
    rewrite Hy, Hys. exists (y :: ys); repeat split; simpl; auto.
Qed.

(** ** password_generator.py *)

Module password_generator_proofs.
Import password_generator.

Section with_random.

Variable randbelow : nat -> nat -> nat.
Hypothesis randbelow_lt : forall i n, (0 < n)%nat -> (randbelow i n < n)%nat.

Lemma choice_ok (i : nat) (seq : string) :
  (0 < String.length seq)%nat ->
  exists c, choice randbelow i seq = Ok c /\ In c (list_ascii_of_string seq).
Proof.
  intros Hlen. unfold choice.
  destruct (string_get_lt seq (randbelow i (String.length seq))) as [c Hc].
  - now apply randbelow_lt.
  - rewrite Hc. eauto using string_get_in.
Qed.

Lemma join_choices_ok (characters : string) (length : Z) :
  (0 < String.length characters)%nat ->
  exists s, join_choices randbelow characters length = Ok s
            /\ String.length s = Z.to_nat length
            /\ Forall (fun c => In c (list_ascii_of_string characters))
                      (list_ascii_of_string s).
Proof.
  intros Hlen. unfold join_choices.
  destruct (map_result_ok (fun i => choice randbelow i characters)
              (fun c => In c (list_ascii_of_string characters))
              (List.seq 0 (Z.to_nat length))) as (l & Hl & Hn & HP).
  - intros i _. now apply choice_ok.
  - rewrite Hl. exists (string_of_list_ascii l).
    rewrite length_string_of_list_ascii, list_ascii_of_string_of_list_ascii.
    rewrite length_seq in Hn. auto.
Qed.

End with_random.

End password_generator_proofs.

(** C9.  [generate_password] raises [ValueError] exactly when
    [length <= 0] or no character set is enabled.  In every other
    case it returns a string of exactly [length] characters, each of
    which belongs to one of the enabled sets (lowercase, uppercase,
    digits, punctuation). *)
Theorem generate_password_spec
    (randbelow : nat -> nat -> nat)
    (randbelow_lt : forall i n, (0 < n)%nat -> (randbelow i n < n)%nat)
    (length : Z) (use_uppercase use_lowercase use_digits use_symbols : bool) :
  let r := password_generator.generate_password randbelow length
             use_uppercase use_lowercase use_digits use_symbols in
  (r = Raise ValueError <->
     (length <= 0 \/
      (use_uppercase = false /\ use_lowercase = false
       /\ use_digits = false /\ use_symbols = false)))
  /\ (~ (length <= 0 \/
         (use_uppercase = false /\ use_lowercase = false
          /\ use_digits = false /\ use_symbols = false)) ->
      exists s, r = Ok s
        /\ Z.of_nat (String.length s) = length
        /\ forall c, In c (list_ascii_of_string s) ->
             (use_lowercase = true
                /\ In c (list_ascii_of_string password_generator.ascii_lowercase))
             \/ (use_uppercase = true
                /\ In c (list_ascii_of_string password_generator.ascii_uppercase))
             \/ (use_digits = true
                /\ In c (list_ascii_of_string password_generator.digits))
             \/ (use_symbols = true
                /\ In c (list_ascii_of_string password_generator.punctuation))).
Proof.
  intros r.
  assert (Hgood : ~ (length <= 0 \/
         (use_uppercase = false /\ use_lowercase = false
          /\ use_digits = false /\ use_symbols = false)) ->
      exists s, r = Ok s
        /\ Z.of_nat (String.length s) = length
        /\ forall c, In c (list_ascii_of_string s) ->
             (use_lowercase = true
                /\ In c (list_ascii_of_string password_generator.ascii_lowercase))
             \/ (use_uppercase = true
                /\ In c (list_ascii_of_string password_generator.ascii_uppercase))
             \/ (use_digits = true
                /\ In c (list_ascii_of_string password_generator.digits))
             \/ (use_symbols = true
                /\ In c (list_ascii_of_string password_generator.punctuation))).
  { intros Hno. subst r. unfold password_generator.generate_password.
    destruct (Z.leb_spec length 0) as [Hle|Hgt]; [exfalso; auto|].
    set (characters :=
           (let characters := "" in
            let characters := if use_lowercase
                              then characters ++ password_generator.ascii_lowercase
                              else characters in
            let characters := if use_uppercase
                              then characters ++ password_generator.ascii_uppercase
                              else characters in
            let characters := if use_digits
                              then characters ++ password_generator.digits
                              else characters in
            if use_symbols then characters ++ password_generator.punctuation
            else characters)).
    assert (Hin : forall c, In c (list_ascii_of_string characters) ->
             (use_lowercase = true
                /\ In c (list_ascii_of_string password_generator.ascii_lowercase))
             \/ (use_uppercase = true
                /\ In c (list_ascii_of_string password_generator.ascii_uppercase))
             \/ (use_digits = true
                /\ In c (list_ascii_of_string password_generator.digits))
             \/ (use_symbols = true
                /\ In c (list_ascii_of_string password_generator.punctuation))).
    { intros c. subst characters. cbv zeta.
      destruct use_lowercase, use_uppercase, use_digits, use_symbols;
        rewrite ?list_ascii_of_string_app; rewrite ?in_app_iff;
        change (list_ascii_of_string "") with (@nil ascii); simpl In at 1;
        tauto. }
    destruct (String.eqb characters "") eqn:Hempty.
    - exfalso. apply Hno. right. subst characters. cbv zeta in Hempty.
      destruct use_lowercase, use_uppercase, use_digits, use_symbols;
        try discriminate Hempty; auto.
    - destruct (password_generator_proofs.join_choices_ok randbelow randbelow_lt
                  characters length (string_eqb_empty_length _ Hempty))
        as (s & Hs & Hlen & HP).
      exists s. split; [exact Hs|]. split; [rewrite Hlen; lia|].
      intros c Hc. apply Hin. rewrite Forall_forall in HP. now apply HP. }
  split; [|exact Hgood].
  split.
  - intros Hr.
    destruct (Z.leb_spec length 0) as [Hle|Hgt]; [now left|].
    destruct use_uppercase eqn:?, use_lowercase eqn:?, use_digits eqn:?, use_symbols eqn:?;
      try (right; now repeat split);
      (destruct Hgood as (s & Hs & _); [intros [?|(?&?&?&?)]; (lia || discriminate)|];
       rewrite Hs in Hr; discriminate).
  - intros [Hle|(-> & -> & -> & ->)]; subst r; unfold password_generator.generate_password.
    + destruct (Z.leb_spec length 0); [reflexivity | lia].
    + destruct (length <=? 0); reflexivity.
Qed.

(** C9 at a concrete generator and a concrete request. *)
Lemma generate_password_spec_witness :
  exists s,
    password_generator.generate_password (fun i n => (7 * i + 3) mod n)%nat 6
      true true true false = Ok s
    /\ Z.of_nat (String.length s) = 6
    /\ forall c, In c (list_ascii_of_string s) ->
         (true = true /\ In c (list_ascii_of_string password_generator.ascii_lowercase))
         \/ (true = true /\ In c (list_ascii_of_string password_generator.ascii_uppercase))
         \/ (true = true /\ In c (list_ascii_of_string password_generator.digits))
         \/ (false = true /\ In c (list_ascii_of_string password_generator.punctuation)).
Proof.
  apply (generate_password_spec (fun i n => (7 * i + 3) mod n)%nat).
  - intros i n Hn. apply Nat.mod_upper_bound. lia.
  - intros [H|(H & _)]; [lia | discriminate].
Defined.

(** ** Dictionaries *)

Lemma key_eqb_refl (k : key) : py.key_eqb k k = true.
Proof.
  destruct k as [|b|n|s]; simpl; auto using Z.eqb_refl, String.eqb_refl.
Qed.

Lemma key_eqb_sym (k1 k2 : key) : py.key_eqb k1 k2 = py.key_eqb k2 k1.
Proof.
  destruct k1, k2; simpl; auto using Z.eqb_sym, String.eqb_sym.
Qed.

Lemma key_eqb_trans (k1 k2 k3 : key) :
  py.key_eqb k1 k2 = true -> py.key_eqb k2 k3 = true -> py.key_eqb k1 k3 = true.
Proof.
  destruct k1, k2, k3; simpl; try discriminate; auto;
    rewrite ?Z.eqb_eq, ?String.eqb_eq; congruence.
Qed.

Lemma key_eqb_cong (k1 k2 k : key) :
  py.key_eqb k1 k2 = true -> py.key_eqb k1 k = py.key_eqb k2 k.
Proof.
  intros H. destruct (py.key_eqb k2 k) eqn:E.
  - eauto using key_eqb_trans.
  - destruct (py.key_eqb k1 k) eqn:E'; [|reflexivity].
    rewrite key_eqb_sym in H. rewrite <- E. symmetry. eauto using key_eqb_trans.
Qed.

Lemma get_setitem_same (d : py.dict) (k : key) (v : value) :
  py.get (py.setitem d k v) k = Some v.
Proof.
  induction d as [|[k' v'] d IH]; simpl.
  - now rewrite key_eqb_refl.
  - destruct (py.key_eqb k' k) eqn:E; simpl; rewrite E; auto.
Qed.

Lemma get_setitem_other (d : py.dict) (k k0 : key) (v : value) :
  py.key_eqb k k0 = false -> py.get (py.setitem d k v) k0 = py.get d k0.
Proof.
  intros Hne. induction d as [|[k' v'] d IH]; simpl.
  - now rewrite Hne.
  - destruct (py.key_eqb k' k) eqn:E; simpl.
    + rewrite (key_eqb_cong _ _ k0 E), Hne. reflexivity.
    + destruct (py.key_eqb k' k0); auto.
Qed.

Lemma setitem_absent (d : py.dict) (k : key) (v : value) :
  existsb (py.key_eqb k) (map fst d) = false ->
  py.setitem d k v = (d ++ [(k, v)])%list.
Proof.
  induction d as [|[k' v'] d IH]; simpl; [reflexivity|].
  rewrite (key_eqb_sym k k'). destruct (py.key_eqb k' k); simpl; [discriminate|].
  intros H. now rewrite IH.
Qed.

(** ** JSON: what is written is what is read back *)

Lemma value_ind_nested (P : value -> Prop) :
  P VNone -> (forall b, P (VBool b)) -> (forall n, P (VInt n)) -> (forall s, P (VStr s)) ->
  (forall l, Forall P l -> P (VList l)) ->
  (forall d, Forall (fun kv => P (snd kv)) d -> P (VDict d)) ->
  forall v, P v.
Proof.
  intros HN HB HI HS HL HD. fix IH 1.
  intros [| b | n | s | l | d]; [exact HN | apply HB | apply HI | apply HS | | ].
  - apply HL. revert l. fix IHl 1. intros [|x l]; constructor; [apply IH | apply IHl].
  - apply HD. revert d. fix IHd 1. intros [|[k x] d]; constructor; [apply IH | apply IHd].
Qed.

Lemma existsb_app_false {A} (f : A -> bool) (l1 l2 : list A) :
  existsb f (l1 ++ l2) = false <-> existsb f l1 = false /\ existsb f l2 = false.
Proof. rewrite existsb_app, orb_false_iff. tauto. Qed.

Lemma load_dump_items (d acc : py.dict) :
  Forall (fun kv => spec.json_like (snd kv) = true ->
                    json.load (json.dump (snd kv)) = snd kv) d ->
  forallb (fun kv => spec.is_str_key (fst kv) && spec.json_like (snd kv)) d = true ->
  spec.nodup_keys (map fst d) = true ->
  Forall (fun kv => existsb (py.key_eqb (fst kv)) (map fst acc) = false) d ->
  fold_left (fun acc kx => py.setitem acc (KStr (fst kx)) (json.load (snd kx)))
    (map (fun kv => (json.key_text (fst kv), json.dump (snd kv))) d) acc
  = (acc ++ d)%list.
Proof.
  revert acc. induction d as [|[k x] d IH]; intros acc HIH Hall Hnd Hacc; simpl.
  - now rewrite app_nil_r.
  - simpl in Hall, Hnd. apply andb_prop in Hall as [Hkx Hall].
    apply andb_prop in Hkx as [Hk Hx]. apply andb_prop in Hnd as [Hk' Hnd].
    apply negb_true_iff in Hk'.
    inversion HIH as [|? ? Hx' HIH']; subst. inversion Hacc as [|? ? Hka Hacc']; subst.
    simpl in *. destruct k as [| | |s]; try discriminate. simpl.
    rewrite (Hx' Hx), (setitem_absent _ _ _ Hka).
    rewrite IH; auto.
    + now rewrite <- app_assoc.
    + rewrite Forall_forall in *. intros [k1 x1] Hin. simpl.
      rewrite map_app. apply existsb_app_false. split; [now apply (Hacc' (k1, x1))|].
      simpl. rewrite orb_false_r.
      destruct (py.key_eqb k1 (KStr s)) eqn:E; [|reflexivity].
      rewrite key_eqb_sym in E.
      assert (existsb (py.key_eqb (KStr s)) (map fst d) = true); [|congruence].
      apply existsb_exists. exists k1. split; [|exact E].
      apply in_map_iff. now exists (k1, x1).
Qed.

Lemma load_dump (v : value) :
  spec.json_like v = true -> json.load (json.dump v) = v.
Proof.
  induction v as [| b | n | s | l IH | d IH] using value_ind_nested;
    intros Hv; simpl; auto.
  - f_equal. simpl in Hv. induction IH as [|x l Hx _ IHl]; simpl; [reflexivity|].
    simpl in Hv. apply andb_prop in Hv as [Hx' Hl]. now rewrite Hx, IHl.
  - f_equal. simpl in Hv. apply andb_prop in Hv as [Hall Hnd].
    rewrite (load_dump_items d []); auto.
    apply Forall_forall. reflexivity.
Qed.

Lemma load_dump_records (s : list py.dict) :
  Forall spec.record s ->
  map json.load (map json.dump (map VDict s)) = map VDict s.
Proof.
  induction 1 as [|r s Hr _ IH]; cbn [map]; [reflexivity|].
  now rewrite (load_dump _ Hr), IH.
Qed.

Lemma map_result_dict_of (s : list py.dict) :
  map_result py.dict_of (map VDict s) = Ok s.
Proof. induction s as [|r s IH]; simpl; [reflexivity | now rewrite IH]. Qed.

(** ** Loading and saving *)

Lemma save_then_load (noun : string) (records : list py.dict) (w : world) :
  Forall spec.record records ->
  hd None (faults w) = None ->
  exists w1,
    record_store.save_records noun records w = (Ok tt, w1)
    /\ stdout w1 = stdout w
    /\ record_store.load_records w1 = (Ok records, w1).
Proof.
  intros Hrec Hfault. destruct w as [s i o d fs].
  unfold record_store.save_records, record_store.load_records,
    try_except, bind, path_exists, read_json, write_json, lift, ret.
  assert (Hload : json.load (json.dump (VList (map VDict records))) = VList (map VDict records)).
  { cbn [json.dump json.load]. now rewrite load_dump_records. }
  destruct fs as [|[f|] fs]; simpl in Hfault; try discriminate;
    cbn [faults store stdin stdout disk];
    (eexists; split; [reflexivity|]; split; [reflexivity|]);
    cbn [faults store stdin stdout disk negb]; rewrite Hload, map_result_dict_of;
    reflexivity.
Qed.

(** C3.  Saving a sequence of records and then loading gives the same
    sequence back, in both programs: when the write goes through, the
    file holds the whole sequence, and [load_contacts] (resp.
    [load_tasks]) returns it, record for record and in the same
    order.  A record is a mapping from field names to values. *)
Theorem save_load_round_trip (records : list py.dict) (w : world) :
  Forall spec.record records ->
  hd None (faults w) = None ->
  (exists w1,
     contact_manager.save_contacts records w = (Ok tt, w1)
     /\ contact_manager.load_contacts w1 = (Ok records, w1))
  /\ (exists w1,
        todo_manager.save_tasks records w = (Ok tt, w1)
        /\ todo_manager.load_tasks w1 = (Ok records, w1)).
Proof.
  intros Hrec Hfault. split.
  - destruct (save_then_load "contacts" records w Hrec Hfault) as (w1 & H1 & _ & H2).
    now exists w1.
  - destruct (save_then_load "tasks" records w Hrec Hfault) as (w1 & H1 & _ & H2).
    now exists w1.
Qed.

(** C3 for two contacts, written over a file that was cut short. *)
Lemma save_load_round_trip_witness :
  let records : list py.dict :=
    [ [(KStr "id", VInt 1); (KStr "name", VStr "Ada"); (KStr "phone", VStr "555");
       (KStr "email", VStr ""); (KStr "address", VStr "")];
      [(KStr "id", VInt 2); (KStr "name", VStr "Bob"); (KStr "phone", VStr "556");
       (KStr "email", VStr "b@x.org"); (KStr "address", VStr "")] ] in
  let w := mkWorld records [] [] Garbled [] in
  (exists w1,
     contact_manager.save_contacts records w = (Ok tt, w1)
     /\ contact_manager.load_contacts w1 = (Ok records, w1))
  /\ (exists w1,
        todo_manager.save_tasks records w = (Ok tt, w1)
        /\ todo_manager.load_tasks w1 = (Ok records, w1)).
Proof.
  intros records w. apply (save_load_round_trip records w).
  - repeat constructor.
  - reflexivity.
Defined.

(** Where loading does fall back to the empty store: no file, a file
    that cannot be opened, text that is not JSON, a document that is
    not a list. *)
Lemma load_records_fallback (w : world) :
  match disk w with
  | Absent | Unreadable _ | Garbled => True
  | Holds j => match j with json.Arr _ => False | _ => True end
  | Undecodable => False
  end ->
  record_store.load_records w = (Ok [], w).
Proof.
  destruct w as [s i o d fs].
  unfold record_store.load_records, try_except, bind, path_exists, read_json, lift, ret.
  cbn [disk]. destruct d as [| msg | | | j]; cbn; try tauto.
  destruct j; cbn; tauto.
Qed.

(** A list whose entry is an empty list is taken for a store with one
    record without fields: [dict([])] is the empty dictionary. *)
Example load_list_of_empty_list :
  record_store.load_records (mkWorld [] [] [] (Holds (json.Arr [json.Arr []])) [])
  = (Ok [[]], mkWorld [] [] [] (Holds (json.Arr [json.Arr []])) []).
Proof. reflexivity. Qed.

(** C2.  A file whose JSON document is the list [[1]] is malformed: it
    is a list, but its entry is no record.  Both [load_contacts] and
    [load_tasks] then raise [TypeError]: [dict(entry)] fails on the
    number, and the handler catches only [JSONDecodeError] and
    [IOError].  No empty store is returned. *)
Theorem load_raises_on_list_of_non_records
    (s : list py.dict) (lines : list string) (shown : list out)
    (fs : list (option fault)) :
  let w := mkWorld s lines shown (Holds (json.Arr [json.Int 1])) fs in
  contact_manager.load_contacts w = (Raise TypeError, w)
  /\ todo_manager.load_tasks w = (Raise TypeError, w).
Proof. split; reflexivity. Qed.

(** ** Frame rules for the monad *)

Module frame_rules.
Import frame.

Section rules.

Variable R : world -> world -> Prop.
Hypothesis R_refl : forall w, R w w.
Hypothesis R_trans : forall w1 w2 w3, R w1 w2 -> R w2 w3 -> R w1 w3.

Lemma acts_ret {A} (a : A) : acts R (ret a).
Proof. intros w. apply R_refl. Qed.

Lemma acts_raise {A} (e : exn) : acts R (@raise A e).
Proof. intros w. apply R_refl. Qed.

Lemma acts_lift {A} (r : result A) : acts R (lift r).
Proof. intros w. apply R_refl. Qed.

Lemma acts_bind {A B} (m : M A) (k : A -> M B) :
  acts R m -> (forall a, acts R (k a)) -> acts R (bind m k).
Proof.
  intros Hm Hk w. unfold bind. specialize (Hm w).
  destruct (m w) as [[a|e] w1]; simpl in *; [|exact Hm].
  eapply R_trans; [exact Hm | apply Hk].
Qed.

Lemma acts_try_except {A} (m : M A) (c : exn -> bool) (h : exn -> M A) :
  acts R m -> (forall e, acts R (h e)) -> acts R (try_except m c h).
Proof.
  intros Hm Hh w. unfold try_except. specialize (Hm w).
  destruct (m w) as [[a|e] w1]; simpl in *; [exact Hm|].
  destruct (c e); simpl; [|exact Hm].
  eapply R_trans; [exact Hm | apply Hh].
Qed.

Lemma acts_for_each {A} (l : list A) (body : A -> M unit) :
  (forall x, acts R (body x)) -> acts R (for_each l body).
Proof.
  intros Hb. induction l as [|x l IH]; simpl.
  - apply acts_ret.
  - apply acts_bind; auto.
Qed.

Lemma acts_get_store {A} (k : list py.dict -> M A) :
  (forall w, R w (snd (k (store w) w))) -> acts R (bind get_store k).
Proof. intros Hk w. apply Hk. Qed.

Lemma acts_world {A B} (f : world -> B) (m : B -> M A) :
  (forall b, acts R (m b)) -> acts R (fun w => m (f w) w).
Proof. intros Hm w. apply Hm. Qed.

End rules.

Lemma talk_refl w : talk w w.
Proof. repeat split. Qed.

Lemma talk_trans w1 w2 w3 : talk w1 w2 -> talk w2 w3 -> talk w1 w3.
Proof. unfold talk. intros (?&?&?) (?&?&?). repeat split; congruence. Qed.

Lemma shows_refl w : shows w w.
Proof. repeat split. Qed.

Lemma shows_trans w1 w2 w3 : shows w1 w2 -> shows w2 w3 -> shows w1 w3.
Proof. unfold shows, talk. intros ((?&?&?)&?) ((?&?&?)&?). repeat split; congruence. Qed.

Lemma shows_talk w w' : shows w w' -> talk w w'.
Proof. now intros [H _]. Qed.

Lemma same_ids_refl w : same_ids w w.
Proof. reflexivity. Qed.

Lemma same_ids_trans w1 w2 w3 : same_ids w1 w2 -> same_ids w2 w3 -> same_ids w1 w3.
Proof. unfold same_ids. congruence. Qed.

Lemma same_ids_talk w w' : talk w w' -> same_ids w w'.
Proof. unfold same_ids. intros (-> & _). reflexivity. Qed.

Lemma keeps_refl w : keeps w w.
Proof. intros H; exact H. Qed.

Lemma keeps_trans w1 w2 w3 : keeps w1 w2 -> keeps w2 w3 -> keeps w1 w3.
Proof. unfold keeps. auto. Qed.

Lemma keeps_talk w w' : talk w w' -> keeps w w'.
Proof. unfold keeps, spec.invariant. intros (-> & -> & _). auto. Qed.

(** The primitive actions *)

Lemma shows_print text : acts shows (print text).
Proof. intros w. repeat split. Qed.

Lemma talk_input text : acts talk (input text).
Proof. intros w. unfold input. destruct (stdin w); repeat split. Qed.

Lemma shows_deref i : acts shows (deref i).
Proof. intros w. repeat split. Qed.

Lemma shows_path_exists : acts shows path_exists.
Proof. intros w. repeat split. Qed.

Lemma shows_read_json : acts shows read_json.
Proof. intros w. unfold read_json. destruct (disk w); repeat split. Qed.

Lemma shows_get_store : acts shows get_store.
Proof. intros w. repeat split. Qed.

End frame_rules.

Module frame_tactics.
Import frame frame_rules.

Lemma acts_shows_talk {A} (m : M A) : acts shows m -> acts talk m.
Proof. intros H w. apply shows_talk, H. Qed.

Create HintDb shows_db.
Create HintDb talk_db.

#[export] Hint Resolve shows_print shows_deref shows_path_exists shows_read_json
  shows_get_store : shows_db.
#[export] Hint Resolve talk_input : talk_db.

(** One step through the structure of an action. *)
Ltac acts_structure R_refl R_trans :=
  first
    [ apply (acts_ret _ R_refl)
    | apply (acts_raise _ R_refl)
    | apply (acts_lift _ R_refl)
    | apply (acts_for_each _ R_refl R_trans); intro
    | apply (acts_try_except _ R_trans); [|intro]
    | apply (acts_bind _ R_trans); [|intro]
    | match goal with
      | |- acts _ (match ?x with _ => _ end) => destruct x
      | |- acts _ (let _ := _ in _) => cbv zeta
      end ].

Ltac shows_go :=
  repeat first [ solve [auto with shows_db] | acts_structure shows_refl shows_trans ].

Ltac talk_leaf :=
  first [ solve [auto with talk_db]
        | apply acts_shows_talk; solve [auto with shows_db] ].

Ltac talk_go :=
  repeat first [ talk_leaf | acts_structure talk_refl talk_trans ].

End frame_tactics.

(** ** The parts of the programs that only talk *)

Module talk_lemmas.
Import frame frame_rules frame_tactics.

Lemma shows_load_records : acts shows record_store.load_records.
Proof. unfold record_store.load_records. shows_go. Qed.

Lemma shows_view_contacts : acts shows contact_manager.view_contacts.
Proof. unfold contact_manager.view_contacts. shows_go. Qed.

Lemma shows_print_line idx ref : acts shows (contact_manager.print_line idx ref).
Proof. unfold contact_manager.print_line. shows_go. Qed.

#[export] Hint Resolve shows_load_records shows_view_contacts shows_print_line : shows_db.

Lemma talk_search_contacts : acts talk contact_manager.search_contacts.
Proof. unfold contact_manager.search_contacts. talk_go. Qed.

Lemma talk_select_loop fuel contacts : acts talk (contact_manager.select_loop fuel contacts).
Proof.
  induction fuel as [|fuel IH]; simpl.
  - apply (acts_raise _ talk_refl).
  - talk_go; exact IH.
Qed.

#[export] Hint Resolve talk_search_contacts talk_select_loop : talk_db.

Lemma talk_select_contact contacts : acts talk (contact_manager.select_contact contacts).
Proof.
  unfold contact_manager.select_contact. destruct contacts as [|c contacts]; [talk_go|].
  apply (acts_bind _ talk_trans); [talk_go|]. intros _.
  apply (acts_world talk (fun w => S (List.length (stdin w)))
           (fun fuel => contact_manager.select_loop fuel (c :: contacts))).
  intros fuel. apply talk_select_loop.
Qed.

Lemma talk_ask_new what field ref : acts talk (contact_manager.ask_new what field ref).
Proof. unfold contact_manager.ask_new. talk_go. Qed.

#[export] Hint Resolve talk_select_contact talk_ask_new : talk_db.

Lemma shows_print_task task : acts shows (todo_manager.print_task task).
Proof. unfold todo_manager.print_task. shows_go. Qed.

#[export] Hint Resolve shows_print_task : shows_db.

Lemma shows_list_tasks : acts shows todo_manager.list_tasks.
Proof. unfold todo_manager.list_tasks. shows_go. Qed.

Lemma shows_find_task task_id : acts shows (todo_manager.find_task task_id).
Proof. unfold todo_manager.find_task. shows_go. Qed.

#[export] Hint Resolve shows_list_tasks shows_find_task : shows_db.

End talk_lemmas.

(** ** Identifiers *)

Module id_lemmas.
Import record_store.

Lemma fold_left_max_ge (l : list Z) (x : Z) :
  x <= fold_left Z.max l x /\ Forall (fun n => n <= fold_left Z.max l x) l.
Proof.
  revert x. induction l as [|y l IH]; intros x; simpl.
  - split; [lia | constructor].
  - destruct (IH (Z.max x y)) as [H1 H2]. split; [lia|].
    constructor; [lia | exact H2].
Qed.

Lemma fold_left_max_in (l : list Z) (x : Z) :
  fold_left Z.max l x = x \/ In (fold_left Z.max l x) l.
Proof.
  revert x. induction l as [|y l IH]; intros x; simpl; [now left|].
  destruct (IH (Z.max x y)) as [H|H]; [|now right; right].
  rewrite H. destruct (Z.max_spec x y) as [[_ ->]|[_ ->]]; auto.
Qed.

(** [max(l, default=0)] is the greatest element of a non-empty [l]. *)
Lemma max_default_spec (l : list Z) :
  l <> [] ->
  In (max_default l 0) l /\ Forall (fun n => n <= max_default l 0) l.
Proof.
  destruct l as [|x l]; [congruence|]. intros _. simpl.
  destruct (fold_left_max_ge l x) as [H1 H2]. split.
  - destruct (fold_left_max_in l x) as [H|H]; [left; now rewrite H | now right].
  - constructor; assumption.
Qed.

Lemma generate_new_id_unfold (records : list py.dict) :
  generate_new_id records =
  match records with [] => 1 | _ => max_default (existing_ids records) 0 + 1 end.
Proof. reflexivity. Qed.

Lemma get_default_id (r : py.dict) (default : value) :
  py.get_default r "id" default =
  match spec.id_of r with Some v => v | None => default end.
Proof. reflexivity. Qed.



Lemma existing_ids_of (s : list py.dict) (ns : list Z) :
  spec.ids_of s ns -> existing_ids s = ns.
Proof.
  induction 1 as [|r s n ns Hid _ IH]; [reflexivity|].
  unfold existing_ids in *. unfold spec.has_id in Hid. simpl.
  rewrite get_default_id, Hid. simpl. rewrite get_default_id, Hid. simpl. now rewrite IH.
Qed.

(** In a store whose records all carry integer identifiers, the new
    identifier is the greatest of them plus one. *)
Lemma generate_new_id_max (s : list py.dict) (ns : list Z) :
  spec.ids_of s ns -> s <> [] ->
  exists m, In m ns /\ Forall (fun n => n <= m) ns /\ generate_new_id s = m + 1.
Proof.
  intros Hids Hne. rewrite generate_new_id_unfold, (existing_ids_of _ _ Hids).
  destruct s as [|r s]; [congruence|].
  destruct (max_default_spec ns) as [H1 H2].
  - inversion Hids; congruence.
  - exists (max_default ns 0). auto.
Qed.

Lemma ids_of_app (s1 s2 : list py.dict) (ns1 ns2 : list Z) :
  spec.ids_of s1 ns1 -> spec.ids_of s2 ns2 -> spec.ids_of (s1 ++ s2) (ns1 ++ ns2).
Proof. induction 1; simpl; auto using spec.ids_cons. Qed.

Lemma ids_of_split (s1 s2 : list py.dict) (ns : list Z) :
  spec.ids_of (s1 ++ s2) ns ->
  exists ns1 ns2, ns = (ns1 ++ ns2)%list /\ spec.ids_of s1 ns1 /\ spec.ids_of s2 ns2.
Proof.
  revert ns. induction s1 as [|r s1 IH]; intros ns H; simpl in H.
  - exists [], ns. repeat split; [constructor | exact H].
  - inversion H as [|? ? n ns' Hid Hrest]; subst.
    destruct (IH _ Hrest) as (ns1 & ns2 & -> & H1 & H2).
    exists (n :: ns1), ns2. repeat split; [constructor|]; assumption.
Qed.

Lemma ids_of_congr (s s' : list py.dict) (ns : list Z) :
  map spec.id_of s' = map spec.id_of s -> spec.ids_of s ns -> spec.ids_of s' ns.
Proof.
  intros Hmap Hids. revert s' Hmap.
  induction Hids as [|r s n ns Hid _ IH]; intros [|r' s'] Hmap; simpl in Hmap;
    try discriminate; [constructor|].
  injection Hmap as Hr Hs. constructor; [unfold spec.has_id in *; congruence | auto].
Qed.

Lemma sorted_app_last (ns : list Z) (m : Z) :
  StronglySorted Z.lt ns -> Forall (fun n => n < m) ns ->
  StronglySorted Z.lt (ns ++ [m]).
Proof.
  induction 1 as [|n ns Hs IH Hn]; intros Hm; simpl.
  - repeat constructor.
  - inversion Hm; subst. constructor; [auto|].
    apply Forall_app. split; [exact Hn | repeat constructor; assumption].
Qed.

Lemma sorted_app_drop (ns1 ns2 : list Z) (n : Z) :
  StronglySorted Z.lt (ns1 ++ n :: ns2) -> StronglySorted Z.lt (ns1 ++ ns2).
Proof.
  induction ns1 as [|m ns1 IH]; simpl; intros H; inversion H; subst; [assumption|].
  constructor; [auto|].
  rewrite Forall_app in *. destruct H3 as [Ha Hb]. inversion Hb; subst. auto.
Qed.

End id_lemmas.

(** ** Stores *)

Module store_lemmas.
Import id_lemmas.

Lemma length_update_nth {A} (i : nat) (f : A -> A) (l : list A) :
  List.length (update_nth i f l) = List.length l.
Proof.
  revert i. induction l as [|x l IH]; intros [|i]; simpl; auto.
Qed.

Lemma map_update_nth {A B} (g : A -> B) (i : nat) (f : A -> A) (l : list A) :
  (forall x, g (f x) = g x) -> map g (update_nth i f l) = map g l.
Proof.
  intros H. revert i. induction l as [|x l IH]; intros [|i]; simpl; auto.
  - now rewrite H.
  - now rewrite IH.
Qed.

Lemma Forall_update_nth {A} (P : A -> Prop) (i : nat) (f : A -> A) (l : list A) :
  (forall x, P x -> P (f x)) -> Forall P l -> Forall P (update_nth i f l).
Proof.
  intros H Hl. revert i. induction Hl as [|x l Hx Hl IH]; intros [|i]; simpl;
    constructor; auto.
Qed.

Lemma nth_update_nth_same {A} (i : nat) (f : A -> A) (l : list A) (d : A) :
  (i < List.length l)%nat -> nth i (update_nth i f l) d = f (nth i l d).
Proof.
  revert i. induction l as [|x l IH]; intros [|i] H; simpl in *; try lia; auto.
  apply IH. lia.
Qed.

Lemma nth_update_nth_other {A} (i j : nat) (f : A -> A) (l : list A) (d : A) :
  i <> j -> nth j (update_nth i f l) d = nth j l d.
Proof.
  revert i j. induction l as [|x l IH]; intros [|i] [|j] H; simpl; auto; try congruence.
Qed.

Lemma update_nth_id {A} (i : nat) (f : A -> A) (l : list A) (d : A) :
  f (nth i l d) = nth i l d -> update_nth i f l = l.
Proof.
  revert i. induction l as [|x l IH]; intros [|i] H; simpl in *; auto; f_equal; auto.
Qed.

Lemma update_nth_ext_at {A} (i : nat) (f g : A -> A) (l : list A) (d : A) :
  f (nth i l d) = g (nth i l d) -> update_nth i f l = update_nth i g l.
Proof.
  revert i. induction l as [|x l IH]; intros [|i] H; simpl in *; auto; f_equal; auto.
Qed.

Lemma update_nth_beyond {A} (i : nat) (f : A -> A) (l : list A) :
  (List.length l <= i)%nat -> update_nth i f l = l.
Proof.
  revert i. induction l as [|x l IH]; intros [|i] H; simpl in *; auto; try lia.
  f_equal. apply IH. lia.
Qed.

Lemma update_nth_twice {A} (i : nat) (f g : A -> A) (l : list A) :
  update_nth i g (update_nth i f l) = update_nth i (fun x => g (f x)) l.
Proof.
  revert i. induction l as [|x l IH]; intros [|i]; simpl; auto. now rewrite IH.
Qed.

Lemma keys_setitem_exists (d : py.dict) (k k0 : key) (v : value) :
  existsb (py.key_eqb k0) (map fst (py.setitem d k v))
  = existsb (py.key_eqb k0) (map fst d) || py.key_eqb k0 k.
Proof.
  induction d as [|[k' v'] d IH]; simpl.
  - now rewrite orb_false_r.
  - destruct (py.key_eqb k' k) eqn:E; simpl.
    + destruct (py.key_eqb k0 k) eqn:E0; [|now rewrite orb_false_r].
      rewrite key_eqb_sym in E.
      now rewrite (key_eqb_trans _ _ _ E0 E), !orb_true_l.
    + now rewrite IH, orb_assoc.
Qed.

Lemma record_setitem (r : py.dict) (k : string) (v : value) :
  spec.record r -> spec.json_like v = true -> spec.record (py.setitem r (KStr k) v).
Proof.
  unfold spec.record. simpl. intros Hr Hv.
  apply andb_prop in Hr as [Hall Hnd]. apply andb_true_intro.
  induction r as [|[k' v'] r IH]; simpl in *.
  - now rewrite Hv.
  - apply andb_prop in Hall as [Hk Hall]. apply andb_prop in Hnd as [Hk' Hnd].
    apply andb_prop in Hk as [Hk1 Hk2].
    destruct (IH Hall Hnd) as [IH1 IH2].
    destruct (py.key_eqb k' (KStr k)) eqn:E; simpl.
    + now rewrite Hk1, Hv, Hall, Hk', Hnd.
    + rewrite Hk1, Hk2, IH1, IH2, keys_setitem_exists, E, orb_false_r, Hk'. auto.
Qed.

Lemma id_of_setitem (r : py.dict) (k : string) (v : value) :
  String.eqb k "id" = false -> spec.id_of (py.setitem r (KStr k) v) = spec.id_of r.
Proof. intros H. unfold spec.id_of. now apply get_setitem_other. Qed.

Lemma good_store_update (s : list py.dict) (i : nat) (k : string) (v : value) :
  String.eqb k "id" = false -> spec.json_like v = true ->
  spec.good_store s ->
  spec.good_store (update_nth i (fun d => py.setitem d (KStr k) v) s).
Proof.
  intros Hk Hv (Hrec & ns & Hids & Hsorted & Hpos). split.
  - apply Forall_update_nth; [|exact Hrec]. intros r Hr. now apply record_setitem.
  - exists ns. repeat split; auto.
    eapply ids_of_congr; [|exact Hids].
    apply map_update_nth. intros r. now apply id_of_setitem.
Qed.

Lemma generate_new_id_pos (s : list py.dict) (ns : list Z) :
  spec.ids_of s ns -> Forall (fun n => 1 <= n) ns -> 1 <= record_store.generate_new_id s.
Proof.
  intros Hids Hpos. destruct s as [|r s]; [simpl; lia|].
  destruct (generate_new_id_max (r :: s) ns Hids) as (m & Hm & _ & ->); [congruence|].
  rewrite Forall_forall in Hpos. specialize (Hpos _ Hm). lia.
Qed.

Lemma good_store_append (s : list py.dict) (r : py.dict) :
  spec.good_store s -> spec.record r ->
  spec.has_id r (record_store.generate_new_id s) ->
  spec.good_store (s ++ [r]).
Proof.
  intros (Hrec & ns & Hids & Hsorted & Hpos) Hr Hid. split.
  - apply Forall_app. split; [exact Hrec | now constructor].
  - exists (ns ++ [record_store.generate_new_id s])%list. repeat split.
    + apply ids_of_app; [exact Hids | repeat constructor; exact Hid].
    + apply sorted_app_last; [exact Hsorted|].
      apply Forall_forall. intros n Hn.
      destruct s as [|r0 s0]; [inversion Hids; subst; destruct Hn|].
      destruct (generate_new_id_max (r0 :: s0) ns Hids) as (m & _ & Hmax & ->);
        [congruence|].
      rewrite Forall_forall in Hmax. specialize (Hmax _ Hn). lia.
    + apply Forall_app. split; [exact Hpos|]. repeat constructor.
      eapply generate_new_id_pos; eauto.
Qed.

Lemma remove_from_split (j i : nat) (x : py.dict) (l : list py.dict) :
  py.remove_from j i x l = l
  \/ exists l1 y l2, l = (l1 ++ y :: l2)%list /\ py.remove_from j i x l = (l1 ++ l2)%list.
Proof.
  revert j. induction l as [|y l IH]; intros j; cbn [py.remove_from]; [now left|].
  destruct ((j =? i)%nat || py.eqb (VDict y) (VDict x)).
  - right. exists [], y, l. split; reflexivity.
  - destruct (IH (S j)) as [->|(l1 & z & l2 & -> & ->)]; [now left|].
    right. exists (y :: l1), z, l2. split; reflexivity.
Qed.

(** [remove] takes one element out, or none. *)
Lemma remove_split (l : list py.dict) (i : nat) :
  py.remove l i = l
  \/ exists l1 y l2, l = (l1 ++ y :: l2)%list /\ py.remove l i = (l1 ++ l2)%list.
Proof.
  unfold py.remove. destruct (nth_error l i); [apply remove_from_split | now left].
Qed.

Lemma good_store_drop (s1 s2 : list py.dict) (r : py.dict) :
  spec.good_store (s1 ++ r :: s2) -> spec.good_store (s1 ++ s2).
Proof.
  intros (Hrec & ns & Hids & Hsorted & Hpos). split.
  - rewrite Forall_app in *. destruct Hrec as [H1 H2]. inversion H2; subst. auto.
  - destruct (ids_of_split _ _ _ Hids) as (ns1 & ns2' & -> & H1 & H2).
    inversion H2 as [|? ? n ns2 Hid Hrest]; subst.
    exists (ns1 ++ ns2)%list. repeat split.
    + now apply ids_of_app.
    + eapply sorted_app_drop; eauto.
    + rewrite Forall_app in *. destruct Hpos as [Ha Hb]. inversion Hb; subst. auto.
Qed.

Lemma good_store_remove (s : list py.dict) (i : nat) :
  spec.good_store s -> spec.good_store (py.remove s i).
Proof.
  intros H. destruct (remove_split s i) as [->|(l1 & y & l2 & -> & ->)]; [exact H|].
  eapply good_store_drop; eauto.
Qed.

Lemma good_store_nil : spec.good_store [].
Proof. split; [constructor|]. exists []. repeat constructor. Qed.

End store_lemmas.

(** ** What each operation does to the store and to the file *)

Module effect_lemmas.
Import frame frame_rules frame_tactics talk_lemmas id_lemmas store_lemmas.

(** Saving leaves the store alone; the file is as before, cut short
    (between two characters or inside one), or holds the records
    given. *)
Lemma save_records_effect (noun : string) (records : list py.dict) (w : world) :
  let w' := snd (record_store.save_records noun records w) in
  store w' = store w /\ stdin w' = stdin w
  /\ (disk w' = disk w \/ disk w' = Garbled \/ disk w' = Undecodable
      \/ disk w' = Holds (json.dump (VList (map VDict records)))).
Proof.
  destruct w as [s i o d fs].
  unfold record_store.save_records, try_except, write_json.
  destruct fs as [|[[msg|msg|msg]|] fs]; cbn; try destruct (existsb _ _); auto 8.
Qed.

Lemma same_ids_save noun records : acts same_ids (record_store.save_records noun records).
Proof.
  intros w. destruct (save_records_effect noun records w) as (H & _).
  unfold same_ids. now rewrite H.
Qed.

Lemma same_ids_setitem_at (i : nat) (k : string) (v : value) :
  String.eqb k "id" = false -> acts same_ids (setitem_at i (KStr k) v).
Proof.
  intros Hk w. unfold same_ids, setitem_at. cbn.
  apply map_update_nth. intros r. now apply id_of_setitem.
Qed.

Create HintDb ids_db.
#[export] Hint Resolve same_ids_save same_ids_setitem_at : ids_db.

Lemma acts_talk_ids {A} (m : M A) : acts talk m -> acts same_ids m.
Proof. intros H w. apply same_ids_talk, H. Qed.

Ltac ids_leaf :=
  first [ solve [unfold contact_manager.save_contacts, todo_manager.save_tasks;
                 auto with ids_db]
        | apply acts_talk_ids; talk_leaf ].

Ltac ids_go :=
  repeat first [ ids_leaf | acts_structure same_ids_refl same_ids_trans ].

Lemma same_ids_update_contact : acts same_ids contact_manager.update_contact.
Proof. unfold contact_manager.update_contact. ids_go. Qed.

Lemma same_ids_toggle_completion : acts same_ids todo_manager.toggle_completion.
Proof. unfold todo_manager.toggle_completion. ids_go. Qed.

Lemma same_ids_update_task strptime_ok : acts same_ids (todo_manager.update_task strptime_ok).
Proof. unfold todo_manager.update_task. ids_go. Qed.

(** Keeping the invariant *)

Lemma good_disk_after_save (noun : string) (w : world) :
  spec.invariant w ->
  spec.invariant (snd (record_store.save_records noun (store w) w)).
Proof.
  intros [Hs Hd]. destruct (save_records_effect noun (store w) w) as (H1 & _ & H2).
  unfold spec.invariant. rewrite H1. split; [exact Hs|].
  destruct H2 as [-> | [-> | [-> | ->]]];
    [exact Hd | right; now left | right; right; now left |].
  right; right; right. now exists (store w).
Qed.

Lemma keeps_save (noun : string) (text : list piece) (w : world) :
  keeps w (snd ((bind get_store (fun c =>
             bind (record_store.save_records noun c) (fun _ => print text))) w)).
Proof.
  intros Hinv. unfold bind at 1. unfold get_store at 1.
  pose proof (good_disk_after_save noun w Hinv) as H.
  unfold bind. destruct (record_store.save_records noun (store w) w) as [[[]|e] w1];
    simpl in *; auto.
Qed.

Lemma keeps_setitem_at (i : nat) (k : string) (v : value) :
  String.eqb k "id" = false -> spec.json_like v = true ->
  acts keeps (setitem_at i (KStr k) v).
Proof.
  intros Hk Hv w [Hs Hd]. split; simpl; [|exact Hd].
  now apply good_store_update.
Qed.

Create HintDb keeps_db.
#[export] Hint Resolve keeps_setitem_at : keeps_db.

Lemma acts_talk_keeps {A} (m : M A) : acts talk m -> acts keeps m.
Proof. intros H w. apply keeps_talk, H. Qed.

Ltac keeps_leaf :=
  first [ solve [auto with keeps_db]
        | apply acts_get_store; intros ?w; cbv zeta;
          solve [ apply keeps_save ]
        | apply acts_talk_keeps; talk_leaf ].

Ltac keeps_go :=
  repeat first [ keeps_leaf | acts_structure keeps_refl keeps_trans ].

Lemma keeps_update_contact : acts keeps contact_manager.update_contact.
Proof.
  unfold contact_manager.update_contact, contact_manager.save_contacts. keeps_go.
Qed.

Lemma keeps_toggle_completion : acts keeps todo_manager.toggle_completion.
Proof.
  unfold todo_manager.toggle_completion, todo_manager.save_tasks. keeps_go.
Qed.

Lemma keeps_update_task strptime_ok : acts keeps (todo_manager.update_task strptime_ok).
Proof.
  unfold todo_manager.update_task, todo_manager.save_tasks. keeps_go.
Qed.

End effect_lemmas.

Module round_lemmas.
Import frame frame_rules frame_tactics talk_lemmas id_lemmas store_lemmas effect_lemmas.

Section after_talk.

Variable R : world -> world -> Prop.
Hypothesis R_refl : forall w, R w w.
Hypothesis R_after : forall w1 w2 w3, talk w1 w2 -> R w2 w3 -> R w1 w3.

Lemma acts_only_talk {A} (m : M A) : acts talk m -> acts R m.
Proof. intros H w. eapply R_after; [apply H | apply R_refl]. Qed.

Lemma acts_bind_talk {A B} (m : M A) (k : A -> M B) :
  acts talk m -> (forall a, acts R (k a)) -> acts R (bind m k).
Proof.
  intros Hm Hk w. unfold bind. specialize (Hm w).
  destruct (m w) as [[a|e] w1]; simpl in *.
  - eapply R_after; [exact Hm | apply Hk].
  - eapply R_after; [exact Hm | apply R_refl].
Qed.

End after_talk.

(** The step that changes the store, with the save and the message
    that follow it: the store becomes [f] of what it was, and the file
    is as before, cut short, or holds the new store. *)
Lemma acts_commit (R : world -> world -> Prop) (f : list py.dict -> list py.dict)
    (noun : string) (text : list piece) :
  (forall w w',
      store w' = f (store w) ->
      (disk w' = disk w \/ disk w' = Garbled \/ disk w' = Undecodable
       \/ disk w' = Holds (json.dump (VList (map VDict (store w'))))) ->
      R w w') ->
  acts R (bind get_store (fun c => bind (set_store (f c)) (fun _ => bind get_store (fun c =>
            bind (record_store.save_records noun c) (fun _ => print text))))).
Proof.
  intros HR w. apply HR; destruct w as [s i o d fs];
    unfold bind, set_store, get_store, record_store.save_records, try_except, write_json, print;
    destruct fs as [|[[msg|msg|msg]|] fs]; cbn; try destruct (existsb _ _); auto 8.
Qed.

Ltac after_talk_go R_refl R_after :=
  repeat first
    [ cbv zeta; apply acts_commit; intros ?w ?w' ?Hstore ?Hdisk
    | apply (acts_only_talk _ R_refl R_after); talk_leaf
    | apply (acts_only_talk _ R_refl R_after); solve [talk_go]
    | apply (acts_bind_talk _ R_refl R_after); [talk_leaf | intro]
    | apply (acts_bind_talk _ R_refl R_after); [solve [talk_go] | intro]
    | match goal with
      | |- acts _ (match ?x with _ => _ end) => destruct x
      | |- acts _ (let _ := _ in _) => cbv zeta
      end ].

Lemma appends_refl w : effect.appends w w.
Proof. now left. Qed.

Lemma appends_after w1 w2 w3 : talk w1 w2 -> effect.appends w2 w3 -> effect.appends w1 w3.
Proof. unfold effect.appends. intros (-> & _). auto. Qed.

Lemma removes_refl w : effect.removes w w.
Proof. now left. Qed.

Lemma removes_after w1 w2 w3 : talk w1 w2 -> effect.removes w2 w3 -> effect.removes w1 w3.
Proof. unfold effect.removes. intros (-> & _). auto. Qed.

Lemma round_refl w : effect.round w w.
Proof. left. apply appends_refl. Qed.

Lemma round_after w1 w2 w3 : talk w1 w2 -> effect.round w2 w3 -> effect.round w1 w3.
Proof.
  intros Ht [H|[H|H]].
  - left. eauto using appends_after.
  - right; left. eapply same_ids_trans; [apply same_ids_talk|]; eauto.
  - right; right. eauto using removes_after.
Qed.

Lemma appends_add_contact : acts effect.appends contact_manager.add_contact.
Proof.
  unfold contact_manager.add_contact, contact_manager.save_contacts.
  after_talk_go appends_refl appends_after.
  match goal with H : store _ = _ |- _ =>
    right; eexists; split; [exact H | unfold spec.has_id, spec.id_of; reflexivity]
  end.
Qed.

Lemma appends_add_task strptime_ok : acts effect.appends (todo_manager.add_task strptime_ok).
Proof.
  unfold todo_manager.add_task, todo_manager.save_tasks.
  after_talk_go appends_refl appends_after.
  match goal with H : store _ = _ |- _ =>
    right; eexists; split; [exact H | unfold spec.has_id, spec.id_of; reflexivity]
  end.
Qed.

Lemma removes_remove (w w' : world) (i : nat) :
  store w' = py.remove (store w) i -> effect.removes w w'.
Proof.
  intros H. unfold effect.removes. rewrite H.
  destruct (remove_split (store w) i) as [E|E]; [now left | now right].
Qed.

Lemma removes_delete_contact : acts effect.removes contact_manager.delete_contact.
Proof.
  unfold contact_manager.delete_contact, contact_manager.save_contacts.
  after_talk_go removes_refl removes_after.
  match goal with H : store _ = _ |- _ => eapply removes_remove; exact H end.
Qed.

Lemma removes_delete_task : acts effect.removes todo_manager.delete_task.
Proof.
  unfold todo_manager.delete_task, todo_manager.save_tasks.
  after_talk_go removes_refl removes_after.
  match goal with H : store _ = _ |- _ => eapply removes_remove; exact H end.
Qed.

End round_lemmas.

(** ** Rounds of the menus *)

Module menu_lemmas.
Import frame frame_rules frame_tactics talk_lemmas id_lemmas store_lemmas effect_lemmas
  round_lemmas.

Lemma keeps_after w1 w2 w3 : talk w1 w2 -> keeps w2 w3 -> keeps w1 w3.
Proof. intros Ht Hk. eapply keeps_trans; [apply keeps_talk|]; eauto. Qed.

Lemma keeps_committed (w w' : world) :
  (spec.good_store (store w) -> spec.good_store (store w')) ->
  (disk w' = disk w \/ disk w' = Garbled \/ disk w' = Undecodable
   \/ disk w' = Holds (json.dump (VList (map VDict (store w'))))) ->
  keeps w w'.
Proof.
  intros Hstore Hdisk [Hs Hd]. split; [auto|].
  destruct Hdisk as [-> | [-> | [-> | ->]]];
    [exact Hd | right; now left | right; right; now left |].
  right; right; right. exists (store w'). auto.
Qed.

Ltac keeps_append :=
  match goal with
  | Hs : store ?w' = _, Hd : disk ?w' = _ \/ _ |- keeps _ ?w' =>
      apply keeps_committed; [|exact Hd];
      rewrite Hs; intros ?Hgood; apply good_store_append;
      [assumption | reflexivity | unfold spec.has_id, spec.id_of; reflexivity]
  end.

Ltac keeps_remove :=
  match goal with
  | Hs : store ?w' = _, Hd : disk ?w' = _ \/ _ |- keeps _ ?w' =>
      apply keeps_committed; [|exact Hd];
      rewrite Hs; intros ?Hgood; apply good_store_remove; assumption
  end.

Lemma keeps_add_contact : acts keeps contact_manager.add_contact.
Proof.
  unfold contact_manager.add_contact, contact_manager.save_contacts.
  after_talk_go keeps_refl keeps_after. keeps_append.
Qed.

Lemma keeps_add_task strptime_ok : acts keeps (todo_manager.add_task strptime_ok).
Proof.
  unfold todo_manager.add_task, todo_manager.save_tasks.
  after_talk_go keeps_refl keeps_after. keeps_append.
Qed.

Lemma keeps_delete_contact : acts keeps contact_manager.delete_contact.
Proof.
  unfold contact_manager.delete_contact, contact_manager.save_contacts.
  after_talk_go keeps_refl keeps_after. keeps_remove.
Qed.

Lemma keeps_delete_task : acts keeps todo_manager.delete_task.
Proof.
  unfold todo_manager.delete_task, todo_manager.save_tasks.
  after_talk_go keeps_refl keeps_after. keeps_remove.
Qed.

Ltac by_choice :=
  repeat match goal with
         | |- context [String.eqb ?a ?b] => destruct (String.eqb a b)
         end.

Lemma keeps_contacts_round : acts keeps contact_manager.menu_round.
Proof.
  unfold contact_manager.menu_round.
  repeat (apply (acts_bind_talk _ keeps_refl keeps_after); [talk_leaf | intro]).
  unfold contact_manager.options. by_choice;
    auto using keeps_add_contact, keeps_update_contact, keeps_delete_contact;
    apply acts_talk_keeps; talk_go.
Qed.

Lemma keeps_tasks_round strptime_ok : acts keeps (todo_manager.menu_round strptime_ok).
Proof.
  unfold todo_manager.menu_round.
  repeat (apply (acts_bind_talk _ keeps_refl keeps_after); [talk_leaf | intro]).
  unfold todo_manager.actions. by_choice;
    auto using keeps_add_task, keeps_update_task, keeps_toggle_completion, keeps_delete_task;
    apply acts_talk_keeps; talk_go.
Qed.

Lemma acts_weaken (R1 R2 : world -> world -> Prop) {A} (m : M A) :
  (forall w w', R1 w w' -> R2 w w') -> acts R1 m -> acts R2 m.
Proof. intros H Hm w. apply H, Hm. Qed.

Lemma round_of_appends {A} (m : M A) : acts effect.appends m -> acts effect.round m.
Proof. apply acts_weaken. intros w w' H. now left. Qed.

Lemma round_of_same_ids {A} (m : M A) : acts same_ids m -> acts effect.round m.
Proof. apply acts_weaken. intros w w' H. right; now left. Qed.

Lemma round_of_removes {A} (m : M A) : acts effect.removes m -> acts effect.round m.
Proof. apply acts_weaken. intros w w' H. right; now right. Qed.

Lemma round_of_talk {A} (m : M A) : acts talk m -> acts effect.round m.
Proof. intros H. apply round_of_same_ids, acts_talk_ids, H. Qed.

(** One round of the contact menu adds a record under the new
    identifier, or keeps the identifiers as they are, or takes a
    record out. *)
Lemma contacts_round_effect : acts effect.round contact_manager.menu_round.
Proof.
  unfold contact_manager.menu_round.
  repeat (apply (acts_bind_talk _ round_refl round_after); [talk_leaf | intro]).
  unfold contact_manager.options. by_choice;
    first [ apply round_of_appends, appends_add_contact
          | apply round_of_same_ids, same_ids_update_contact
          | apply round_of_removes, removes_delete_contact
          | apply round_of_talk; talk_go ].
Qed.

Lemma tasks_round_effect strptime_ok : acts effect.round (todo_manager.menu_round strptime_ok).
Proof.
  unfold todo_manager.menu_round.
  repeat (apply (acts_bind_talk _ round_refl round_after); [talk_leaf | intro]).
  unfold todo_manager.actions. by_choice;
    first [ apply round_of_appends, appends_add_task
          | apply round_of_same_ids, same_ids_update_task
          | apply round_of_same_ids, same_ids_toggle_completion
          | apply round_of_removes, removes_delete_task
          | apply round_of_talk; talk_go ].
Qed.

Lemma file_eq_undecodable (d : file) : d = Undecodable \/ d <> Undecodable.
Proof. destruct d; solve [now left | right; discriminate]. Qed.

(** A file that was cut inside a character cannot be read. *)
Lemma load_undecodable (w : world) :
  disk w = Undecodable ->
  record_store.load_records w = (Raise UnicodeDecodeError, w).
Proof.
  destruct w as [s i o d fs]. cbn [disk]. intros ->. reflexivity.
Qed.

(** A session starts with a good store when the file is good and was
    not cut inside a character. *)
Lemma load_good_disk (w : world) :
  spec.good_disk (disk w) -> disk w <> Undecodable ->
  exists s, record_store.load_records w = (Ok s, w) /\ spec.good_store s.
Proof.
  intros [Hd | [Hd | [Hd | (s & Hs & Hd)]]] Hcut.
  - exists []. split; [|apply good_store_nil].
    apply load_records_fallback. now rewrite Hd.
  - exists []. split; [|apply good_store_nil].
    apply load_records_fallback. now rewrite Hd.
  - contradiction.
  - exists s. split; [|exact Hs]. destruct w as [s0 i o d fs]. simpl in Hd. subst d.
    unfold record_store.load_records, try_except, bind, path_exists, read_json, lift, ret.
    cbn [disk negb json.dump json.load].
    destruct Hs as [Hrec _]. now rewrite (load_dump_records _ Hrec), map_result_dict_of.
Qed.

Lemma start_invariant (w0 w1 : world) :
  spec.good_disk (disk w0) ->
  bind record_store.load_records set_store w0 = (Ok tt, w1) ->
  spec.invariant w1.
Proof.
  intros Hd0. unfold bind.
  destruct (file_eq_undecodable (disk w0)) as [Hcut | Hcut].
  { rewrite (load_undecodable w0 Hcut). discriminate. }
  destruct (load_good_disk w0 Hd0 Hcut) as (s & -> & Hs). unfold set_store.
  intros E. injection E as <-. split; simpl; assumption.
Qed.

Lemma session_invariant (start : M unit) (d : file) lines fs (w : world) :
  start = contact_manager.main_menu_start \/ start = todo_manager.main_menu_start ->
  spec.good_disk d ->
  spec.session start d lines fs = (Ok tt, w) -> spec.invariant w.
Proof.
  intros Hstart Hd. unfold spec.session.
  destruct Hstart as [-> | ->]; intros E; eapply start_invariant; try exact E; exact Hd.
Qed.

Lemma contacts_invariant (w : world) : contacts_reachable w -> spec.invariant w.
Proof.
  induction 1 as [lines fs w H | w w' _ IH Hstep].
  - eapply session_invariant; [now left | | exact H]. now left.
  - destruct Hstep as [w | w lines fs w' H].
    + now apply keeps_contacts_round.
    + eapply session_invariant; [now left | | exact H]. apply IH.
Qed.

Lemma tasks_invariant strptime_ok (w : world) :
  tasks_reachable strptime_ok w -> spec.invariant w.
Proof.
  induction 1 as [lines fs w H | w w' _ IH Hstep].
  - eapply session_invariant; [now right | | exact H]. now left.
  - destruct Hstep as [w | w lines fs w' H].
    + now apply keeps_tasks_round.
    + eapply session_invariant; [now right | | exact H]. apply IH.
Qed.

End menu_lemmas.

(** ** Identifiers of new records *)

Module new_id_lemmas.
Import frame frame_rules id_lemmas store_lemmas round_lemmas menu_lemmas.

Lemma new_id_rule_good (s : list py.dict) :
  spec.good_store s -> identifiers.new_id_rule s (record_store.generate_new_id s).
Proof.
  intros (_ & ns & Hids & _ & _). exists ns. split; [exact Hids|]. split; [|split].
  - now intros ->.
  - intros Hne. now apply generate_new_id_max.
  - apply Forall_forall. intros k Hk E.
    destruct s as [|r s]; [inversion Hids; subst; destruct Hk|].
    destruct (generate_new_id_max (r :: s) ns Hids) as (m & _ & Hmax & Hm); [congruence|].
    rewrite Forall_forall in Hmax. specialize (Hmax _ Hk). lia.
Qed.


Lemma creates_by_rule_of_appends (add : M unit) (w : world) :
  acts effect.appends add -> spec.good_store (store w) -> identifiers.creates_by_rule add w.
Proof.
  intros Hadd Hgood. split; [now apply new_id_rule_good|].
  destruct (Hadd w) as [H | (r & Hr & Hid)]; [now left|].
  right. now exists r.
Qed.

End new_id_lemmas.

(** C1, as far as the programs go.  In every reachable world of the
    contact manager and of the to-do manager, a create operation that
    adds a record gives it the greatest identifier in the store plus
    one, and 1 when the store is empty; no record in the store has this
    identifier. *)
Theorem new_id_is_max_plus_one :
  (forall w, contacts_reachable w ->
             identifiers.creates_by_rule contact_manager.add_contact w)
  /\ (forall strptime_ok w, tasks_reachable strptime_ok w ->
             identifiers.creates_by_rule (todo_manager.add_task strptime_ok) w).
Proof.
  split.
  - intros w Hw. apply new_id_lemmas.creates_by_rule_of_appends.
    + apply round_lemmas.appends_add_contact.
    + apply (menu_lemmas.contacts_invariant w Hw).
  - intros strptime_ok w Hw. apply new_id_lemmas.creates_by_rule_of_appends.
    + apply round_lemmas.appends_add_task.
    + apply (menu_lemmas.tasks_invariant strptime_ok w Hw).
Qed.

(** C1 in the to-do manager after two tasks were added in the first
    session: the third task gets the identifier 3. *)
Lemma new_id_is_max_plus_one_witness :
  let strptime_ok := fun _ : string => true in
  let round := todo_manager.menu_round strptime_ok in
  let w0 := mkWorld [] ["1"; "a"; ""; ""; "1"; "b"; ""; ""; "c"; ""; ""] [] Absent [] in
  let w2 := snd (round (snd (round w0))) in
  todo_manager.generate_new_id (store w2) = 3
  /\ identifiers.creates_by_rule (todo_manager.add_task strptime_ok) w2.
Proof.
  intros strptime_ok round w0 w2. split; [reflexivity|].
  apply (proj2 new_id_is_max_plus_one strptime_ok).
  apply spec.reach_step with (w := snd (round w0)); [|apply spec.step_round].
  apply spec.reach_step with (w := w0); [|apply spec.step_round].
  apply spec.reach_first with (lines := stdin w0) (fs := []). reflexivity.
Defined.

(** C1, the part that fails: an identifier comes back.  In the first
    session of the to-do manager two tasks are added, with the
    identifiers 1 and 2; the task 2 is deleted; the task added next
    gets the identifier 2 again. *)
Lemma id_reused_after_delete :
  let strptime_ok := fun _ : string => true in
  let round := todo_manager.menu_round strptime_ok in
  let w0 := mkWorld [] ["1"; "a"; ""; ""; "1"; "b"; ""; "";
                        "5"; "2"; "y"; "1"; "c"; ""; ""] [] Absent [] in
  let w2 := snd (round (snd (round w0))) in
  let w3 := snd (round w2) in
  let w4 := snd (round w3) in
  tasks_reachable strptime_ok w4
  /\ map spec.id_of (store w2) = [Some (VInt 1); Some (VInt 2)]
  /\ map spec.id_of (store w3) = [Some (VInt 1)]
  /\ store w4 = (store w3 ++
       [[(KStr "id", VInt 2); (KStr "description", VStr "c"); (KStr "completed", VBool false);
         (KStr "due_date", VStr ""); (KStr "notes", VStr "")]])%list.
Proof.
  intros strptime_ok round w0 w2 w3 w4. split; [|repeat split; reflexivity].
  apply spec.reach_step with (w := w3); [|apply spec.step_round].
  apply spec.reach_step with (w := w2); [|apply spec.step_round].
  apply spec.reach_step with (w := snd (round w0)); [|apply spec.step_round].
  apply spec.reach_step with (w := w0); [|apply spec.step_round].
  apply spec.reach_first with (lines := stdin w0) (fs := []). reflexivity.
Qed.

(** ** Runs without deletions *)

Module creates_lemmas.
Import frame frame_rules id_lemmas store_lemmas round_lemmas menu_lemmas new_id_lemmas.

Lemma sorted_lt_nodup (ns : list Z) : StronglySorted Z.lt ns -> NoDup ns.
Proof.
  induction 1 as [|n ns _ IH Hn]; constructor; [|exact IH].
  intros Hin. rewrite Forall_forall in Hn. specialize (Hn _ Hin). lia.
Qed.


Section run.

Variable round : M unit.
Hypothesis round_effect : acts effect.round round.


End run.

End creates_lemmas.



(** ** Running the operations on given input *)

Module run_lemmas.

#[global] Arguments pystr.strip : simpl never.
#[global] Arguments pystr.lower : simpl never.
#[global] Arguments pystr.contains : simpl never.
#[global] Arguments pystr.int : simpl never.
#[global] Arguments pystr.str_isdigit : simpl never.
#[global] Arguments record_store.generate_new_id : simpl never.
#[global] Arguments String.append : simpl never.
#[global] Arguments json.dump : simpl never.

Lemma eqb_empty_false (s : string) : s <> "" -> String.eqb s "" = false.
Proof. intros H. now apply String.eqb_neq. Qed.

(** The end of every operation that changes the store: the store is
    saved and a message is shown. *)
Lemma save_and_print (noun : string) (text : list piece) (w : world) :
  let r := bind get_store (fun c =>
             bind (record_store.save_records noun c) (fun _ => print text)) w in
  fst r = Ok tt
  /\ store (snd r) = store w /\ stdin (snd r) = stdin w
  /\ last (stdout (snd r)) (Print []) = Print text
  /\ (disk (snd r) = disk w \/ disk (snd r) = Garbled \/ disk (snd r) = Undecodable
      \/ disk (snd r) = Holds (json.dump (VList (map VDict (store w)))))
  /\ (hd None (faults w) = None ->
      disk (snd r) = Holds (json.dump (VList (map VDict (store w))))).
Proof.
  destruct w as [s i o d fs].
  unfold bind, get_store, record_store.save_records, try_except, write_json, print, with_stdout.
  destruct fs as [|[[msg|msg|msg]|] fs]; cbn; rewrite ?last_last; repeat split; auto 8;
    try discriminate;
    match goal with |- context [if ?b then _ else _] => destruct b end; auto 8.
Qed.

(** The step that changes the store, run in a given world. *)
Lemma commit_run (noun : string) (f : list py.dict -> list py.dict) (text : list piece)
    (w : world) :
  let r := bind get_store (fun c => bind (set_store (f c)) (fun _ => bind get_store (fun c =>
             bind (record_store.save_records noun c) (fun _ => print text)))) w in
  fst r = Ok tt
  /\ store (snd r) = f (store w) /\ stdin (snd r) = stdin w
  /\ last (stdout (snd r)) (Print []) = Print text
  /\ (disk (snd r) = disk w \/ disk (snd r) = Garbled \/ disk (snd r) = Undecodable
      \/ disk (snd r) = Holds (json.dump (VList (map VDict (f (store w))))))
  /\ (hd None (faults w) = None ->
      disk (snd r) = Holds (json.dump (VList (map VDict (f (store w)))))).
Proof.
  destruct w as [s i o d fs].
  unfold bind, get_store, set_store, record_store.save_records, try_except, write_json,
    print, with_stdout.
  destruct fs as [|[[msg|msg|msg]|] fs]; cbn; rewrite ?last_last; repeat split; auto 8;
    try discriminate;
    match goal with |- context [if ?b then _ else _] => destruct b end; auto 8.
Qed.

End run_lemmas.

Module create_lemmas.
Import run_lemmas.

Lemma add_contact_run (w : world) (name phone email address : string) (rest : list string) :
  stdin w = name :: phone :: email :: address :: rest ->
  let r := contact_manager.add_contact w in
  (pystr.strip name = "" \/ pystr.strip phone = "" ->
   fst r = Ok tt /\ store (snd r) = store w /\ disk (snd r) = disk w)
  /\ (pystr.strip name <> "" -> pystr.strip phone <> "" ->
      fst r = Ok tt
      /\ store (snd r) =
         (store w ++
            [[(KStr "id", VInt (contact_manager.generate_new_id (store w)));
              (KStr "name", VStr (pystr.strip name));
              (KStr "phone", VStr (pystr.strip phone));
              (KStr "email", VStr (pystr.strip email));
              (KStr "address", VStr (pystr.strip address))]])%list
      /\ (hd None (faults w) = None ->
          disk (snd r) = Holds (json.dump (VList (map VDict (store (snd r))))))).
Proof.
  intros Hin r. subst r. destruct w as [s i o d fs]. simpl in Hin. subst i.
  unfold contact_manager.add_contact, contact_manager.save_contacts. cbn.
  destruct (String.eqb (pystr.strip name) "") eqn:En;
    [apply String.eqb_eq in En | apply String.eqb_neq in En];
    (destruct (String.eqb (pystr.strip phone) "") eqn:Ep;
     [apply String.eqb_eq in Ep | apply String.eqb_neq in Ep]);
    cbn [orb]; (split; [intros Hempty | intros Hn Hp]); try tauto;
    try (cbn; now repeat split).
  match goal with
  | |- context [bind get_store (fun c => bind (set_store (@?f c)) ?k) ?w1] =>
      destruct (commit_run "contacts" f [Lit ("Contact added successfully!" ++ nl)] w1)
        as (H1 & H2 & _ & _ & _ & H3)
  end.
  split; [exact H1|]. split; [exact H2|].
  intros Hf. rewrite H2. exact (H3 Hf).
Qed.

Lemma add_task_run strptime_ok (w : world) (description : string) (rest : list string) :
  stdin w = description :: rest ->
  let r := todo_manager.add_task strptime_ok w in
  (pystr.strip description = "" ->
   fst r = Ok tt /\ store (snd r) = store w /\ disk (snd r) = disk w)
  /\ (pystr.strip description <> "" ->
      forall due notes rest', rest = due :: notes :: rest' ->
      fst r = Ok tt
      /\ store (snd r) =
         (store w ++
            [[(KStr "id", VInt (todo_manager.generate_new_id (store w)));
              (KStr "description", VStr (pystr.strip description));
              (KStr "completed", VBool false);
              (KStr "due_date",
               VStr (if String.eqb (pystr.strip due) "" then ""
                     else if strptime_ok (pystr.strip due) then pystr.strip due else ""));
              (KStr "notes", VStr (pystr.strip notes))]])%list
      /\ (hd None (faults w) = None ->
          disk (snd r) = Holds (json.dump (VList (map VDict (store (snd r))))))).
Proof.
  intros Hin r. subst r. destruct w as [s i o d fs]. simpl in Hin. subst i.
  unfold todo_manager.add_task, todo_manager.save_tasks. cbn.
  destruct (String.eqb (pystr.strip description) "") eqn:En;
    [apply String.eqb_eq in En | apply String.eqb_neq in En];
    (split; [intros Hempty | intros Hn due notes rest' ->]); try tauto;
    try (cbn; now repeat split).
  cbn.
  destruct (String.eqb (pystr.strip due) ""); [|destruct (strptime_ok (pystr.strip due))];
    destruct fs as [|[[msg|msg|msg]|] fs]; cbn; repeat split; try reflexivity; discriminate.
Qed.

Lemma add_contact_changes (w : world) :
  let r := contact_manager.add_contact w in
  store (snd r) <> store w \/ disk (snd r) <> disk w ->
  exists name phone email address rest,
    stdin w = name :: phone :: email :: address :: rest
    /\ pystr.strip name <> "" /\ pystr.strip phone <> "".
Proof.
  intros r Hchange. subst r.
  destruct (stdin w) as [|name [|phone [|email [|address rest]]]] eqn:Hin;
    try (exfalso; destruct w as [s i o d fs]; simpl in Hin; subst i;
         unfold contact_manager.add_contact in Hchange; cbn in Hchange;
         destruct Hchange as [H|H]; apply H; reflexivity).
  exists name, phone, email, address, rest. split; [reflexivity|].
  destruct (add_contact_run w name phone email address rest Hin) as [Hblank _].
  destruct (String.eqb (pystr.strip name) "") eqn:En;
    [apply String.eqb_eq in En | apply String.eqb_neq in En];
    (destruct (String.eqb (pystr.strip phone) "") eqn:Ep;
     [apply String.eqb_eq in Ep | apply String.eqb_neq in Ep]);
    try (split; assumption);
    exfalso; (destruct Hblank as (_ & Hs & Hd); [tauto|]);
    destruct Hchange as [H|H]; contradiction.
Qed.

Lemma add_task_changes (strptime_ok : string -> bool) (w : world) :
  let r := todo_manager.add_task strptime_ok w in
  store (snd r) <> store w \/ disk (snd r) <> disk w ->
  exists description rest,
    stdin w = description :: rest /\ pystr.strip description <> "".
Proof.
  intros r Hchange. subst r.
  destruct (stdin w) as [|description rest] eqn:Hin.
  { exfalso. destruct w as [s i o d fs]. simpl in Hin. subst i.
    unfold todo_manager.add_task in Hchange. cbn in Hchange.
    destruct Hchange as [H|H]; apply H; reflexivity. }
  exists description, rest. split; [reflexivity|].
  destruct (add_task_run strptime_ok w description rest Hin) as [Hblank _].
  destruct (String.eqb (pystr.strip description) "") eqn:En;
    [apply String.eqb_eq in En | apply String.eqb_neq in En; exact En].
  exfalso. destruct (Hblank En) as (_ & Hs & Hd). destruct Hchange as [H|H]; contradiction.
Qed.

End create_lemmas.

(** C7.  Creating needs the required fields.  The contact manager
    reads name, phone, email and address; the to-do manager reads the
    description first.  A field counts as given when something is left
    of it after the surrounding whitespace is dropped.  When a required
    field (name or phone; description) is empty, no record is added,
    the store stays as it is and nothing is written to the file.  When
    the required fields are given, exactly one record with the fields
    as typed is put at the end of the store, under the new identifier,
    and the store is saved: if the write goes through, the file holds
    the store.  And only then: whenever the store or the file is not
    as before, the required fields were given. *)
Theorem create_needs_required_fields :
  (forall w name phone email address rest,
      stdin w = name :: phone :: email :: address :: rest ->
      let r := contact_manager.add_contact w in
      (pystr.strip name = "" \/ pystr.strip phone = "" ->
       fst r = Ok tt /\ store (snd r) = store w /\ disk (snd r) = disk w)
      /\ (pystr.strip name <> "" -> pystr.strip phone <> "" ->
          fst r = Ok tt
          /\ store (snd r) =
             (store w ++
                [[(KStr "id", VInt (contact_manager.generate_new_id (store w)));
                  (KStr "name", VStr (pystr.strip name));
                  (KStr "phone", VStr (pystr.strip phone));
                  (KStr "email", VStr (pystr.strip email));
                  (KStr "address", VStr (pystr.strip address))]])%list
          /\ (hd None (faults w) = None ->
              disk (snd r) = Holds (json.dump (VList (map VDict (store (snd r))))))))
  /\ (forall w,
      let r := contact_manager.add_contact w in
      store (snd r) <> store w \/ disk (snd r) <> disk w ->
      exists name phone email address rest,
        stdin w = name :: phone :: email :: address :: rest
        /\ pystr.strip name <> "" /\ pystr.strip phone <> "")
  /\ (forall strptime_ok w description rest,
      stdin w = description :: rest ->
      let r := todo_manager.add_task strptime_ok w in
      (pystr.strip description = "" ->
       fst r = Ok tt /\ store (snd r) = store w /\ disk (snd r) = disk w)
      /\ (pystr.strip description <> "" ->
          forall due notes rest', rest = due :: notes :: rest' ->
          fst r = Ok tt
          /\ store (snd r) =
             (store w ++
                [[(KStr "id", VInt (todo_manager.generate_new_id (store w)));
                  (KStr "description", VStr (pystr.strip description));
                  (KStr "completed", VBool false);
                  (KStr "due_date",
                   VStr (if String.eqb (pystr.strip due) "" then ""
                         else if strptime_ok (pystr.strip due) then pystr.strip due else ""));
                  (KStr "notes", VStr (pystr.strip notes))]])%list
          /\ (hd None (faults w) = None ->
              disk (snd r) = Holds (json.dump (VList (map VDict (store (snd r))))))))
  /\ (forall (strptime_ok : string -> bool) w,
      let r := todo_manager.add_task strptime_ok w in
      store (snd r) <> store w \/ disk (snd r) <> disk w ->
      exists description rest,
        stdin w = description :: rest /\ pystr.strip description <> "").
Proof.
  split; [|split; [|split]].
  - intros w name phone email address rest. apply create_lemmas.add_contact_run.
  - apply create_lemmas.add_contact_changes.
  - intros strptime_ok w description rest. apply create_lemmas.add_task_run.
  - apply create_lemmas.add_task_changes.
Qed.

(** C7 for a contact without a phone number: nothing is added. *)
Lemma create_needs_required_fields_witness :
  let w := mkWorld [] ["Ada"; "   "; "ada@x.org"; ""] [] Absent [] in
  fst (contact_manager.add_contact w) = Ok tt
  /\ store (snd (contact_manager.add_contact w)) = store w
  /\ disk (snd (contact_manager.add_contact w)) = disk w.
Proof.
  intros w.
  apply (proj1 create_needs_required_fields w "Ada" "   " "ada@x.org" "" []).
  - reflexivity.
  - right. reflexivity.
Defined.

(** ** The to-do manager on given input *)

Module todo_lemmas.
Import frame frame_rules frame_tactics talk_lemmas store_lemmas run_lemmas.

Lemma for_each_ok {A} (l : list A) (body : A -> M unit) :
  (forall x, In x l -> forall w, exists w', body x w = (Ok tt, w') /\ shows w w') ->
  forall w, exists w', for_each l body w = (Ok tt, w') /\ shows w w'.
Proof.
  induction l as [|x l IH]; intros Hb w; simpl.
  - exists w. split; [reflexivity | apply shows_refl].
  - destruct (Hb x (or_introl eq_refl) w) as (w1 & E1 & S1).
    destruct (IH (fun y Hy => Hb y (or_intror Hy)) w1) as (w2 & E2 & S2).
    exists w2. unfold bind. rewrite E1. split; [exact E2 | eapply shows_trans; eauto].
Qed.

Lemma print_task_ok (t : py.dict) (w : world) :
  spec.listable t -> exists w', todo_manager.print_task t w = (Ok tt, w') /\ shows w w'.
Proof.
  intros ((i & Hi) & (d & Hd)).
  unfold todo_manager.print_task, bind, lift, py.getitem, print. rewrite Hi, Hd.
  eexists. split; [reflexivity|]. repeat split.
Qed.

Lemma list_tasks_ok (w : world) :
  Forall spec.listable (store w) ->
  exists w', todo_manager.list_tasks w = (Ok tt, w') /\ shows w w'.
Proof.
  intros Hall. unfold todo_manager.list_tasks, bind at 1, print at 1. cbn [fst snd].
  unfold bind at 1, get_store at 1. cbn [store with_stdout].
  destruct (store w) as [|t s] eqn:Es.
  - eexists. split; [reflexivity|]. repeat split.
  - rewrite <- Es in *.
    destruct (for_each_ok (store w) todo_manager.print_task) with
      (w := with_stdout w (Print [Lit (nl ++ "=== To-Do List ===")])) as (w1 & E1 & S1).
    { intros x Hx w0. apply print_task_ok. rewrite Forall_forall in Hall. auto. }
    unfold bind. rewrite E1. eexists. split; [reflexivity|].
    eapply shows_trans; [|eapply shows_trans; [exact S1|]]; repeat split.
Qed.

Lemma find_from_some (from : nat) (s : list py.dict) (task_id : Z) (ref : nat) :
  todo_manager.find_from from s task_id = Some ref ->
  (from <= ref < from + List.length s)%nat
  /\ py.eq_int (py.get_default (nth (ref - from) s []) "id" VNone) task_id = true.
Proof.
  revert from. induction s as [|t s IH]; intros from; cbn [todo_manager.find_from];
    [discriminate|].
  destruct (py.eq_int (py.get_default t "id" VNone) task_id) eqn:E.
  - intros [= <-]. rewrite Nat.sub_diag. simpl. split; [lia | exact E].
  - intros H. destruct (IH _ H) as (Hr & He). split; [simpl; lia|].
    replace (ref - from)%nat with (S (ref - S from)) by lia. exact He.
Qed.

Lemma find_task_by_id_some (s : list py.dict) (task_id : Z) (ref : nat) :
  todo_manager.find_task_by_id s task_id = Some ref ->
  (ref < List.length s)%nat
  /\ py.eq_int (py.get_default (nth ref s []) "id" VNone) task_id = true
  /\ py.truthy (VDict (nth ref s [])) = true.
Proof.
  intros H. apply find_from_some in H as (Hr & He). rewrite Nat.sub_0_r in He.
  split; [lia|]. split; [exact He|].
  destruct (nth ref s []) as [|kv t]; [discriminate He | reflexivity].
Qed.

Lemma find_from_congr (from : nat) (s s' : list py.dict) (task_id : Z) :
  map spec.id_of s' = map spec.id_of s ->
  todo_manager.find_from from s' task_id = todo_manager.find_from from s task_id.
Proof.
  revert from s'. induction s as [|t s IH]; intros from [|t' s'] H; simpl in H;
    try discriminate; [reflexivity|].
  injection H as Ht Hs. cbn [todo_manager.find_from].
  rewrite !id_lemmas.get_default_id, Ht, (IH (S from) s' Hs). reflexivity.
Qed.

(** What the three operations by identifier have in common: the list
    is shown, the identifier is read and looked up. *)
Lemma find_task_run (task_id : Z) (w : world) :
  todo_manager.find_task task_id w =
  (Ok match todo_manager.find_task_by_id (store w) task_id with
      | Some ref => if py.truthy (VDict (nth ref (store w) [])) then Some ref else None
      | None => None
      end, w).
Proof.
  unfold todo_manager.find_task, bind, get_store, deref, ret.
  destruct (todo_manager.find_task_by_id (store w) task_id); reflexivity.
Qed.

End todo_lemmas.

Module delete_lemmas.
Import frame frame_rules frame_tactics talk_lemmas store_lemmas run_lemmas todo_lemmas.

Lemma delete_task_no_match_run (w : world) (line : string) (rest : list string)
    (task_id : Z) :
  stdin w = line :: rest ->
  pystr.int line = Some task_id ->
  todo_manager.find_task_by_id (store w) task_id = None ->
  Forall spec.listable (store w) ->
  exists shown,
    todo_manager.delete_task w =
    (Ok tt,
     mkWorld (store w)
       (match store w with [] => stdin w | _ => rest end)
       (shown ++
        [Print [Lit (match store w with
                     | [] => "No tasks found." ++ nl
                     | _ => if task_id =? 0 then "Deletion cancelled." ++ nl
                            else "Task not found." ++ nl
                     end)]])
       (disk w) (faults w)).
Proof.
  intros Hin Hint Hfind Hall.
  destruct (store w) as [|t s] eqn:Es.
  - destruct w as [s0 i o d fs]. simpl in Es. subst s0.
    unfold todo_manager.delete_task, todo_manager.list_tasks. cbn.
    eexists. reflexivity.
  - unfold todo_manager.delete_task. unfold bind at 1.
    rewrite <- Es in Hall. destruct (list_tasks_ok w Hall) as (w1 & E1 & (Hs & Hd & Hf) & Hi).
    rewrite E1. destruct w1 as [s1 i1 o1 d1 f1]. simpl in Hs, Hd, Hf, Hi.
    rewrite Hin in Hi. rewrite Es in Hs. subst s1 d1 f1 i1.
    unfold bind at 1, get_store at 1. cbn [store].
    unfold bind at 1, input at 1. cbn [stdin store stdout disk faults]. rewrite Hint.
    destruct (Z.eqb_spec task_id 0) as [E0|E0].
    + cbn. eexists. reflexivity.
    + unfold bind at 1. rewrite find_task_run. cbn [store]. rewrite Hfind.
      cbn. eexists. reflexivity.
Qed.

End delete_lemmas.

(** C6, as far as the program goes.  The user asks the to-do manager
    to delete a task and types an identifier that no task has.  The
    store and the file stay as they are.  What is reported depends:
    "Task not found." for an identifier other than 0 in a store that
    is not empty; 0 is the answer that cancels, and "Deletion
    cancelled." is reported; in the empty store no identifier is read
    at all, the report is "No tasks found.". *)
Theorem delete_unknown_id_changes_nothing
    (w : world) (line : string) (rest : list string) (task_id : Z) :
  stdin w = line :: rest ->
  pystr.int line = Some task_id ->
  todo_manager.find_task_by_id (store w) task_id = None ->
  Forall spec.listable (store w) ->
  let r := todo_manager.delete_task w in
  fst r = Ok tt /\ store (snd r) = store w /\ disk (snd r) = disk w
  /\ (store w = [] ->
      stdin (snd r) = stdin w
      /\ last (stdout (snd r)) (Print []) = Print [Lit ("No tasks found." ++ nl)])
  /\ (store w <> [] -> task_id = 0 ->
      last (stdout (snd r)) (Print []) = Print [Lit ("Deletion cancelled." ++ nl)])
  /\ (store w <> [] -> task_id <> 0 ->
      last (stdout (snd r)) (Print []) = Print [Lit ("Task not found." ++ nl)]).
Proof.
  intros Hin Hint Hfind Hall r. subst r.
  destruct (delete_lemmas.delete_task_no_match_run w line rest task_id Hin Hint Hfind Hall) as (shown & ->).
  cbn [fst snd store stdin stdout disk]. rewrite last_last.
  split; [reflexivity|]. split; [reflexivity|]. split; [reflexivity|]. split; [|split].
  - intros E. now rewrite E.
  - intros Hne ->. destruct (store w); [congruence | reflexivity].
  - intros Hne H0. destruct (store w); [congruence|].
    destruct (Z.eqb_spec task_id 0); [congruence | reflexivity].
Qed.

(** C6 for the identifier 5 in a store whose only task has the
    identifier 1. *)
Lemma delete_unknown_id_changes_nothing_witness :
  let w := mkWorld
             [[(KStr "id", VInt 1); (KStr "description", VStr "water the plants");
               (KStr "completed", VBool false); (KStr "due_date", VStr "");
               (KStr "notes", VStr "")]]
             ["5"] [] Absent [] in
  let r := todo_manager.delete_task w in
  fst r = Ok tt /\ store (snd r) = store w /\ disk (snd r) = disk w
  /\ last (stdout (snd r)) (Print []) = Print [Lit ("Task not found." ++ nl)].
Proof.
  intros w r.
  destruct (delete_unknown_id_changes_nothing w "5" [] 5) as (H1 & H2 & H3 & _ & _ & H4).
  - reflexivity.
  - reflexivity.
  - reflexivity.
  - repeat econstructor.
  - split; [exact H1|]. split; [exact H2|]. split; [exact H3|].
    apply H4; [discriminate | lia].
Defined.

(** C6, where it fails.  The identifier 0 matches no task of the store,
    yet the to-do manager does not report "not found" for it: 0
    cancels the deletion. *)
Lemma delete_zero_is_cancelled :
  let w := mkWorld
             [[(KStr "id", VInt 1); (KStr "description", VStr "water the plants");
               (KStr "completed", VBool false); (KStr "due_date", VStr "");
               (KStr "notes", VStr "")]]
             ["0"] [] Absent [] in
  let r := todo_manager.delete_task w in
  pystr.int "0" = Some 0
  /\ todo_manager.find_task_by_id (store w) 0 = None
  /\ store (snd r) = store w
  /\ last (stdout (snd r)) (Print []) = Print [Lit ("Deletion cancelled." ++ nl)]
  /\ ~ In (Print [Lit ("Task not found." ++ nl)]) (stdout (snd r)).
Proof.
  intros w r. repeat split.
  vm_compute. intros H. repeat (destruct H as [H|H]; [discriminate H|]). exact H.
Qed.

Module toggle_lemmas.
Import frame frame_rules frame_tactics talk_lemmas store_lemmas run_lemmas todo_lemmas.

Lemma setitem_setitem (d : py.dict) (k : key) (v1 v2 : value) :
  py.setitem (py.setitem d k v1) k v2 = py.setitem d k v2.
Proof.
  induction d as [|[k' v'] d IH]; simpl.
  - now rewrite key_eqb_refl.
  - destruct (py.key_eqb k' k) eqn:E; simpl; rewrite E; [reflexivity | now rewrite IH].
Qed.

Lemma setitem_get_same (d : py.dict) (k : key) (v : value) :
  py.get d k = Some v -> py.setitem d k v = d.
Proof.
  induction d as [|[k' v'] d IH]; simpl; [discriminate|].
  destruct (py.key_eqb k' k); [intros [= ->]; reflexivity | intros H; now rewrite IH].
Qed.

Lemma completed_flip (t : py.dict) :
  spec.completed (toggle.flip t) = negb (spec.completed t).
Proof.
  unfold spec.completed at 1, toggle.flip, py.get_default.
  now rewrite get_setitem_same.
Qed.

Lemma flip_flip (t : py.dict) :
  toggle.flip (toggle.flip t) = py.setitem t "completed" (VBool (spec.completed t)).
Proof.
  unfold toggle.flip at 1. rewrite completed_flip, negb_involutive.
  unfold toggle.flip. apply setitem_setitem.
Qed.

Lemma get_flip_other (t : py.dict) (k : key) :
  py.key_eqb "completed" k = false -> py.get (toggle.flip t) k = py.get t k.
Proof. intros H. unfold toggle.flip. now apply get_setitem_other. Qed.

Lemma listable_flip (t : py.dict) : spec.listable t -> spec.listable (toggle.flip t).
Proof.
  intros ((i & Hi) & (d & Hd)). split; [exists i | exists d];
    rewrite get_flip_other; auto.
Qed.

Lemma ids_flip (ref : nat) (s : list py.dict) :
  map spec.id_of (update_nth ref toggle.flip s) = map spec.id_of s.
Proof.
  apply map_update_nth. intros t. unfold spec.id_of. now apply get_flip_other.
Qed.

Lemma toggle_run (w : world) (line : string) (rest : list string) (task_id : Z) (ref : nat) :
  stdin w = line :: rest ->
  pystr.int line = Some task_id ->
  todo_manager.find_task_by_id (store w) task_id = Some ref ->
  Forall spec.listable (store w) ->
  exists w',
    todo_manager.toggle_completion w = (Ok tt, w')
    /\ stdin w' = rest
    /\ store w' = if task_id =? 0 then store w else update_nth ref toggle.flip (store w).
Proof.
  intros Hin Hint Hfind Hall.
  destruct (find_task_by_id_some _ _ _ Hfind) as (Href & _ & Htruthy).
  unfold todo_manager.toggle_completion. unfold bind at 1.
  destruct (list_tasks_ok w Hall) as (w1 & E1 & (Hs & Hd & Hf) & Hi).
  rewrite E1. destruct w1 as [s1 i1 o1 d1 f1]. simpl in Hs, Hd, Hf, Hi.
  rewrite Hin in Hi. subst s1 d1 f1 i1.
  unfold bind at 1, get_store at 1. cbn [store].
  destruct (store w) as [|t0 s0] eqn:Es; [simpl in Href; lia|]. rewrite <- Es in *.
  unfold bind at 1, input at 1. cbn [stdin store stdout disk faults]. rewrite Hint.
  destruct (Z.eqb_spec task_id 0) as [E0|E0].
  - cbn. eexists. repeat split.
  - unfold bind at 1. rewrite find_task_run. cbn [store]. rewrite Hfind, Htruthy.
    unfold bind at 1, deref at 1. cbn [store].
    unfold bind at 1, setitem_at at 1. cbn [store stdin stdout disk faults].
    unfold bind at 1, deref at 1. cbn [store].
    rewrite (nth_update_nth_same ref _ (store w) [] Href).
    unfold bind at 1, lift at 1, py.getitem. rewrite get_setitem_same.
    unfold todo_manager.save_tasks.
    match goal with
    | |- context [bind get_store (fun c => bind (record_store.save_records ?noun c)
                                          (fun _ => print ?text)) ?w1] =>
        destruct (save_and_print noun text w1) as (H1 & H2 & H3 & _);
        cbv zeta in H1, H2, H3;
        destruct (bind get_store (fun c => bind (record_store.save_records noun c)
                                          (fun _ => print text)) w1) as [r w2] eqn:E2
    end.
    simpl in H1, H2, H3. subst r. exists w2. split; [reflexivity|]. split; [exact H3|].
    rewrite H2. apply update_nth_ext_at with (d := []). reflexivity.
Qed.

End toggle_lemmas.

(** C10.  Toggling the completion of a task twice.  The user picks the
    same identifier, one that a task of the store has, at two
    successive toggle operations.  Both operations succeed.  After the
    second one the task is completed exactly if it was before, every
    other field of every task is as it was, and no task came or went;
    if the completed flag was a boolean, as it is for every task the
    program creates, the whole store is as it was.  After the first
    one the status was the opposite (0 is not an identifier one can
    pick: it cancels). *)
Theorem toggle_twice_restores
    (w : world) (l1 l2 : string) (rest : list string) (task_id : Z) (ref : nat) :
  stdin w = l1 :: l2 :: rest ->
  pystr.int l1 = Some task_id ->
  pystr.int l2 = Some task_id ->
  todo_manager.find_task_by_id (store w) task_id = Some ref ->
  Forall spec.listable (store w) ->
  let r1 := todo_manager.toggle_completion w in
  let r2 := todo_manager.toggle_completion (snd r1) in
  let t := nth ref (store w) [] in
  fst r1 = Ok tt /\ fst r2 = Ok tt
  /\ (task_id <> 0 ->
      spec.completed (nth ref (store (snd r1)) []) = negb (spec.completed t))
  /\ spec.completed (nth ref (store (snd r2)) []) = spec.completed t
  /\ (forall j k, j <> ref \/ py.key_eqb "completed" k = false ->
        py.get (nth j (store (snd r2)) []) k = py.get (nth j (store w) []) k)
  /\ List.length (store (snd r2)) = List.length (store w)
  /\ (forall b, py.get t "completed" = Some (VBool b) -> store (snd r2) = store w).
Proof.
  intros Hin Hint1 Hint2 Hfind Hall r1 r2 t.
  destruct (todo_lemmas.find_task_by_id_some _ _ _ Hfind) as (Href & _ & _).
  destruct (toggle_lemmas.toggle_run w l1 (l2 :: rest) task_id ref Hin Hint1 Hfind Hall)
    as (w1 & E1 & Hin1 & Hs1).
  assert (Hfind1 : todo_manager.find_task_by_id (store w1) task_id = Some ref).
  { rewrite Hs1. destruct (task_id =? 0); [exact Hfind|].
    unfold todo_manager.find_task_by_id.
    rewrite (todo_lemmas.find_from_congr 0 (store w) _ task_id (toggle_lemmas.ids_flip ref _)).
    exact Hfind. }
  assert (Hall1 : Forall spec.listable (store w1)).
  { rewrite Hs1. destruct (task_id =? 0); [exact Hall|].
    apply store_lemmas.Forall_update_nth; [|exact Hall].
    apply toggle_lemmas.listable_flip. }
  destruct (toggle_lemmas.toggle_run w1 l2 rest task_id ref Hin1 Hint2 Hfind1 Hall1)
    as (w2 & E2 & Hin2 & Hs2).
  subst r2 r1. rewrite E1. cbn [fst snd]. rewrite E2. cbn [fst snd].
  split; [reflexivity|]. split; [reflexivity|].
  rewrite Hs2, Hs1. destruct (Z.eqb_spec task_id 0) as [E0|E0].
  - repeat split; auto; congruence.
  - rewrite store_lemmas.update_nth_twice.
    rewrite (store_lemmas.update_nth_ext_at ref (fun x => toggle.flip (toggle.flip x))
               (fun t => py.setitem t "completed" (VBool (spec.completed t))) (store w) [])
      by apply toggle_lemmas.flip_flip.
    rewrite !store_lemmas.nth_update_nth_same by exact Href. fold t.
    split; [intros _; apply toggle_lemmas.completed_flip|].
    split; [unfold spec.completed at 1, py.get_default; now rewrite get_setitem_same|].
    split; [|split].
    + intros j k [Hj | Hk].
      * now rewrite store_lemmas.nth_update_nth_other by congruence.
      * destruct (Nat.eq_dec j ref) as [->|Hj];
          [|now rewrite store_lemmas.nth_update_nth_other by congruence].
        rewrite store_lemmas.nth_update_nth_same by exact Href.
        now apply get_setitem_other.
    + apply store_lemmas.length_update_nth.
    + intros b Hb. apply (store_lemmas.update_nth_id ref _ (store w) []). fold t.
      unfold spec.completed, py.get_default. rewrite Hb. cbn [py.truthy].
      now apply toggle_lemmas.setitem_get_same.
Qed.

(** C10 for a pending task with the identifier 2, second in the
    store. *)
Lemma toggle_twice_restores_witness :
  let task (n : Z) (d : string) : py.dict :=
    [(KStr "id", VInt n); (KStr "description", VStr d); (KStr "completed", VBool false);
     (KStr "due_date", VStr ""); (KStr "notes", VStr "")] in
  let w := mkWorld [task 1 "water the plants"; task 2 "file the taxes"]
             [" 2"; "2 "] [] Absent [] in
  let r1 := todo_manager.toggle_completion w in
  let r2 := todo_manager.toggle_completion (snd r1) in
  fst r1 = Ok tt /\ fst r2 = Ok tt
  /\ spec.completed (nth 1 (store (snd r1)) []) = negb (spec.completed (nth 1 (store w) []))
  /\ spec.completed (nth 1 (store (snd r2)) []) = spec.completed (nth 1 (store w) [])
  /\ store (snd r2) = store w.
Proof.
  intros task w r1 r2.
  destruct (toggle_twice_restores w " 2" "2 " [] 2 1%nat)
    as (H1 & H2 & H3 & H4 & _ & _ & H5).
  - reflexivity.
  - reflexivity.
  - reflexivity.
  - reflexivity.
  - repeat econstructor.
  - split; [exact H1|]. split; [exact H2|]. split; [apply H3; lia|]. split; [exact H4|].
    apply (H5 false). reflexivity.
Defined.

Module update_lemmas.
Import frame frame_rules frame_tactics talk_lemmas store_lemmas run_lemmas todo_lemmas.

Lemma update_nth_same_fun {A} (i : nat) (l : list A) : update_nth i (fun x => x) l = l.
Proof. revert i. induction l as [|x l IH]; intros [|i]; simpl; auto. now rewrite IH. Qed.

(** One of the steps [if new: record[field] = new]. *)
Lemma answer_step (ref : nat) (field line : string) (w : world) :
  (if String.eqb (pystr.strip line) "" then ret tt
   else setitem_at ref field (VStr (pystr.strip line))) w
  = (Ok tt, mkWorld (update_nth ref (update.answer field line) (store w))
              (stdin w) (stdout w) (disk w) (faults w)).
Proof.
  unfold update.answer. destruct (String.eqb (pystr.strip line) "").
  - rewrite update_nth_same_fun. now destruct w.
  - reflexivity.
Qed.

Lemma ask_new_run (what field : string) (ref : nat) (w : world) (v : value)
    (line : string) (rest : list string) :
  py.get (nth ref (store w) []) field = Some v ->
  stdin w = line :: rest ->
  contact_manager.ask_new what field ref w
  = (Ok (pystr.strip line),
     mkWorld (store w) rest
       (stdout w ++ [Prompt [Lit ("New " ++ what ++ " ["); Fmt v; Lit "]: "]])
       (disk w) (faults w)).
Proof.
  intros Hget Hin.
  unfold contact_manager.ask_new, bind, deref, lift, py.getitem, input, ret.
  cbn [store]. now rewrite Hget, Hin.
Qed.

Lemma ask_new_missing (what field : string) (ref : nat) (w : world) :
  py.get (nth ref (store w) []) field = None ->
  contact_manager.ask_new what field ref w = (Raise KeyError, w).
Proof.
  intros Hget.
  unfold contact_manager.ask_new, bind, deref, lift, py.getitem. cbn [store].
  now rewrite Hget.
Qed.

Lemma update_contact_run (w : world) (results : list nat) (w1 : world) (ref : nat)
    (w2 : world) (n1 n2 n3 n4 : string) (rest : list string) :
  contact_manager.search_contacts
    (snd (print [Lit (nl ++ "=== Update Contact ===")] w)) = (Ok results, w1) ->
  contact_manager.select_contact results w1 = (Ok (Some ref), w2) ->
  stdin w2 = n1 :: n2 :: n3 :: n4 :: rest ->
  let c := nth ref (store w) [] in
  exists res w',
    contact_manager.update_contact w = (res, w')
    /\ (store w' = store w
        \/ store w' = update_nth ref (update.edit_contact n1 n2 n3 n4) (store w))
    /\ (update.has c "name" -> update.has c "phone" -> update.has c "email" ->
        update.has c "address" ->
        res = Ok tt
        /\ store w' = update_nth ref (update.edit_contact n1 n2 n3 n4) (store w)).
Proof.
  intros Hsearch Hselect Hin c.
  assert (Hs1 : store w1 = store w).
  { pose proof (talk_search_contacts (snd (print [Lit (nl ++ "=== Update Contact ===")] w)))
      as (H & _). rewrite Hsearch in H. exact H. }
  assert (Hs2 : store w2 = store w).
  { pose proof (talk_select_contact results w1) as (H & _). rewrite Hselect in H.
    simpl in H. congruence. }
  assert (Hres : results <> []).
  { intros ->. unfold contact_manager.select_contact, bind, print, ret in Hselect.
    discriminate Hselect. }
  assert (Hrun : contact_manager.update_contact w =
    bind (c0 <- deref ref ;; ret (if py.truthy (VDict c0) then Some ref else None))
      (fun contact =>
         match contact with
         | None => print [Lit ("Update cancelled." ++ nl)]
         | Some contact =>
             print [Lit "Leave a field blank to keep the current value."] ;;
             new_name <- contact_manager.ask_new "name" "name" contact ;;
             new_phone <- contact_manager.ask_new "phone" "phone" contact ;;
             new_email <- contact_manager.ask_new "email" "email" contact ;;
             new_address <- contact_manager.ask_new "address" "address" contact ;;
             (if String.eqb new_name "" then ret tt
              else setitem_at contact "name" (VStr new_name)) ;;
             (if String.eqb new_phone "" then ret tt
              else setitem_at contact "phone" (VStr new_phone)) ;;
             (if String.eqb new_email "" then ret tt
              else setitem_at contact "email" (VStr new_email)) ;;
             (if String.eqb new_address "" then ret tt
              else setitem_at contact "address" (VStr new_address)) ;;
             contacts <- get_store ;;
             contact_manager.save_contacts contacts ;;
             print [Lit ("Contact updated successfully!" ++ nl)]
         end) w2).
  { unfold contact_manager.update_contact. unfold bind at 1.
    destruct (print [Lit (nl ++ "=== Update Contact ===")] w) as [[[]|e] w0] eqn:E0;
      [|discriminate E0].
    simpl in Hsearch. unfold bind at 1. rewrite Hsearch.
    destruct results as [|r0 results]; [congruence|].
    unfold bind at 1. rewrite Hselect. reflexivity. }
  rewrite Hrun. clear Hrun Hsearch Hselect.
  destruct w2 as [s2 i2 o2 d2 f2]. simpl in Hin, Hs2. subst s2 i2.
  unfold bind at 1. unfold bind at 1, deref at 1, ret at 1. cbn [store]. fold c.
  destruct (py.truthy (VDict c)) eqn:Htruthy.
  2:{ cbn. eexists _, _. split; [reflexivity|]. split; [now left|].
      intros (v & Hv) _ _ _. destruct c; discriminate. }
  unfold bind at 1, print at 1, with_stdout. cbn [store stdin stdout disk faults].
  destruct (py.get c "name") as [v1|] eqn:G1.
  2:{ unfold bind at 1. rewrite ask_new_missing by exact G1. cbn.
      eexists _, _. split; [reflexivity|]. split; [now left|]. intros (v & Hv) _ _ _. congruence. }
  unfold bind at 1. erewrite ask_new_run; [| exact G1 | reflexivity].
  cbn [store stdin stdout disk faults].
  destruct (py.get c "phone") as [v2|] eqn:G2.
  2:{ unfold bind at 1. rewrite ask_new_missing by exact G2. cbn.
      eexists _, _. split; [reflexivity|]. split; [now left|]. intros _ (v & Hv) _ _. congruence. }
  unfold bind at 1. erewrite ask_new_run; [| exact G2 | reflexivity].
  cbn [store stdin stdout disk faults].
  destruct (py.get c "email") as [v3|] eqn:G3.
  2:{ unfold bind at 1. rewrite ask_new_missing by exact G3. cbn.
      eexists _, _. split; [reflexivity|]. split; [now left|]. intros _ _ (v & Hv) _. congruence. }
  unfold bind at 1. erewrite ask_new_run; [| exact G3 | reflexivity].
  cbn [store stdin stdout disk faults].
  destruct (py.get c "address") as [v4|] eqn:G4.
  2:{ unfold bind at 1. rewrite ask_new_missing by exact G4. cbn.
      eexists _, _. split; [reflexivity|]. split; [now left|]. intros _ _ _ (v & Hv). congruence. }
  unfold bind at 1. erewrite ask_new_run; [| exact G4 | reflexivity].
  cbn [store stdin stdout disk faults].
  unfold bind at 1. rewrite (answer_step ref "name" n1). cbn [store stdin stdout disk faults].
  unfold bind at 1. rewrite (answer_step ref "phone" n2). cbn [store stdin stdout disk faults].
  unfold bind at 1. rewrite (answer_step ref "email" n3). cbn [store stdin stdout disk faults].
  unfold bind at 1. rewrite (answer_step ref "address" n4). cbn [store stdin stdout disk faults].
  rewrite !update_nth_twice. unfold contact_manager.save_contacts.
  match goal with
  | |- context [bind get_store (fun c => bind (record_store.save_records ?noun c)
                                        (fun _ => print ?text)) ?w1] =>
      destruct (save_and_print noun text w1) as (H1 & H2 & _);
      destruct (bind get_store (fun c => bind (record_store.save_records noun c)
                                        (fun _ => print text)) w1) as [res w'] eqn:E
  end.
  cbn [store fst snd] in H1, H2. unfold update.edit_contact.
  exists res, w'. split; [reflexivity|].
  split; [right; exact H2|]. intros _ _ _ _. split; [exact H1 | exact H2].
Qed.

Lemma answer_date_step (strptime_ok : string -> bool) (ref : nat) (field line : string) (text : list piece)
    (w : world) :
  exists shown,
    (if String.eqb (pystr.strip line) "" then ret tt
     else if strptime_ok (pystr.strip line)
          then setitem_at ref field (VStr (pystr.strip line))
          else print text) w
    = (Ok tt, mkWorld (update_nth ref (update.answer_date strptime_ok field line) (store w))
                (stdin w) shown (disk w) (faults w)).
Proof.
  unfold update.answer_date.
  destruct (String.eqb (pystr.strip line) ""); [|destruct (strptime_ok (pystr.strip line))].
  - rewrite update_nth_same_fun. exists (stdout w). now destruct w.
  - eexists. reflexivity.
  - rewrite update_nth_same_fun. eexists. reflexivity.
Qed.

Lemma update_task_run (strptime_ok : string -> bool) (w : world) (line d1 d2 d3 : string) (rest : list string)
    (task_id : Z) (ref : nat) :
  stdin w = line :: d1 :: d2 :: d3 :: rest ->
  pystr.int line = Some task_id ->
  todo_manager.find_task_by_id (store w) task_id = Some ref ->
  Forall spec.listable (store w) ->
  let t := nth ref (store w) [] in
  exists res w',
    todo_manager.update_task strptime_ok w = (res, w')
    /\ (store w' = store w
        \/ store w' = update_nth ref (update.edit_task strptime_ok d1 d2 d3) (store w))
    /\ (task_id <> 0 -> update.has t "due_date" -> update.has t "notes" ->
        res = Ok tt
        /\ store w' = update_nth ref (update.edit_task strptime_ok d1 d2 d3) (store w)).
Proof.
  intros Hin Hint Hfind Hall t. subst t.
  destruct (find_task_by_id_some _ _ _ Hfind) as (Href & _ & Htruthy).
  assert (Hdesc : exists v, py.get (nth ref (store w) []) "description" = Some v).
  { rewrite Forall_forall in Hall. apply (Hall (nth ref (store w) [])). apply nth_In.
    exact Href. }
  destruct Hdesc as (v1 & G1).
  unfold todo_manager.update_task. unfold bind at 1.
  destruct (list_tasks_ok w Hall) as (w1 & E1 & (Hs & Hd & Hf) & Hi).
  rewrite E1. destruct w1 as [s1 i1 o1 d1' f1]. simpl in Hs, Hd, Hf, Hi.
  rewrite Hin in Hi. subst s1 d1' f1 i1.
  unfold bind at 1, get_store at 1. cbn [store].
  destruct (store w) as [|t0 s0] eqn:Es; [simpl in Href; lia|]. rewrite <- Es in *.
  unfold bind at 1, input at 1. cbn [stdin store stdout disk faults]. rewrite Hint.
  destruct (Z.eqb_spec task_id 0) as [E0|E0].
  { cbn. eexists _, _. split; [reflexivity|]. split; [now left | congruence]. }
  unfold bind at 1. rewrite find_task_run. cbn [store]. rewrite Hfind, Htruthy.
  unfold bind at 1, print at 1, with_stdout. cbn [store stdin stdout disk faults].
  unfold bind at 1, deref at 1. cbn [store].
  unfold bind at 1, lift at 1, py.getitem at 1. rewrite G1.
  unfold bind at 1, input at 1. cbn [store stdin stdout disk faults].
  destruct (py.get (nth ref (store w) []) "due_date") as [v2|] eqn:G2.
  2:{ unfold bind at 1, lift at 1, py.getitem at 1. rewrite G2.
      eexists _, _. split; [reflexivity|]. split; [now left|].
      intros _ (v & Hv) _. congruence. }
  unfold bind at 1, lift at 1, py.getitem at 1. rewrite G2.
  unfold bind at 1, input at 1. cbn [store stdin stdout disk faults].
  destruct (py.get (nth ref (store w) []) "notes") as [v3|] eqn:G3.
  2:{ unfold bind at 1, lift at 1, py.getitem at 1. rewrite G3.
      eexists _, _. split; [reflexivity|]. split; [now left|].
      intros _ _ (v & Hv). congruence. }
  unfold bind at 1, lift at 1, py.getitem at 1. rewrite G3.
  unfold bind at 1, input at 1. cbn [store stdin stdout disk faults].
  unfold bind at 1. rewrite (answer_step ref "description" d1).
  cbn [store stdin stdout disk faults].
  unfold bind at 1.
  match goal with
  | |- context [(if String.eqb (pystr.strip d2) "" then ret tt
                 else if strptime_ok (pystr.strip d2) then _ else print ?text) ?w1] =>
      destruct (answer_date_step strptime_ok ref "due_date" d2 text w1) as (shown & ->)
  end.
  cbn [store stdin stdout disk faults].
  unfold bind at 1. rewrite (answer_step ref "notes" d3). cbn [store stdin stdout disk faults].
  rewrite !update_nth_twice. unfold todo_manager.save_tasks.
  match goal with
  | |- context [bind get_store (fun c => bind (record_store.save_records ?noun c)
                                        (fun _ => print ?text)) ?w1] =>
      destruct (save_and_print noun text w1) as (H1 & H2 & _);
      destruct (bind get_store (fun c => bind (record_store.save_records noun c)
                                        (fun _ => print text)) w1) as [res w'] eqn:E
  end.
  cbn [store fst snd] in H1, H2. unfold update.edit_task.
  exists res, w'. split; [reflexivity|].
  split; [right; exact H2|]. intros _ _ _. split; [exact H1 | exact H2].
Qed.

End update_lemmas.

Module answer_lemmas.
Import store_lemmas.

Lemma answer_blank (field line : string) (r : py.dict) :
  pystr.strip line = "" -> update.answer field line r = r.
Proof. intros H. unfold update.answer. now rewrite H. Qed.

Lemma get_answer_other (field line : string) (r : py.dict) (k : key) :
  py.key_eqb field k = false -> py.get (update.answer field line r) k = py.get r k.
Proof.
  intros H. unfold update.answer. destruct (String.eqb (pystr.strip line) "");
    [reflexivity | now apply get_setitem_other].
Qed.

Lemma get_answer_given (field line : string) (r : py.dict) :
  pystr.strip line <> "" ->
  py.get (update.answer field line r) field = Some (VStr (pystr.strip line)).
Proof.
  intros H. unfold update.answer. rewrite (run_lemmas.eqb_empty_false _ H).
  apply get_setitem_same.
Qed.

Lemma answer_date_blank strptime_ok (field line : string) (r : py.dict) :
  pystr.strip line = "" -> update.answer_date strptime_ok field line r = r.
Proof. intros H. unfold update.answer_date. now rewrite H. Qed.

Lemma get_answer_date_other strptime_ok (field line : string) (r : py.dict) (k : key) :
  py.key_eqb field k = false ->
  py.get (update.answer_date strptime_ok field line r) k = py.get r k.
Proof.
  intros H. unfold update.answer_date.
  destruct (String.eqb (pystr.strip line) ""); [reflexivity|].
  destruct (strptime_ok (pystr.strip line)); [now apply get_setitem_other | reflexivity].
Qed.

Lemma get_answer_date_given (strptime_ok : string -> bool) (field line : string)
    (r : py.dict) :
  pystr.strip line <> "" -> strptime_ok (pystr.strip line) = true ->
  py.get (update.answer_date strptime_ok field line r) field = Some (VStr (pystr.strip line)).
Proof.
  intros H Hok. unfold update.answer_date. rewrite (run_lemmas.eqb_empty_false _ H), Hok.
  apply get_setitem_same.
Qed.

(** A store in which at most the record at [ref] was changed by [f]. *)
Section edited.

Variables (s s' : list py.dict) (ref : nat) (f : py.dict -> py.dict).
Hypothesis Hs' : s' = s \/ s' = update_nth ref f s.

Lemma edited_field (k : key) :
  (forall c, py.get (f c) k = py.get c k) ->
  py.get (nth ref s' []) k = py.get (nth ref s []) k.
Proof.
  intros Hf. destruct Hs' as [-> | ->]; [reflexivity|].
  destruct (Nat.lt_ge_cases ref (List.length s)) as [Hlt|Hge].
  - rewrite nth_update_nth_same by exact Hlt. apply Hf.
  - now rewrite update_nth_beyond.
Qed.

Lemma edited_others (j : nat) : j <> ref -> nth j s' [] = nth j s [].
Proof.
  intros Hj. destruct Hs' as [-> | ->]; [reflexivity|].
  apply nth_update_nth_other. congruence.
Qed.

Lemma edited_length : List.length s' = List.length s.
Proof. destruct Hs' as [-> | ->]; [reflexivity | apply length_update_nth]. Qed.

Lemma edited_not (d : py.dict) : f (nth ref s d) = nth ref s d -> s' = s.
Proof.
  intros Hf. destruct Hs' as [-> | ->]; [reflexivity|]. now apply update_nth_id with (d := d).
Qed.

End edited.

Lemma has_in_range (s : list py.dict) (ref : nat) (field : string) :
  update.has (nth ref s []) field -> (ref < List.length s)%nat.
Proof.
  intros (v & Hv). destruct (Nat.lt_ge_cases ref (List.length s)) as [Hlt|Hge]; [exact Hlt|].
  rewrite nth_overflow in Hv by exact Hge. discriminate.
Qed.

Ltac kept_field B :=
  repeat first
    [ rewrite get_answer_other by reflexivity
    | rewrite get_answer_date_other by reflexivity
    | rewrite answer_blank by exact B
    | rewrite answer_date_blank by exact B ];
  try reflexivity.

Ltac given_field G :=
  repeat first
    [ rewrite get_answer_other by reflexivity
    | rewrite get_answer_date_other by reflexivity ];
  try (apply get_answer_given; exact G).

End answer_lemmas.

(** C5.  Updating a record.  In the contact manager the record is the
    one selected from the search results, in the to-do manager the one
    found by the identifier typed; then one answer is read for each
    editable field.  A field whose answer is blank (empty once the
    surrounding whitespace is dropped) keeps its value; the other
    records are not touched and no record comes or goes; when all
    answers are blank the whole store is as it was.  When the record
    has its fields, the operation succeeds and every field with an
    answer takes the answer as its value (the due date only when the
    answer is a date; otherwise it keeps its value too). *)
Theorem blank_answer_keeps_field :
  (forall w results w1 ref w2 n1 n2 n3 n4 rest,
      contact_manager.search_contacts
        (snd (print [Lit (nl ++ "=== Update Contact ===")] w)) = (Ok results, w1) ->
      contact_manager.select_contact results w1 = (Ok (Some ref), w2) ->
      stdin w2 = n1 :: n2 :: n3 :: n4 :: rest ->
      let r := contact_manager.update_contact w in
      let c := nth ref (store w) [] in
      let c' := nth ref (store (snd r)) [] in
      (pystr.strip n1 = "" -> py.get c' "name" = py.get c "name")
      /\ (pystr.strip n2 = "" -> py.get c' "phone" = py.get c "phone")
      /\ (pystr.strip n3 = "" -> py.get c' "email" = py.get c "email")
      /\ (pystr.strip n4 = "" -> py.get c' "address" = py.get c "address")
      /\ (forall j, j <> ref -> nth j (store (snd r)) [] = nth j (store w) [])
      /\ List.length (store (snd r)) = List.length (store w)
      /\ (pystr.strip n1 = "" -> pystr.strip n2 = "" -> pystr.strip n3 = "" ->
          pystr.strip n4 = "" -> store (snd r) = store w)
      /\ (update.has c "name" -> update.has c "phone" -> update.has c "email" ->
          update.has c "address" ->
          fst r = Ok tt
          /\ (pystr.strip n1 <> "" -> py.get c' "name" = Some (VStr (pystr.strip n1)))
          /\ (pystr.strip n2 <> "" -> py.get c' "phone" = Some (VStr (pystr.strip n2)))
          /\ (pystr.strip n3 <> "" -> py.get c' "email" = Some (VStr (pystr.strip n3)))
          /\ (pystr.strip n4 <> "" -> py.get c' "address" = Some (VStr (pystr.strip n4)))))
  /\ (forall (strptime_ok : string -> bool) w line d1 d2 d3 rest task_id ref,
      stdin w = line :: d1 :: d2 :: d3 :: rest ->
      pystr.int line = Some task_id ->
      todo_manager.find_task_by_id (store w) task_id = Some ref ->
      Forall spec.listable (store w) ->
      let r := todo_manager.update_task strptime_ok w in
      let t := nth ref (store w) [] in
      let t' := nth ref (store (snd r)) [] in
      (pystr.strip d1 = "" -> py.get t' "description" = py.get t "description")
      /\ (pystr.strip d2 = "" -> py.get t' "due_date" = py.get t "due_date")
      /\ (pystr.strip d3 = "" -> py.get t' "notes" = py.get t "notes")
      /\ (forall j, j <> ref -> nth j (store (snd r)) [] = nth j (store w) [])
      /\ List.length (store (snd r)) = List.length (store w)
      /\ (pystr.strip d1 = "" -> pystr.strip d2 = "" -> pystr.strip d3 = "" ->
          store (snd r) = store w)
      /\ (task_id <> 0 -> update.has t "due_date" -> update.has t "notes" ->
          fst r = Ok tt
          /\ (pystr.strip d1 <> "" ->
              py.get t' "description" = Some (VStr (pystr.strip d1)))
          /\ (pystr.strip d2 <> "" ->
              py.get t' "due_date" =
              if strptime_ok (pystr.strip d2) then Some (VStr (pystr.strip d2))
              else py.get t "due_date")
          /\ (pystr.strip d3 <> "" -> py.get t' "notes" = Some (VStr (pystr.strip d3))))).
Proof.
  split.
  - intros w results w1 ref w2 n1 n2 n3 n4 rest Hsearch Hselect Hin r c c'.
    destruct (update_lemmas.update_contact_run w results w1 ref w2 n1 n2 n3 n4 rest
                Hsearch Hselect Hin) as (res & w' & E & Hs' & Hok).
    subst r c'. rewrite E. cbn [fst snd]. fold c in Hok.
    pose proof (answer_lemmas.edited_field _ _ _ _ Hs') as Hfield.
    unfold update.edit_contact in *.
    split; [|split; [|split; [|split; [|split; [|split; [|split]]]]]].
    + intros B. apply Hfield. intros c0. answer_lemmas.kept_field B.
    + intros B. apply Hfield. intros c0. answer_lemmas.kept_field B.
    + intros B. apply Hfield. intros c0. answer_lemmas.kept_field B.
    + intros B. apply Hfield. intros c0. answer_lemmas.kept_field B.
    + intros j Hj. eapply answer_lemmas.edited_others; eauto.
    + eapply answer_lemmas.edited_length; eauto.
    + intros B1 B2 B3 B4. eapply answer_lemmas.edited_not with (d := []); [exact Hs'|].
      cbv beta. now rewrite !answer_lemmas.answer_blank.
    + intros H1 H2 H3 H4. destruct (Hok H1 H2 H3 H4) as (-> & ->).
      pose proof (answer_lemmas.has_in_range _ _ _ H1) as Href.
      rewrite store_lemmas.nth_update_nth_same by exact Href. fold c.
      split; [reflexivity|].
      split; [|split; [|split]]; intros G; answer_lemmas.given_field G.
  - intros strptime_ok w line d1 d2 d3 rest task_id ref Hin Hint Hfind Hall r t t'.
    destruct (update_lemmas.update_task_run strptime_ok w line d1 d2 d3 rest task_id ref
                Hin Hint Hfind Hall) as (res & w' & E & Hs' & Hok).
    subst r t'. rewrite E. cbn [fst snd]. fold t in Hok.
    pose proof (answer_lemmas.edited_field _ _ _ _ Hs') as Hfield.
    unfold update.edit_task in *.
    split; [|split; [|split; [|split; [|split; [|split]]]]].
    + intros B. apply Hfield. intros c0. answer_lemmas.kept_field B.
    + intros B. apply Hfield. intros c0. answer_lemmas.kept_field B.
    + intros B. apply Hfield. intros c0. answer_lemmas.kept_field B.
    + intros j Hj. eapply answer_lemmas.edited_others; eauto.
    + eapply answer_lemmas.edited_length; eauto.
    + intros B1 B2 B3. eapply answer_lemmas.edited_not with (d := []); [exact Hs'|].
      cbv beta. now rewrite answer_lemmas.answer_blank, answer_lemmas.answer_date_blank,
        answer_lemmas.answer_blank.
    + intros H0 H2 H3. destruct (Hok H0 H2 H3) as (-> & ->).
      pose proof (answer_lemmas.has_in_range _ _ _ H2) as Href.
      rewrite store_lemmas.nth_update_nth_same by exact Href. fold t.
      split; [reflexivity|]. split; [|split]; intros G.
      * answer_lemmas.given_field G.
      * rewrite answer_lemmas.get_answer_other by reflexivity.
        destruct (strptime_ok (pystr.strip d2)) eqn:Hok2.
        -- now apply answer_lemmas.get_answer_date_given.
        -- unfold update.answer_date.
           rewrite (run_lemmas.eqb_empty_false _ G), Hok2.
           now rewrite answer_lemmas.get_answer_other by reflexivity.
      * answer_lemmas.given_field G.
Qed.

(** C5 for the second of two contacts: the search for "bo" finds it,
    it is selected, and only a new email is given. *)
Lemma blank_answer_keeps_field_witness :
  let contact (n : Z) (name phone : string) : py.dict :=
    [(KStr "id", VInt n); (KStr "name", VStr name); (KStr "phone", VStr phone);
     (KStr "email", VStr ""); (KStr "address", VStr "")] in
  let w := mkWorld [contact 1 "Ada" "555"; contact 2 "Bob" "556"]
             ["bo"; "1"; ""; "  "; "bob@x.org"; ""] [] Absent [] in
  let r := contact_manager.update_contact w in
  fst r = Ok tt
  /\ py.get (nth 1 (store (snd r)) []) "name" = py.get (nth 1 (store w) []) "name"
  /\ py.get (nth 1 (store (snd r)) []) "phone" = py.get (nth 1 (store w) []) "phone"
  /\ py.get (nth 1 (store (snd r)) []) "email" = Some (VStr "bob@x.org")
  /\ nth 0 (store (snd r)) [] = nth 0 (store w) [].
Proof.
  intros contact w r.
  edestruct (proj1 blank_answer_keeps_field w) as (H1 & H2 & _ & _ & H5 & _ & _ & H8);
    [lazy; reflexivity | lazy; reflexivity | lazy; reflexivity |].
  destruct H8 as (Hr & _ & _ & He & _); try (eexists; reflexivity).
  split; [exact Hr|]. split; [apply H1; reflexivity|]. split; [apply H2; reflexivity|].
  split; [apply He; discriminate|]. apply H5. discriminate.
Defined.

(** ** Searching the contacts *)

Module search_lemmas.
Import frame frame_rules frame_tactics talk_lemmas store_lemmas run_lemmas.

Lemma matches_found (line : string) (c : py.dict) :
  search.contact_fields c ->
  contact_manager.matches (pystr.lower (pystr.strip line)) c
  = Ok (search.found (pystr.strip line) c).
Proof.
  intros (name & phone & Hn & Hp).
  unfold contact_manager.matches, search.found, search.ci_substring, search.text_of,
    py.get_default, contact_manager.str_lower.
  rewrite Hn, Hp.
  destruct (pystr.contains (pystr.lower (pystr.strip line)) (pystr.lower name)); reflexivity.
Qed.

Lemma filter_refs_positions (line : string) (from : nat) (l : list py.dict) :
  Forall search.contact_fields l ->
  contact_manager.filter_refs (contact_manager.matches (pystr.lower (pystr.strip line))) from l
  = Ok (search.positions (search.found (pystr.strip line)) from l).
Proof.
  intros Hl. revert from. induction Hl as [|c l Hc _ IH]; intros from; simpl; [reflexivity|].
  rewrite (matches_found line c Hc), IH. reflexivity.
Qed.

Lemma positions_range (p : py.dict -> bool) (from : nat) (l : list py.dict) :
  Forall (fun i => from <= i < from + List.length l)%nat (search.positions p from l).
Proof.
  revert from. induction l as [|c l IH]; intros from; simpl; [constructor|].
  assert (H : Forall (fun i => from <= i < from + S (List.length l))%nat
                (search.positions p (S from) l)).
  { eapply Forall_impl; [|apply IH]. simpl. intros i Hi. lia. }
  destruct (p c); [constructor; [lia | exact H] | exact H].
Qed.


Lemma positions_filter (p : py.dict -> bool) (from : nat) (l : list py.dict) :
  map (fun i => nth (i - from) l []) (search.positions p from l) = filter p l.
Proof.
  revert from. induction l as [|c l IH]; intros from; simpl; [reflexivity|].
  assert (H : map (fun i => nth (i - from) (c :: l) []) (search.positions p (S from) l)
              = filter p l).
  { rewrite <- (IH (S from)). apply map_ext_in. intros i Hi.
    pose proof (positions_range p (S from) l) as Hr. rewrite Forall_forall in Hr.
    specialize (Hr _ Hi). replace (i - from)%nat with (S (i - S from)) by lia. reflexivity. }
  destruct (p c); simpl; [rewrite Nat.sub_diag; f_equal; exact H | exact H].
Qed.


Lemma for_each_lines_ok (s : list py.dict) (l : list (Z * nat)) :
  (forall ic, In ic l ->
     exists name phone, py.get (nth (snd ic) s []) "name" = Some name
                        /\ py.get (nth (snd ic) s []) "phone" = Some phone) ->
  forall w, store w = s ->
  exists w', for_each l (fun ic => contact_manager.print_line (fst ic) (snd ic)) w = (Ok tt, w')
             /\ shows w w'.
Proof.
  induction l as [|ic l IH]; intros Hl w Hw; simpl.
  - exists w. split; [reflexivity | apply shows_refl].
  - destruct (Hl ic (or_introl eq_refl)) as (name & phone & Hn & Hp).
    unfold bind at 1. unfold contact_manager.print_line at 1.
    unfold bind at 1, deref at 1. cbn [store]. rewrite Hw.
    unfold bind at 1, lift at 1, py.getitem at 1. rewrite Hn.
    unfold bind at 1, lift at 1, py.getitem at 1. rewrite Hp.
    unfold print at 1.
    destruct (IH (fun ic' H' => Hl ic' (or_intror H'))
                (with_stdout w (Print [Fmt (VInt (fst ic)); Lit ". "; Fmt name; Lit " ";
                                       en_dash; Lit " "; Fmt phone])) Hw) as (w' & E & S).
    exists w'. split; [exact E|]. eapply shows_trans; [|exact S]. repeat split.
Qed.

Lemma in_enumerate {A} (start : Z) (l : list A) (ic : Z * A) :
  In ic (enumerate start l) -> In (snd ic) l.
Proof.
  revert start. induction l as [|x l IH]; intros start; simpl; [tauto|].
  intros [<-|H]; [now left | right; eauto].
Qed.

Lemma search_contacts_run (w : world) (line : string) (rest : list string) :
  stdin w = line :: rest ->
  Forall search.contact_fields (store w) ->
  exists w',
    contact_manager.search_contacts w
    = (Ok (search.positions (search.found (pystr.strip line)) 0 (store w)), w')
    /\ talk w w'.
Proof.
  intros Hin Hall.
  assert (Htalk : forall r w', contact_manager.search_contacts w = (r, w') -> talk w w').
  { intros r w' E. pose proof (talk_search_contacts w) as H. now rewrite E in H. }
  unfold contact_manager.search_contacts in *. unfold bind at 1 in Htalk. unfold bind at 1.
  unfold get_store at 1 in Htalk. unfold get_store at 1.
  destruct (store w) as [|c0 s0] eqn:Es.
  - eexists. split; [reflexivity|]. eapply Htalk. reflexivity.
  - rewrite <- Es in *. unfold bind at 1 in Htalk. unfold bind at 1.
    unfold input at 1 in Htalk. unfold input at 1. rewrite Hin in *. cbv zeta in *.
    unfold bind at 1 in Htalk. unfold bind at 1. unfold lift at 1 in Htalk. unfold lift at 1.
    rewrite (filter_refs_positions line 0 (store w) Hall) in *.
    set (refs := search.positions (search.found (pystr.strip line)) 0 (store w)) in *.
    set (w1 := mkWorld (store w) rest
                 (stdout w ++ [Prompt [Lit (nl ++ "Enter name or phone number to search: ")]])
                 (disk w) (faults w)) in *.
    assert (Hprint : exists w2,
      match refs with
      | [] => print [Lit ("No matching contacts found." ++ nl)]
      | _ :: _ =>
          print [Lit (nl ++ "Search Results:")] ;;
          for_each (enumerate 1 refs)
            (fun ic => contact_manager.print_line (fst ic) (snd ic)) ;;
          print [Lit ""]
      end w1 = (Ok tt, w2)).
    { destruct refs as [|i refs'] eqn:Er; [eexists; reflexivity|]. rewrite <- Er.
      unfold bind at 1, print at 1.
      destruct (for_each_lines_ok (store w) (enumerate 1 refs)) with
        (w := with_stdout w1 (Print [Lit (nl ++ "Search Results:")])) as (w2 & E2 & _).
      - intros ic Hic. apply in_enumerate in Hic.
        pose proof (positions_range (search.found (pystr.strip line)) 0 (store w)) as Hr.
        rewrite Forall_forall in Hr. specialize (Hr _ Hic).
        rewrite Forall_forall in Hall.
        destruct (Hall (nth (snd ic) (store w) [])) as (name & phone & Hn & Hp).
        { apply nth_In. lia. }
        eauto.
      - reflexivity.
      - unfold bind. rewrite E2. eexists. reflexivity. }
    destruct Hprint as (w2 & E2). unfold bind at 1 in Htalk. unfold bind at 1.
    rewrite E2 in *. unfold ret in *. eexists. split; [reflexivity|].
    eapply Htalk. reflexivity.
Qed.


End search_lemmas.

(** ** Case-insensitive substrings *)

Module occurs_lemmas.

Lemma code_inj (a b : ascii) : pystr.code a = pystr.code b -> a = b.
Proof.
  unfold pystr.code. intros H. apply Nat2Z.inj in H.
  rewrite <- (ascii_nat_embedding a), <- (ascii_nat_embedding b). now rewrite H.
Qed.

Lemma code_bound (c : ascii) : 0 <= pystr.code c < 256.
Proof. unfold pystr.code. pose proof (nat_ascii_bounded c). lia. Qed.






Lemma contains_unfold (needle hay : string) :
  pystr.contains needle hay
  = if String.prefix needle hay then true
    else match hay with
         | EmptyString => false
         | String _ hay' => pystr.contains needle hay'
         end.
Proof. destruct hay; reflexivity. Qed.





End occurs_lemmas.



(** ** The search over text beyond U+00FF *)

Module unicode_lemmas.

Lemma to_lower_code (c : ascii) :
  unicode.to_lower (pystr.code c) = pystr.code (pystr.lower_char c).
Proof. destruct c as [[] [] [] [] [] [] [] []]; vm_compute; reflexivity. Qed.

Lemma isspace_code (c : ascii) : unicode.isspace (pystr.code c) = pystr.isspace c.
Proof. destruct c as [[] [] [] [] [] [] [] []]; vm_compute; reflexivity. Qed.

Lemma code_not_sigma (c : ascii) : (pystr.code c =? 931) = false.
Proof. pose proof (occurs_lemmas.code_bound c). apply Z.eqb_neq. lia. Qed.

(** Below U+0100 [str.lower] is [pystr.lower]: there is no capital
    sigma, and every character becomes its small letter. *)
Lemma lower_from_of_string (before : unicode.text) (s : string) :
  unicode.lower_from before (unicode.of_string s) = unicode.of_string (pystr.lower s).
Proof.
  revert before. induction s as [|c s IH]; intros before; [reflexivity|].
  change (unicode.of_string (String c s)) with (pystr.code c :: unicode.of_string s).
  change (pystr.lower (String c s)) with (String (pystr.lower_char c) (pystr.lower s)).
  change (unicode.of_string (String (pystr.lower_char c) (pystr.lower s)))
    with (pystr.code (pystr.lower_char c) :: unicode.of_string (pystr.lower s)).
  cbn [unicode.lower_from]. now rewrite code_not_sigma, to_lower_code, IH.
Qed.

Lemma lower_of_string (s : string) :
  unicode.lower (unicode.of_string s) = unicode.of_string (pystr.lower s).
Proof. apply lower_from_of_string. Qed.

Lemma lstrip_map (l : list ascii) :
  unicode.lstrip (map pystr.code l) = map pystr.code (pystr.lstrip_chars pystr.isspace l).
Proof.
  induction l as [|c l IH]; [reflexivity|]. cbn [map unicode.lstrip pystr.lstrip_chars].
  rewrite isspace_code. destruct (pystr.isspace c); [exact IH | reflexivity].
Qed.

Lemma strip_of_string (s : string) :
  unicode.strip (unicode.of_string s) = unicode.of_string (pystr.strip s).
Proof.
  unfold unicode.strip, unicode.of_string, pystr.strip, pystr.strip_chars.
  rewrite list_ascii_of_string_of_list_ascii.
  now rewrite lstrip_map, <- map_rev, lstrip_map, <- map_rev.
Qed.

Lemma prefix_of_string (a b : string) :
  unicode.prefix (unicode.of_string a) (unicode.of_string b) = String.prefix a b.
Proof.
  revert b. induction a as [|x a IH]; intros [|y b]; try reflexivity.
  change (unicode.of_string (String x a)) with (pystr.code x :: unicode.of_string a).
  change (unicode.of_string (String y b)) with (pystr.code y :: unicode.of_string b).
  cbn [unicode.prefix String.prefix]. rewrite IH.
  destruct (ascii_dec x y) as [-> | Hxy]; [now rewrite Z.eqb_refl|].
  destruct (Z.eqb_spec (pystr.code x) (pystr.code y)) as [E | _]; [|reflexivity].
  apply occurs_lemmas.code_inj in E. contradiction.
Qed.

Lemma contains_of_string (a b : string) :
  unicode.contains (unicode.of_string a) (unicode.of_string b) = pystr.contains a b.
Proof.
  induction b as [|y b IH]; rewrite occurs_lemmas.contains_unfold.
  - cbn [unicode.contains]. change (unicode.of_string "") with (@nil Z).
    cbn [unicode.contains]. rewrite <- prefix_of_string. reflexivity.
  - change (unicode.of_string (String y b)) with (pystr.code y :: unicode.of_string b).
    cbn [unicode.contains]. now rewrite <- prefix_of_string, IH.
Qed.

Lemma filter_map {A B} (f : B -> bool) (g : A -> B) (l : list A) :
  filter f (map g l) = map g (filter (fun x => f (g x)) l).
Proof.
  induction l as [|x l IH]; simpl; [reflexivity|].
  destruct (f (g x)); simpl; now rewrite IH.
Qed.

(** The contacts found over texts are the contacts found. *)
Lemma results_of_string (line : string) (s : list py.dict) :
  unicode.results (unicode.of_string line) (map search.wide s)
  = map search.wide (filter (search.found (pystr.strip line)) s).
Proof.
  unfold unicode.results. rewrite filter_map. f_equal. apply filter_ext. intros c.
  unfold search.wide, search.found, search.ci_substring. cbn [fst snd].
  now rewrite strip_of_string, !lower_of_string, !contains_of_string.
Qed.

(** Below U+0100 the search over texts is the search of the program:
    the contacts that [search_contacts] returns are, as texts, the
    [results] over texts. *)
Lemma wide_search_agrees (w : world) (line : string) (rest : list string) :
  stdin w = line :: rest ->
  Forall search.contact_fields (store w) ->
  exists refs w',
    contact_manager.search_contacts w = (Ok refs, w')
    /\ map (fun i => search.wide (nth i (store w) [])) refs
       = unicode.results (unicode.of_string line) (map search.wide (store w)).
Proof.
  intros Hin Hall.
  destruct (search_lemmas.search_contacts_run w line rest Hin Hall) as (w' & E & _).
  eexists _, w'. split; [exact E|].
  rewrite results_of_string,
    <- (search_lemmas.positions_filter (search.found (pystr.strip line)) 0 (store w)),
    map_map.
  apply map_ext. intros i. now rewrite Nat.sub_0_r.
Qed.

End unicode_lemmas.


(** * More of the programs *)

(** ** The stores the programs can reach, and their file *)

(** X1.  In every world that the contact manager or the to-do manager
    can reach, the records of the store are mappings from field names
    to values, and their identifiers are integers, at least 1, no two
    equal, in strictly increasing order along the store. *)
Theorem reachable_ids_distinct (strptime_ok : string -> bool) (w : world) :
  contacts_reachable w \/ tasks_reachable strptime_ok w ->
  Forall spec.record (store w)
  /\ exists ns,
       spec.ids_of (store w) ns /\ NoDup ns /\ StronglySorted Z.lt ns
       /\ Forall (fun n => 1 <= n) ns.
Proof.
  intros Hw.
  assert (Hinv : spec.invariant w).
  { destruct Hw as [Hw | Hw].
    - exact (menu_lemmas.contacts_invariant w Hw).
    - exact (menu_lemmas.tasks_invariant strptime_ok w Hw). }
  destruct Hinv as [[Hrec (ns & Hids & Hsorted & Hpos)] _].
  split; [exact Hrec|]. exists ns.
  split; [exact Hids|]. split; [|split; [exact Hsorted | exact Hpos]].
  now apply creates_lemmas.sorted_lt_nodup.
Qed.

(** X1 in the contact manager after two contacts were added and the
    first one was deleted: the store holds the contact 2. *)
Lemma reachable_ids_distinct_witness :
  let round := contact_manager.menu_round in
  let w0 := mkWorld [] ["1"; "Ann"; "1"; ""; ""; "1"; "Bob"; "2"; ""; "";
                        "5"; "ann"; "1"; "y"] [] Absent [] in
  let w3 := snd (round (snd (round (snd (round w0))))) in
  map spec.id_of (store w3) = [Some (VInt 2)]
  /\ Forall spec.record (store w3)
  /\ exists ns,
       spec.ids_of (store w3) ns /\ NoDup ns /\ StronglySorted Z.lt ns
       /\ Forall (fun n => 1 <= n) ns.
Proof.
  intros round w0 w3. split; [reflexivity|].
  apply (reachable_ids_distinct (fun _ => true) w3). left.
  apply spec.reach_step with (w := snd (round (snd (round w0)))); [|apply spec.step_round].
  apply spec.reach_step with (w := snd (round w0)); [|apply spec.step_round].
  apply spec.reach_step with (w := w0); [|apply spec.step_round].
  apply spec.reach_first with (lines := stdin w0) (fs := []). reflexivity.
Defined.

(** X2.  Starting again on the file that the contact manager (or the
    to-do manager) left behind, whether its writes went through, failed
    or broke off.  Unless the last write broke off inside a character
    of several bytes, loading does not raise, and the session begins in
    a world that the program can reach, with the file as it was and
    nothing shown yet.  After a write that broke off inside such a
    character the file cannot be decoded: loading raises
    [UnicodeDecodeError], which the program does not catch, and the
    session does not begin. *)
Theorem restart_loads_unless_cut_in_character (strptime_ok : string -> bool)
    (start round : M unit) (w : world) (lines : list string) (fs : list (option fault)) :
  (start = contact_manager.main_menu_start /\ round = contact_manager.menu_round)
  \/ (start = todo_manager.main_menu_start
      /\ round = todo_manager.menu_round strptime_ok) ->
  spec.reachable start round w ->
  (disk w <> Undecodable ->
   exists w',
     spec.session start (disk w) lines fs = (Ok tt, w')
     /\ spec.reachable start round w'
     /\ disk w' = disk w /\ stdin w' = lines /\ stdout w' = [])
  /\ (disk w = Undecodable ->
      spec.session start (disk w) lines fs
      = (Raise UnicodeDecodeError, mkWorld [] lines [] (disk w) fs)).
Proof.
  intros Hprog Hw.
  assert (Hinv : spec.invariant w).
  { destruct Hprog as [[-> ->] | [-> ->]].
    - exact (menu_lemmas.contacts_invariant w Hw).
    - exact (menu_lemmas.tasks_invariant strptime_ok w Hw). }
  assert (Hsession : spec.session start (disk w) lines fs
                     = bind record_store.load_records set_store
                         (mkWorld [] lines [] (disk w) fs)).
  { destruct Hprog as [[-> _] | [-> _]]; reflexivity. }
  split.
  - intros Hcut.
    destruct (menu_lemmas.load_good_disk (mkWorld [] lines [] (disk w) fs) (proj2 Hinv) Hcut)
      as (s & E & _).
    assert (Hrun : spec.session start (disk w) lines fs
                   = (Ok tt, mkWorld s lines [] (disk w) fs)).
    { rewrite Hsession. unfold bind. rewrite E. reflexivity. }
    eexists. split; [exact Hrun|]. split; [|repeat split].
    apply spec.reach_step with (w := w); [exact Hw|].
    apply spec.step_restart with (lines := lines) (fs := fs). exact Hrun.
  - intros Hcut. rewrite Hsession. unfold bind.
    rewrite (menu_lemmas.load_undecodable (mkWorld [] lines [] (disk w) fs) Hcut).
    reflexivity.
Qed.

(** X2 after a write that broke off.  In the first run the contact Ann
    is added and the file is cut short: the next session starts with
    the empty store.  In the second run the name of the contact ends
    in U+00E9, an e with an acute accent, and the write breaks off
    inside that letter: the next session ends at once with
    [UnicodeDecodeError]. *)
Lemma restart_loads_unless_cut_in_character_witness :
  let start := contact_manager.main_menu_start in
  let round := contact_manager.menu_round in
  let w0 := mkWorld [] ["1"; "Ann"; "1"; ""; ""] [] Absent [Some (WriteFails "disk full")] in
  let w1 := snd (round w0) in
  let jose := "Jos" ++ String (ascii_of_nat 233) "" in
  let v0 := mkWorld [] ["1"; jose; "1"; ""; ""] [] Absent [Some (WriteSplits "disk full")] in
  let v1 := snd (round v0) in
  (map spec.id_of (store w1) = [Some (VInt 1)] /\ disk w1 = Garbled
   /\ exists w',
        spec.session start (disk w1) ["2"] [] = (Ok tt, w')
        /\ spec.reachable start round w'
        /\ disk w' = disk w1 /\ stdin w' = ["2"] /\ stdout w' = [])
  /\ (map spec.id_of (store v1) = [Some (VInt 1)] /\ disk v1 = Undecodable
      /\ spec.session start (disk v1) ["2"] []
         = (Raise UnicodeDecodeError, mkWorld [] ["2"] [] (disk v1) [])).
Proof.
  intros start round w0 w1 jose v0 v1.
  split.
  - split; [reflexivity|]. split; [reflexivity|].
    apply (restart_loads_unless_cut_in_character (fun _ => true) start round w1 ["2"] []).
    + left. split; reflexivity.
    + apply spec.reach_step with (w := w0); [|apply spec.step_round].
      apply spec.reach_first with (lines := stdin w0) (fs := faults w0). reflexivity.
    + discriminate.
  - split; [reflexivity|]. split; [reflexivity|].
    apply (restart_loads_unless_cut_in_character (fun _ => true) start round v1 ["2"] []).
    + left. split; reflexivity.
    + apply spec.reach_step with (w := v0); [|apply spec.step_round].
      apply spec.reach_first with (lines := stdin v0) (fs := faults v0). reflexivity.
    + reflexivity.
Defined.

(** ** Every change is written *)

Module persist_lemmas.
Import frame frame_rules frame_tactics talk_lemmas store_lemmas round_lemmas persist.

Lemma saved_refl w : saved w w.
Proof. left. repeat split. Qed.

Lemma saved_after w1 w2 w3 : talk w1 w2 -> saved w2 w3 -> saved w1 w3.
Proof.
  intros (Hs & Hd & Hf) [(Hs' & Hd' & Hf') | (Hd' & Hf')]; [left | right].
  - repeat split; congruence.
  - unfold commits. rewrite <- Hd, <- Hf. split; assumption.
Qed.

Lemma commits_save (noun : string) (text : list piece) :
  acts commits (bind get_store (fun c =>
                  bind (record_store.save_records noun c) (fun _ => print text))).
Proof.
  intros [s i o d fs].
  unfold commits, written, bind, get_store, record_store.save_records, try_except,
    write_json, print.
  destruct fs as [|[[msg|msg|msg]|] fs]; cbn; split; reflexivity.
Qed.

Lemma commit_written (noun : string) (f : list py.dict -> list py.dict) (text : list piece)
    (w : world) :
  let r := bind get_store (fun c => bind (set_store (f c)) (fun _ => bind get_store (fun c =>
             bind (record_store.save_records noun c) (fun _ => print text)))) w in
  disk (snd r) = written (hd None (faults w)) (disk w) (f (store w))
  /\ faults (snd r) = tl (faults w).
Proof.
  destruct w as [s i o d fs].
  unfold written, bind, get_store, set_store, record_store.save_records, try_except,
    write_json, print.
  destruct fs as [|[[msg|msg|msg]|] fs]; cbn; split; reflexivity.
Qed.

Lemma commits_after_edits {A B} (m : M A) (k : A -> M B) :
  edits m -> (forall a, acts commits (k a)) -> acts commits (bind m k).
Proof.
  intros Hm Hk w. unfold bind. destruct (Hm w) as (a & w1 & E & Hd & Hf). rewrite E.
  specialize (Hk a w1). unfold commits in *. rewrite <- Hd, <- Hf. exact Hk.
Qed.

Lemma edits_ret {A} (a : A) : edits (ret a).
Proof. intros w. exists a, w. repeat split. Qed.

Lemma edits_print text : edits (print text).
Proof. intros w. eexists _, _. repeat split. Qed.

Lemma edits_setitem_at i k v : edits (setitem_at i k v).
Proof. intros w. eexists _, _. repeat split. Qed.

Lemma edits_set_store s : edits (set_store s).
Proof. intros w. eexists _, _. repeat split. Qed.

Lemma edits_get_store : edits get_store.
Proof. intros w. eexists _, _. repeat split. Qed.

Ltac commits_go :=
  repeat first
    [ apply commits_save
    | apply commits_after_edits;
      [ repeat match goal with |- edits (if ?b then _ else _) => destruct b end;
        first [apply edits_ret | apply edits_print | apply edits_setitem_at
              | apply edits_set_store | apply edits_get_store]
      | intro ] ].

Lemma acts_saved_commits {A} (m : M A) : acts commits m -> acts saved m.
Proof. intros H w. right. apply H. Qed.

Ltac saved_go :=
  repeat first
    [ apply (acts_only_talk _ saved_refl saved_after); talk_leaf
    | apply (acts_only_talk _ saved_refl saved_after); solve [talk_go]
    | apply (acts_bind_talk _ saved_refl saved_after); [talk_leaf | intro]
    | apply (acts_bind_talk _ saved_refl saved_after); [solve [talk_go] | intro]
    | match goal with
      | |- acts _ (match ?x with _ => _ end) => destruct x
      | |- acts _ (let _ := _ in _) => cbv zeta
      end
    | apply acts_saved_commits; solve [commits_go] ].

Lemma saved_add_contact : acts saved contact_manager.add_contact.
Proof.
  unfold contact_manager.add_contact, contact_manager.save_contacts. saved_go.
Qed.

Lemma saved_add_task strptime_ok : acts saved (todo_manager.add_task strptime_ok).
Proof.
  unfold todo_manager.add_task, todo_manager.save_tasks. saved_go.
Qed.

Lemma saved_update_contact : acts saved contact_manager.update_contact.
Proof.
  unfold contact_manager.update_contact, contact_manager.save_contacts. saved_go.
Qed.

Lemma saved_delete_contact : acts saved contact_manager.delete_contact.
Proof.
  unfold contact_manager.delete_contact, contact_manager.save_contacts. saved_go.
Qed.

Lemma saved_delete_task : acts saved todo_manager.delete_task.
Proof.
  unfold todo_manager.delete_task, todo_manager.save_tasks. saved_go.
Qed.

Lemma saved_update_task strptime_ok : acts saved (todo_manager.update_task strptime_ok).
Proof.
  unfold todo_manager.update_task, todo_manager.save_tasks. saved_go.
Qed.

Lemma saved_toggle_step {A} (task : nat) (v : value) (k : value -> M A) :
  (forall completed, acts commits (k completed)) ->
  acts saved (bind (setitem_at task "completed" v) (fun _ =>
                bind (deref task) (fun t => bind (lift (py.getitem t "completed")) k))).
Proof.
  intros Hk w. unfold bind at 1 2 3, setitem_at, deref, lift. cbn [store].
  destruct (Nat.lt_ge_cases task (List.length (store w))) as [Hin | Hout].
  - rewrite nth_update_nth_same by exact Hin.
    unfold py.getitem. rewrite get_setitem_same. right.
    match goal with |- commits _ (snd (k _ ?w1)) => exact (Hk v w1) end.
  - rewrite update_nth_beyond by exact Hout.
    rewrite nth_overflow by exact Hout. left. repeat split.
Qed.

Lemma saved_toggle_completion : acts saved todo_manager.toggle_completion.
Proof.
  unfold todo_manager.toggle_completion, todo_manager.save_tasks. saved_go.
  apply saved_toggle_step. intro. cbv zeta. apply commits_save.
Qed.

Lemma saved_contacts_round : acts saved contact_manager.menu_round.
Proof.
  unfold contact_manager.menu_round.
  repeat (apply (acts_bind_talk _ saved_refl saved_after); [talk_leaf | intro]).
  unfold contact_manager.options. menu_lemmas.by_choice;
    auto using saved_add_contact, saved_update_contact, saved_delete_contact;
    apply (acts_only_talk _ saved_refl saved_after); talk_go.
Qed.

Lemma saved_tasks_round strptime_ok : acts saved (todo_manager.menu_round strptime_ok).
Proof.
  unfold todo_manager.menu_round.
  repeat (apply (acts_bind_talk _ saved_refl saved_after); [talk_leaf | intro]).
  unfold todo_manager.actions. menu_lemmas.by_choice;
    auto using saved_add_task, saved_update_task, saved_toggle_completion, saved_delete_task;
    apply (acts_only_talk _ saved_refl saved_after); talk_go.
Qed.

End persist_lemmas.

(** X3.  Every round of the menu of the contact manager, and of the
    to-do manager, either leaves the store and the file untouched, or
    writes the store exactly once, at its end: the file is then what
    this one write makes of it, the records as they are in the store
    when the write goes through. *)
Theorem every_change_is_written (strptime_ok : string -> bool) (w : world) :
  persist.saved w (snd (contact_manager.menu_round w))
  /\ persist.saved w (snd (todo_manager.menu_round strptime_ok w)).
Proof.
  split.
  - apply persist_lemmas.saved_contacts_round.
  - apply persist_lemmas.saved_tasks_round.
Qed.

Module restart_lemmas.

Lemma load_dumped (s : list py.dict) (w : world) :
  Forall spec.record s ->
  disk w = Holds (json.dump (VList (map VDict s))) ->
  record_store.load_records w = (Ok s, w).
Proof.
  intros Hrec Hd. destruct w as [s0 i o d fs]. simpl in Hd. subst d.
  unfold record_store.load_records, try_except, bind, path_exists, read_json, lift, ret.
  change (json.dump (VList (map VDict s))) with (json.Arr (map json.dump (map VDict s))).
  cbn [disk negb json.load].
  now rewrite (load_dump_records _ Hrec), map_result_dict_of.
Qed.

Lemma survives (round : M unit) (w : world) (lines : list string)
    (fs : list (option fault)) :
  persist.saved w (snd (round w)) ->
  spec.invariant (snd (round w)) ->
  hd None (faults w) = None ->
  store (snd (round w)) <> store w ->
  bind record_store.load_records set_store (mkWorld [] lines [] (disk (snd (round w))) fs)
  = (Ok tt, mkWorld (store (snd (round w))) lines [] (disk (snd (round w))) fs).
Proof.
  intros [(Hs & _) | (Hd & _)] [[Hrec _] _] Hf Hchange; [contradiction|].
  rewrite Hf in Hd. cbn [persist.written] in Hd.
  unfold bind. erewrite load_dumped; [reflexivity | exact Hrec | exact Hd].
Qed.

End restart_lemmas.

(** X4.  A change that was written survives a restart.  When a round
    of the menu changes the store in a world that the program can
    reach, and the write of this round goes through, then the next
    session, whenever it starts, begins with exactly the store that
    the round left: the same records in the same order. *)
Theorem written_change_survives_restart (strptime_ok : string -> bool)
    (start round : M unit) (w : world) (lines : list string) (fs : list (option fault)) :
  (start = contact_manager.main_menu_start /\ round = contact_manager.menu_round)
  \/ (start = todo_manager.main_menu_start
      /\ round = todo_manager.menu_round strptime_ok) ->
  spec.reachable start round w ->
  hd None (faults w) = None ->
  store (snd (round w)) <> store w ->
  spec.session start (disk (snd (round w))) lines fs
  = (Ok tt, mkWorld (store (snd (round w))) lines [] (disk (snd (round w))) fs).
Proof.
  intros [[-> ->] | [-> ->]] Hw Hf Hchange; unfold spec.session;
    apply restart_lemmas.survives; try assumption.
  - apply persist_lemmas.saved_contacts_round.
  - apply menu_lemmas.keeps_contacts_round, (menu_lemmas.contacts_invariant w Hw).
  - apply persist_lemmas.saved_tasks_round.
  - apply menu_lemmas.keeps_tasks_round, (menu_lemmas.tasks_invariant strptime_ok w Hw).
Qed.

(** X4 in the to-do manager: the second task of a session is added and
    written; a later session starts with both tasks. *)
Lemma written_change_survives_restart_witness :
  let strptime_ok := fun _ : string => true in
  let round := todo_manager.menu_round strptime_ok in
  let w0 := mkWorld [] ["1"; "a"; ""; ""; "1"; "b"; "2026-01-31"; "soon"] [] Absent [] in
  let w1 := snd (round w0) in
  map spec.id_of (store (snd (round w1))) = [Some (VInt 1); Some (VInt 2)]
  /\ spec.session todo_manager.main_menu_start (disk (snd (round w1))) ["2"] []
     = (Ok tt, mkWorld (store (snd (round w1))) ["2"] [] (disk (snd (round w1))) []).
Proof.
  intros strptime_ok round w0 w1. split; [reflexivity|].
  apply (written_change_survives_restart strptime_ok).
  - right. split; reflexivity.
  - apply spec.reach_step with (w := w0); [|apply spec.step_round].
    apply spec.reach_first with (lines := stdin w0) (fs := []). reflexivity.
  - reflexivity.
  - discriminate.
Defined.

(** ** Loading and saving at their edges *)

(** X5.  [load_contacts] and [load_tasks] return the empty list, and
    change nothing, when there is no file, when the file cannot be
    opened, when its text is not JSON, and when its JSON document is
    not a list. *)
Theorem load_falls_back_to_empty (w : world) :
  disk w = Absent \/ (exists msg, disk w = Unreadable msg) \/ disk w = Garbled
  \/ (exists j, disk w = Holds j /\ forall l, j <> json.Arr l) ->
  contact_manager.load_contacts w = (Ok [], w)
  /\ todo_manager.load_tasks w = (Ok [], w).
Proof.
  intros H.
  assert (E : record_store.load_records w = (Ok [], w)).
  { apply load_records_fallback.
    destruct H as [-> | [(msg & ->) | [-> | (j & -> & Hj)]]]; try exact I.
    destruct j; try exact I. exact (Hj l eq_refl). }
  split; exact E.
Qed.

(** X5 for a file that holds one record, not in a list. *)
Lemma load_falls_back_to_empty_witness :
  let w := mkWorld [] [] [] (Holds (json.Obj [("id", json.Int 1); ("name", json.Str "Ann")])) [] in
  contact_manager.load_contacts w = (Ok [], w)
  /\ todo_manager.load_tasks w = (Ok [], w).
Proof.
  intros w. apply (load_falls_back_to_empty w).
  right. right. right. eexists. split; [reflexivity | discriminate].
Defined.

(** X6.  A file whose document is a list of JSON objects is loaded
    without any check of the fields: there is one record per object,
    in the order of the list, each with the fields that [json.load]
    gives the object, whatever they are. *)
Theorem load_takes_objects_as_they_are (w : world) (ms : list (list (string * json.t))) :
  disk w = Holds (json.Arr (map json.Obj ms)) ->
  exists s,
    contact_manager.load_contacts w = (Ok s, w)
    /\ todo_manager.load_tasks w = (Ok s, w)
    /\ map VDict s = map (fun m => json.load (json.Obj m)) ms.
Proof.
  intros Hd.
  assert (Hmap : forall ms : list (list (string * json.t)),
            exists s, map_result py.dict_of (map json.load (map json.Obj ms)) = Ok s
                      /\ map VDict s = map (fun m => json.load (json.Obj m)) ms).
  { clear. induction ms as [|m ms (s & E & Hs)].
    - exists []. split; reflexivity.
    - eexists (_ :: s). cbn [map map_result json.load py.dict_of]. rewrite E.
      split; [reflexivity|]. cbn [map]. now rewrite Hs. }
  destruct (Hmap ms) as (s & E & Hs). exists s.
  assert (El : record_store.load_records w = (Ok s, w)).
  { destruct w as [s0 i o d fs]. simpl in Hd. subst d.
    unfold record_store.load_records, try_except, bind, path_exists, read_json, lift, ret.
    cbn [disk negb json.load]. now rewrite E. }
  split; [exact El|]. split; [exact El | exact Hs].
Qed.

(** X6 for a file with two objects of which neither is a contact: one
    has no fields, one has the key "id" twice. *)
Lemma load_takes_objects_as_they_are_witness :
  let w := mkWorld [] [] [] (Holds (json.Arr [json.Obj []; json.Obj [("id", json.Int 1); ("id", json.Null)]])) [] in
  contact_manager.load_contacts w = (Ok [[]; [(KStr "id", VNone)]], w)
  /\ exists s,
       contact_manager.load_contacts w = (Ok s, w)
       /\ todo_manager.load_tasks w = (Ok s, w)
       /\ map VDict s = map (fun m => json.load (json.Obj m)) [[]; [("id", json.Int 1); ("id", json.Null)]].
Proof.
  intros w. split; [reflexivity|].
  apply (load_takes_objects_as_they_are w). reflexivity.
Defined.

(** X7.  A failed save is reported and nothing more: when the write
    at the end of [add_contact] fails, the message "Error saving
    contacts: ..." is shown and, right after it, "Contact added
    successfully!".  The new contact is in the store; the file is as
    it was when it could not be opened, and cut short when the write
    broke off: not to be decoded when it broke off inside a character
    of several bytes. *)
Theorem add_contact_after_failed_save (w : world)
    (name phone email address : string) (rest : list string) (f : fault) :
  stdin w = name :: phone :: email :: address :: rest ->
  pystr.strip name <> "" -> pystr.strip phone <> "" ->
  hd None (faults w) = Some f ->
  contact_manager.add_contact w =
  (Ok tt,
   mkWorld
     (store w ++
        [[(KStr "id", VInt (contact_manager.generate_new_id (store w)));
          (KStr "name", VStr (pystr.strip name));
          (KStr "phone", VStr (pystr.strip phone));
          (KStr "email", VStr (pystr.strip email));
          (KStr "address", VStr (pystr.strip address))]])
     rest
     (stdout w ++
        [Print [Lit (nl ++ "=== Add New Contact ===")];
         Prompt [Lit "Enter name: "]; Prompt [Lit "Enter phone number: "];
         Prompt [Lit "Enter email: "]; Prompt [Lit "Enter address: "];
         Print [Lit "Error saving contacts: ";
                Lit match f with
                    | OpenFails msg | WriteFails msg | WriteSplits msg => msg
                    end];
         Print [Lit ("Contact added successfully!" ++ nl)]])
     (match f with
      | OpenFails _ => disk w
      | WriteFails _ => Garbled
      | WriteSplits _ =>
          if json.wide
               (json.dump
                  (VList (map VDict
                     (store w ++
                        [[(KStr "id", VInt (contact_manager.generate_new_id (store w)));
                          (KStr "name", VStr (pystr.strip name));
                          (KStr "phone", VStr (pystr.strip phone));
                          (KStr "email", VStr (pystr.strip email));
                          (KStr "address", VStr (pystr.strip address))]]))))
          then Undecodable else Garbled
      end)
     (tl (faults w))).
Proof.
  intros Hin Hname Hphone Hf. destruct w as [s i o d fs]. simpl in Hin. subst i.
  destruct fs as [|[f0|] fs]; simpl in Hf; try discriminate. injection Hf as ->.
  unfold contact_manager.add_contact, contact_manager.save_contacts. cbn.
  rewrite (run_lemmas.eqb_empty_false _ Hname), (run_lemmas.eqb_empty_false _ Hphone).
  cbn. unfold record_store.save_records, try_except, write_json, bind, get_store, set_store,
    print, with_stdout.
  destruct f as [msg | msg | msg]; cbn; rewrite <- !app_assoc; reflexivity.
Qed.

(** X7 when the file cannot be opened for writing. *)
Lemma add_contact_after_failed_save_witness :
  let w := mkWorld [] [" Ann "; "555"; ""; ""; "2"] [] Absent [Some (OpenFails "Permission denied")] in
  contact_manager.add_contact w =
  (Ok tt,
   mkWorld
     [[(KStr "id", VInt 1); (KStr "name", VStr "Ann"); (KStr "phone", VStr "555");
       (KStr "email", VStr ""); (KStr "address", VStr "")]]
     ["2"]
     [Print [Lit (nl ++ "=== Add New Contact ===")];
      Prompt [Lit "Enter name: "]; Prompt [Lit "Enter phone number: "];
      Prompt [Lit "Enter email: "]; Prompt [Lit "Enter address: "];
      Print [Lit "Error saving contacts: "; Lit "Permission denied"];
      Print [Lit ("Contact added successfully!" ++ nl)]]
     Absent []).
Proof.
  intros w.
  exact (add_contact_after_failed_save w " Ann " "555" "" "" ["2"]
           (OpenFails "Permission denied") eq_refl
           ltac:(vm_compute; discriminate) ltac:(vm_compute; discriminate) eq_refl).
Defined.

(** ** The operations of the to-do manager that ask for an identifier *)

Module by_id_lemmas.
Import frame frame_rules frame_tactics talk_lemmas store_lemmas run_lemmas todo_lemmas.

(** The list is shown, the line is read. *)
Ltac start_by_id Hne Hall Hin :=
  unfold bind at 1;
  let w1 := fresh "w1" in let E1 := fresh "E1" in
  let Hs := fresh "Hs" in let Hd := fresh "Hd" in let Hf := fresh "Hf" in
  let Hi := fresh "Hi" in
  match goal with
  | |- context [todo_manager.list_tasks ?w] =>
      destruct (list_tasks_ok w Hall) as (w1 & E1 & (Hs & Hd & Hf) & Hi);
      rewrite E1; destruct w1 as [s1 i1 o1 d1 f1]; simpl in Hs, Hd, Hf, Hi;
      rewrite Hin in Hi; subst s1 d1 f1 i1;
      unfold bind at 1, get_store at 1; cbn [store];
      destruct (store w) eqn:Es; [congruence|]; rewrite <- Es in *;
      unfold bind at 1, input at 1; cbn [stdin store stdout disk faults]
  end.

Lemma update_task_not_int strptime_ok (w : world) (line : string) (rest : list string) :
  store w <> [] -> Forall spec.listable (store w) -> stdin w = line :: rest ->
  pystr.int line = None ->
  exists shown,
    todo_manager.update_task strptime_ok w =
    (Ok tt, mkWorld (store w) rest
              (shown ++ [Print [Lit ("Invalid input. Update cancelled." ++ nl)]])
              (disk w) (faults w)).
Proof.
  intros Hne Hall Hin Hint. unfold todo_manager.update_task. start_by_id Hne Hall Hin.
  rewrite Hint. cbn. eexists. reflexivity.
Qed.

Lemma toggle_completion_not_int (w : world) (line : string) (rest : list string) :
  store w <> [] -> Forall spec.listable (store w) -> stdin w = line :: rest ->
  pystr.int line = None ->
  exists shown,
    todo_manager.toggle_completion w =
    (Ok tt, mkWorld (store w) rest
              (shown ++ [Print [Lit ("Invalid input. Operation cancelled." ++ nl)]])
              (disk w) (faults w)).
Proof.
  intros Hne Hall Hin Hint. unfold todo_manager.toggle_completion. start_by_id Hne Hall Hin.
  rewrite Hint. cbn. eexists. reflexivity.
Qed.

Lemma delete_task_not_int (w : world) (line : string) (rest : list string) :
  store w <> [] -> Forall spec.listable (store w) -> stdin w = line :: rest ->
  pystr.int line = None ->
  exists shown,
    todo_manager.delete_task w =
    (Ok tt, mkWorld (store w) rest
              (shown ++ [Print [Lit ("Invalid input. Deletion cancelled." ++ nl)]])
              (disk w) (faults w)).
Proof.
  intros Hne Hall Hin Hint. unfold todo_manager.delete_task. start_by_id Hne Hall Hin.
  rewrite Hint. cbn. eexists. reflexivity.
Qed.

Lemma update_task_no_match strptime_ok (w : world) (line : string) (rest : list string)
    (task_id : Z) :
  store w <> [] -> Forall spec.listable (store w) -> stdin w = line :: rest ->
  pystr.int line = Some task_id ->
  task_id = 0 \/ todo_manager.find_task_by_id (store w) task_id = None ->
  exists shown,
    todo_manager.update_task strptime_ok w =
    (Ok tt, mkWorld (store w) rest
              (shown ++ [Print [Lit (if task_id =? 0 then "Update cancelled." ++ nl
                                     else "Task not found." ++ nl)]])
              (disk w) (faults w)).
Proof.
  intros Hne Hall Hin Hint Hfind. unfold todo_manager.update_task. start_by_id Hne Hall Hin.
  rewrite Hint. destruct (Z.eqb_spec task_id 0) as [E0|E0].
  - cbn. eexists. reflexivity.
  - destruct Hfind as [? | Hfind]; [contradiction|].
    unfold bind at 1. rewrite find_task_run. cbn [store]. rewrite Hfind.
    cbn. eexists. reflexivity.
Qed.

Lemma toggle_completion_no_match (w : world) (line : string) (rest : list string)
    (task_id : Z) :
  store w <> [] -> Forall spec.listable (store w) -> stdin w = line :: rest ->
  pystr.int line = Some task_id ->
  task_id = 0 \/ todo_manager.find_task_by_id (store w) task_id = None ->
  exists shown,
    todo_manager.toggle_completion w =
    (Ok tt, mkWorld (store w) rest
              (shown ++ [Print [Lit (if task_id =? 0 then "Operation cancelled." ++ nl
                                     else "Task not found." ++ nl)]])
              (disk w) (faults w)).
Proof.
  intros Hne Hall Hin Hint Hfind. unfold todo_manager.toggle_completion.
  start_by_id Hne Hall Hin.
  rewrite Hint. destruct (Z.eqb_spec task_id 0) as [E0|E0].
  - cbn. eexists. reflexivity.
  - destruct Hfind as [? | Hfind]; [contradiction|].
    unfold bind at 1. rewrite find_task_run. cbn [store]. rewrite Hfind.
    cbn. eexists. reflexivity.
Qed.

End by_id_lemmas.

(** X8.  An answer that is no integer cancels: when [update_task],
    [toggle_completion] or [delete_task] asks for an identifier and
    the line typed is not a decimal integer, the operation reports
    "Invalid input. ... cancelled." and ends; it has read this one
    line, and the store, the file and the writes to come are as
    before. *)
Theorem bad_identifier_cancels (strptime_ok : string -> bool) (w : world)
    (line : string) (rest : list string) :
  store w <> [] -> Forall spec.listable (store w) -> stdin w = line :: rest ->
  pystr.int line = None ->
  exists shown1 shown2 shown3,
    todo_manager.update_task strptime_ok w =
    (Ok tt, mkWorld (store w) rest
              (shown1 ++ [Print [Lit ("Invalid input. Update cancelled." ++ nl)]])
              (disk w) (faults w))
    /\ todo_manager.toggle_completion w =
       (Ok tt, mkWorld (store w) rest
                 (shown2 ++ [Print [Lit ("Invalid input. Operation cancelled." ++ nl)]])
                 (disk w) (faults w))
    /\ todo_manager.delete_task w =
       (Ok tt, mkWorld (store w) rest
                 (shown3 ++ [Print [Lit ("Invalid input. Deletion cancelled." ++ nl)]])
                 (disk w) (faults w)).
Proof.
  intros Hne Hall Hin Hint.
  destruct (by_id_lemmas.update_task_not_int strptime_ok w line rest Hne Hall Hin Hint)
    as (shown1 & E1).
  destruct (by_id_lemmas.toggle_completion_not_int w line rest Hne Hall Hin Hint)
    as (shown2 & E2).
  destruct (by_id_lemmas.delete_task_not_int w line rest Hne Hall Hin Hint)
    as (shown3 & E3).
  exists shown1, shown2, shown3. split; [exact E1|]. split; [exact E2 | exact E3].
Qed.

(** X8 for the answer "one" and for the empty answer. *)
Lemma bad_identifier_cancels_witness :
  let t := [(KStr "id", VInt 1); (KStr "description", VStr "water the plants");
            (KStr "completed", VBool false); (KStr "due_date", VStr "");
            (KStr "notes", VStr "")] in
  let w := mkWorld [t] ["one"; "6"] [] Absent [] in
  exists shown1 shown2 shown3,
    todo_manager.update_task (fun _ => true) w =
    (Ok tt, mkWorld [t] ["6"]
              (shown1 ++ [Print [Lit ("Invalid input. Update cancelled." ++ nl)]])
              Absent [])
    /\ todo_manager.toggle_completion w =
       (Ok tt, mkWorld [t] ["6"]
                 (shown2 ++ [Print [Lit ("Invalid input. Operation cancelled." ++ nl)]])
                 Absent [])
    /\ todo_manager.delete_task w =
       (Ok tt, mkWorld [t] ["6"]
                 (shown3 ++ [Print [Lit ("Invalid input. Deletion cancelled." ++ nl)]])
                 Absent []).
Proof.
  intros t w.
  apply (bad_identifier_cancels (fun _ => true) w "one" ["6"]).
  - discriminate.
  - repeat econstructor.
  - reflexivity.
  - reflexivity.
Defined.

(** X9.  [update_task] and [toggle_completion] with an identifier that
    no task has: "Task not found." is reported, and the store and the
    file stay as they are; with 0, the answer that cancels, the report
    is "Update cancelled." and "Operation cancelled.". *)
Theorem unknown_identifier_changes_nothing (strptime_ok : string -> bool) (w : world)
    (line : string) (rest : list string) (task_id : Z) :
  store w <> [] -> Forall spec.listable (store w) -> stdin w = line :: rest ->
  pystr.int line = Some task_id ->
  task_id = 0 \/ todo_manager.find_task_by_id (store w) task_id = None ->
  exists shown1 shown2,
    todo_manager.update_task strptime_ok w =
    (Ok tt, mkWorld (store w) rest
              (shown1 ++ [Print [Lit (if task_id =? 0 then "Update cancelled." ++ nl
                                      else "Task not found." ++ nl)]])
              (disk w) (faults w))
    /\ todo_manager.toggle_completion w =
       (Ok tt, mkWorld (store w) rest
                 (shown2 ++ [Print [Lit (if task_id =? 0 then "Operation cancelled." ++ nl
                                         else "Task not found." ++ nl)]])
                 (disk w) (faults w)).
Proof.
  intros Hne Hall Hin Hint Hfind.
  destruct (by_id_lemmas.update_task_no_match strptime_ok w line rest task_id
              Hne Hall Hin Hint Hfind) as (shown1 & E1).
  destruct (by_id_lemmas.toggle_completion_no_match w line rest task_id
              Hne Hall Hin Hint Hfind) as (shown2 & E2).
  exists shown1, shown2. split; [exact E1 | exact E2].
Qed.

(** X9 for the identifier 7, typed with blanks around it, in a store
    whose only task has the identifier 1. *)
Lemma unknown_identifier_changes_nothing_witness :
  let t := [(KStr "id", VInt 1); (KStr "description", VStr "water the plants");
            (KStr "completed", VBool false); (KStr "due_date", VStr "");
            (KStr "notes", VStr "")] in
  let w := mkWorld [t] [" 7 "; "6"] [] Absent [] in
  exists shown1 shown2,
    todo_manager.update_task (fun _ => true) w =
    (Ok tt, mkWorld [t] ["6"] (shown1 ++ [Print [Lit ("Task not found." ++ nl)]]) Absent [])
    /\ todo_manager.toggle_completion w =
       (Ok tt, mkWorld [t] ["6"] (shown2 ++ [Print [Lit ("Task not found." ++ nl)]]) Absent []).
Proof.
  intros t w.
  apply (unknown_identifier_changes_nothing (fun _ => true) w " 7 " ["6"] 7).
  - discriminate.
  - repeat econstructor.
  - reflexivity.
  - reflexivity.
  - right. reflexivity.
Defined.

(** ** Taking a record out *)

Module removal_lemmas.
Import id_lemmas store_lemmas removal.

Lemma get_key_cong (d : py.dict) (k1 k2 : key) :
  py.key_eqb k1 k2 = true -> py.get d k1 = py.get d k2.
Proof.
  intros H. induction d as [|[k v] d IH]; simpl; [reflexivity|].
  rewrite (key_eqb_sym k k1), (key_eqb_cong _ _ k H), (key_eqb_sym k2 k), IH. reflexivity.
Qed.

(** Two records with different identifiers are not equal. *)
Lemma eqb_other_id (y t : py.dict) (m n : Z) :
  spec.has_id y m -> spec.has_id t n -> m <> n -> py.eqb (VDict y) (VDict t) = false.
Proof.
  unfold spec.has_id, spec.id_of. intros Hy Ht Hne. cbn [py.eqb].
  apply andb_false_intro2. induction y as [|[k v] y IH]; [discriminate|].
  simpl in Hy. destruct (py.key_eqb k "id") eqn:Ek.
  - injection Hy as ->. rewrite (get_key_cong t _ _ Ek), Ht. cbn [py.eqb py.num].
    apply Z.eqb_neq in Hne. now rewrite Hne.
  - rewrite (IH Hy). apply andb_false_r.
Qed.

Lemma eq_int_has_id (y : py.dict) (m n : Z) :
  spec.has_id y m -> py.eq_int (py.get_default y "id" VNone) n = (m =? n).
Proof. intros Hy. rewrite get_default_id, Hy. reflexivity. Qed.

Lemma find_from_none (from : nat) (s : list py.dict) (n : Z) :
  others n s -> todo_manager.find_from from s n = None.
Proof.
  intros H. revert from. induction H as [|y s (m & Hy & Hne) _ IH]; intros from;
    cbn [todo_manager.find_from]; [reflexivity|].
  rewrite (eq_int_has_id _ _ _ Hy). apply Z.eqb_neq in Hne. rewrite Hne. apply IH.
Qed.

Lemma find_from_split (from : nat) (s1 s2 : list py.dict) (t : py.dict) (n : Z) :
  others n s1 -> spec.has_id t n ->
  todo_manager.find_from from (s1 ++ t :: s2) n = Some (from + List.length s1)%nat.
Proof.
  intros H Ht. revert from. induction H as [|y s (m & Hy & Hne) _ IH]; intros from;
    cbn [todo_manager.find_from app List.length].
  - rewrite (eq_int_has_id _ _ _ Ht), Z.eqb_refl. f_equal. lia.
  - rewrite (eq_int_has_id _ _ _ Hy). apply Z.eqb_neq in Hne. rewrite Hne.
    rewrite IH. f_equal. lia.
Qed.

Lemma remove_from_at (j : nat) (s1 s2 : list py.dict) (t : py.dict) :
  Forall (fun y => py.eqb (VDict y) (VDict t) = false) s1 ->
  py.remove_from j (j + List.length s1) t (s1 ++ t :: s2) = (s1 ++ s2)%list.
Proof.
  intros H. revert j. induction H as [|y s Hy _ IH]; intros j;
    cbn [py.remove_from app List.length].
  - rewrite Nat.add_0_r, Nat.eqb_refl. reflexivity.
  - rewrite Hy. replace (j =? j + S (List.length s))%nat with false
      by (symmetry; apply Nat.eqb_neq; lia).
    cbn [orb]. f_equal. replace (j + S (List.length s))%nat with (S j + List.length s)%nat by lia.
    apply IH.
Qed.

Lemma remove_at (s1 s2 : list py.dict) (t : py.dict) (n : Z) :
  others n s1 -> spec.has_id t n ->
  py.remove (s1 ++ t :: s2) (List.length s1) = (s1 ++ s2)%list.
Proof.
  intros H Ht. unfold py.remove. rewrite nth_error_app2, Nat.sub_diag by lia. cbn [nth_error].
  apply (remove_from_at 0).
  eapply Forall_impl; [|exact H]. intros y (m & Hy & Hne). eapply eqb_other_id; eauto.
Qed.

(** In a good store the record with the identifier [n] is the only
    one. *)
Lemma good_store_others (s1 s2 : list py.dict) (t : py.dict) (n : Z) :
  spec.good_store (s1 ++ t :: s2) -> spec.has_id t n -> others n s1 /\ others n s2.
Proof.
  intros (_ & ns & Hids & Hsorted & _) Ht.
  destruct (ids_of_split _ _ _ Hids) as (ns1 & ns2' & -> & H1 & H2).
  inversion H2 as [|? ? n' ns2 Hid Hrest]; subst.
  assert (n' = n) by (unfold spec.has_id in *; congruence). subst n'.
  assert (Hlt : Forall (fun m => m < n) ns1 /\ Forall (fun m => n < m) ns2).
  { clear -Hsorted. induction ns1 as [|m ns1 IH]; simpl in Hsorted.
    - inversion Hsorted; subst. split; [constructor | assumption].
    - inversion Hsorted as [|? ? Hs Hm]; subst. destruct (IH Hs) as [Ha Hb].
      split; [|exact Hb]. constructor; [|exact Ha].
      rewrite Forall_app in Hm. destruct Hm as [_ Hm]. now inversion Hm. }
  destruct Hlt as [Hlt1 Hlt2]. split.
  - clear -H1 Hlt1. induction H1 as [|r s m ns Hr _ IH]; constructor.
    + exists m. split; [exact Hr|]. inversion Hlt1; subst. lia.
    + apply IH. now inversion Hlt1.
  - clear -Hrest Hlt2. induction Hrest as [|r s m ns Hr _ IH]; constructor.
    + exists m. split; [exact Hr|]. inversion Hlt2; subst. lia.
    + apply IH. now inversion Hlt2.
Qed.

End removal_lemmas.

Module delete_run_lemmas.
Import frame frame_rules frame_tactics talk_lemmas store_lemmas run_lemmas todo_lemmas.
Import by_id_lemmas removal_lemmas removal.

Lemma delete_task_found_run (w : world) (line confirm : string) (rest : list string)
    (task_id : Z) (l1 l2 : list py.dict) (t : py.dict) :
  store w = (l1 ++ t :: l2)%list -> others task_id l1 -> spec.has_id t task_id ->
  Forall spec.listable (store w) ->
  stdin w = line :: confirm :: rest ->
  pystr.int line = Some task_id -> task_id <> 0 ->
  exists res w',
    todo_manager.delete_task w = (res, w')
    /\ res = Ok tt /\ stdin w' = rest
    /\ if confirms confirm then
         store w' = (l1 ++ l2)%list
         /\ disk w' = persist.written (hd None (faults w)) (disk w) (l1 ++ l2)
         /\ last (stdout w') (Print []) = Print [Lit ("Task deleted successfully!" ++ nl)]
       else
         store w' = store w /\ disk w' = disk w
         /\ last (stdout w') (Print []) = Print [Lit ("Deletion aborted." ++ nl)].
Proof.
  intros Hs Hothers Ht Hall Hin Hint H0.
  assert (Hne : store w <> []) by (rewrite Hs; now destruct l1).
  assert (Hfind : todo_manager.find_task_by_id (store w) task_id = Some (List.length l1)).
  { unfold todo_manager.find_task_by_id. rewrite Hs.
    now rewrite (find_from_split 0 l1 l2 t task_id Hothers Ht). }
  assert (Hnth : nth (List.length l1) (store w) [] = t).
  { rewrite Hs, app_nth2, Nat.sub_diag by lia. reflexivity. }
  assert (Htrue : py.truthy (VDict t) = true).
  { destruct t; [discriminate Ht | reflexivity]. }
  assert (Hdesc : exists d, py.get t "description" = Some d).
  { rewrite Forall_forall in Hall. apply (Hall t). rewrite Hs. apply in_elt. }
  destruct Hdesc as (d & Hd).
  unfold todo_manager.delete_task. start_by_id Hne Hall Hin.
  rewrite Hint. apply Z.eqb_neq in H0. rewrite H0.
  unfold bind at 1. rewrite find_task_run. cbn [store]. rewrite Hfind, Hnth, Htrue.
  unfold bind at 1, deref at 1. cbn [store]. rewrite Hnth.
  unfold bind at 1, lift at 1, py.getitem. rewrite Hd.
  unfold bind at 1, input at 1. cbn [stdin store stdout disk faults].
  unfold confirms.
  destruct (String.eqb (pystr.lower (pystr.strip confirm)) "y"
            || String.eqb (pystr.lower (pystr.strip confirm)) "yes").
  - assert (Hrem : py.remove (store w) (List.length l1) = (l1 ++ l2)%list).
    { rewrite Hs. exact (remove_at l1 l2 t task_id Hothers Ht). }
    match goal with
    | |- context [bind get_store (fun c => bind (set_store (@?f c)) ?k) ?w1] =>
        destruct (commit_run "tasks" f [Lit ("Task deleted successfully!" ++ nl)] w1)
          as (H1 & H2 & H3 & H4 & _);
        destruct (persist_lemmas.commit_written "tasks" f
                    [Lit ("Task deleted successfully!" ++ nl)] w1) as [H5 _]
    end.
    cbn [store disk faults] in H2, H5. rewrite Hrem in H2, H5.
    eexists _, _. split; [apply surjective_pairing|].
    split; [exact H1|]. split; [exact H3|].
    split; [exact H2|]. split; [exact H5 | exact H4].
  - unfold print, with_stdout. cbn [store stdin stdout disk faults].
    eexists _, _. split; [reflexivity|]. cbn [store stdin stdout disk faults].
    rewrite last_last. repeat split.
Qed.

End delete_run_lemmas.

Module good_store_lemmas.
Import id_lemmas store_lemmas.

Lemma has_id_in_ids (s : list py.dict) (ns : list Z) (t : py.dict) (n : Z) :
  spec.ids_of s ns -> In t s -> spec.has_id t n -> In n ns.
Proof.
  induction 1 as [|r s m ns Hr _ IH]; intros Hin Ht; [destruct Hin|].
  destruct Hin as [-> | Hin].
  - left. unfold spec.has_id in *. congruence.
  - right. now apply IH.
Qed.

Lemma good_store_id_pos (s : list py.dict) (t : py.dict) (n : Z) :
  spec.good_store s -> In t s -> spec.has_id t n -> 1 <= n.
Proof.
  intros (_ & ns & Hids & _ & Hpos) Hin Ht. rewrite Forall_forall in Hpos.
  apply Hpos. eapply has_id_in_ids; eauto.
Qed.

End good_store_lemmas.

(** X10.  [delete_task] takes out the task asked for and no other.
    In a good store, when the identifier typed is the one of the task
    [t] and the answer to "Are you sure ...?" is "y" or "yes" (in any
    case of the letters, with blanks around it), the store afterwards
    is the store before without [t], the other tasks in their order;
    no task has the identifier any more; the store is written to the
    file.  With any other answer the deletion is aborted: the store
    and the file stay as they are. *)
Theorem delete_task_removes_that_task (w : world) (line confirm : string)
    (rest : list string) (task_id : Z) (t : py.dict) :
  spec.good_store (store w) -> Forall spec.listable (store w) ->
  In t (store w) -> spec.has_id t task_id ->
  stdin w = line :: confirm :: rest -> pystr.int line = Some task_id ->
  let r := todo_manager.delete_task w in
  fst r = Ok tt /\ stdin (snd r) = rest
  /\ if removal.confirms confirm then
       (exists s1 s2, store w = (s1 ++ t :: s2)%list /\ store (snd r) = (s1 ++ s2)%list)
       /\ todo_manager.find_task_by_id (store (snd r)) task_id = None
       /\ disk (snd r) = persist.written (hd None (faults w)) (disk w) (store (snd r))
       /\ last (stdout (snd r)) (Print []) = Print [Lit ("Task deleted successfully!" ++ nl)]
     else
       store (snd r) = store w /\ disk (snd r) = disk w
       /\ last (stdout (snd r)) (Print []) = Print [Lit ("Deletion aborted." ++ nl)].
Proof.
  intros Hgood Hall Hin Ht Hstdin Hint r. subst r.
  pose proof (good_store_lemmas.good_store_id_pos _ _ _ Hgood Hin Ht) as Hpos.
  destruct (in_split _ _ Hin) as (s1 & s2 & Hs).
  rewrite Hs in Hgood.
  destruct (removal_lemmas.good_store_others s1 s2 t task_id Hgood Ht) as [Ho1 Ho2].
  destruct (delete_run_lemmas.delete_task_found_run w line confirm rest task_id s1 s2 t
              Hs Ho1 Ht Hall Hstdin Hint ltac:(lia)) as (res & w' & E & -> & Hrest & Hif).
  rewrite E. cbn [fst snd]. split; [reflexivity|]. split; [exact Hrest|].
  destruct (removal.confirms confirm).
  - destruct Hif as (Hstore & Hdisk & Hlast). split; [|split; [|split]].
    + exists s1, s2. split; [exact Hs | exact Hstore].
    + rewrite Hstore. apply removal_lemmas.find_from_none.
      apply Forall_app. split; assumption.
    + rewrite Hstore. exact Hdisk.
    + exact Hlast.
  - exact Hif.
Qed.

(** X10 in a store of three tasks: the task 2 is deleted. *)
Lemma delete_task_removes_that_task_witness :
  let task := fun (n : Z) (d : string) =>
                [(KStr "id", VInt n); (KStr "description", VStr d);
                 (KStr "completed", VBool false); (KStr "due_date", VStr "");
                 (KStr "notes", VStr "")] in
  let w := mkWorld [task 1 "a"; task 2 "b"; task 4 "c"] ["2"; " Yes "] [] Absent [] in
  let r := todo_manager.delete_task w in
  store (snd r) = [task 1 "a"; task 4 "c"]
  /\ fst r = Ok tt /\ stdin (snd r) = []
  /\ (exists s1 s2, store w = (s1 ++ task 2 "b" :: s2)%list /\ store (snd r) = (s1 ++ s2)%list)
  /\ todo_manager.find_task_by_id (store (snd r)) 2 = None
  /\ disk (snd r) = persist.written (hd None (faults w)) (disk w) (store (snd r))
  /\ last (stdout (snd r)) (Print []) = Print [Lit ("Task deleted successfully!" ++ nl)].
Proof.
  intros task w r. split; [reflexivity|].
  apply (delete_task_removes_that_task w "2" " Yes " [] 2 (task 2 "b")).
  - split; [repeat constructor|].
    exists [1; 2; 4]. split; [repeat constructor|].
    split; [repeat constructor; lia | repeat constructor; lia].
  - repeat econstructor.
  - right. left. reflexivity.
  - reflexivity.
  - reflexivity.
  - reflexivity.
Defined.

(** ** Choosing a contact from a list *)

Module selection_lemmas.
Import frame frame_rules frame_tactics talk_lemmas store_lemmas run_lemmas search_lemmas.
Import selection.

Lemma select_loop_skip (contacts : list nat) (junk : list string) :
  Forall (refused (List.length contacts)) junk ->
  forall (fuel : nat) (tail : list string) (w : world),
    stdin w = (junk ++ tail)%list ->
    contact_manager.select_loop (List.length junk + fuel) contacts w
    = contact_manager.select_loop fuel contacts
        (mkWorld (store w) tail
           (stdout w ++ flat_map (fun _ => asked_again) junk) (disk w) (faults w)).
Proof.
  induction 1 as [|line junk (Hnb & Hbad) _ IH]; intros fuel tail w Hin.
  - destruct w as [s i o d fs]. simpl in Hin. subst i. cbn. now rewrite app_nil_r.
  - cbn [List.length Nat.add contact_manager.select_loop].
    unfold bind at 1, input at 1. rewrite Hin. cbn [app]. cbv zeta.
    rewrite (eqb_empty_false _ Hnb).
    assert (Hagain :
      (if pystr.str_isdigit (pystr.strip line)
       then match pystr.int (pystr.strip line) with
            | Some i =>
                if (1 <=? i) && (i <=? Z.of_nat (List.length contacts))
                then ret (nth_error contacts (Z.to_nat (i - 1)))
                else print [Lit "Invalid selection. Try again."] ;;
                     contact_manager.select_loop (List.length junk + fuel) contacts
            | None => raise ValueError
            end
       else print [Lit "Invalid selection. Try again."] ;;
            contact_manager.select_loop (List.length junk + fuel) contacts)
      = (print [Lit "Invalid selection. Try again."] ;;
         contact_manager.select_loop (List.length junk + fuel) contacts)).
    { destruct Hbad as [-> | (i & -> & Hout)]; [reflexivity|].
      destruct (pystr.str_isdigit (pystr.strip line)); [|reflexivity].
      destruct (Z.leb_spec 1 i); destruct (Z.leb_spec i (Z.of_nat (List.length contacts)));
        cbn [andb]; try reflexivity. lia. }
    rewrite Hagain. unfold bind at 1, print at 1. cbn [fst snd with_stdout store stdin stdout disk faults].
    rewrite (IH fuel tail) by reflexivity.
    unfold with_stdout. cbn [store stdin stdout disk faults flat_map].
    f_equal. f_equal. unfold asked_again. rewrite <- !app_assoc. reflexivity.
Qed.

(** The list of the contacts to choose from is shown. *)
Lemma listing_ok (contacts : list nat) (w : world) :
  showable (store w) contacts ->
  exists w',
    for_each (enumerate 1 contacts)
      (fun ic => contact_manager.print_line (fst ic) (snd ic)) w = (Ok tt, w')
    /\ shows w w' /\ exists listing, stdout w' = (stdout w ++ listing)%list.
Proof.
  intros Hshow. unfold showable in Hshow. rewrite Forall_forall in Hshow.
  generalize 1. revert w Hshow.
  induction contacts as [|ref contacts IH]; intros w Hshow start; cbn [enumerate for_each].
  - exists w. split; [reflexivity|]. split; [apply shows_refl|]. exists []. now rewrite app_nil_r.
  - destruct (Hshow ref (or_introl eq_refl)) as ((name & Hn) & (phone & Hp)).
    unfold bind at 1. unfold contact_manager.print_line at 1.
    unfold bind at 1, deref at 1. cbn [store fst snd].
    unfold bind at 1, lift at 1, py.getitem at 1. rewrite Hn.
    unfold bind at 1, lift at 1, py.getitem at 1. rewrite Hp.
    unfold print at 1.
    match goal with |- context [for_each _ _ ?w1] =>
      destruct (IH w1 (fun r Hr => Hshow r (or_intror Hr)) (start + 1)) as (w' & E & S & (l & Hl))
    end.
    exists w'. split; [exact E|]. split.
    + eapply shows_trans; [|exact S]. repeat split.
    + eexists. rewrite Hl. cbn [with_stdout stdout]. rewrite <- app_assoc. reflexivity.
Qed.

Lemma isdigit_not_blank (s : string) : pystr.str_isdigit s = true -> String.eqb s "" = false.
Proof. destruct s; [discriminate | reflexivity]. Qed.

Lemma select_contact_run (contacts : list nat) (w : world) (junk : list string)
    (line : string) (rest : list string) (res : result (option nat)) :
  contacts <> [] -> showable (store w) contacts ->
  stdin w = (junk ++ line :: rest)%list ->
  Forall (refused (List.length contacts)) junk ->
  (pystr.strip line = "" /\ res = Ok None)
  \/ (pystr.str_isdigit (pystr.strip line) = true /\ pystr.int (pystr.strip line) = None
      /\ res = Raise ValueError)
  \/ (exists i, pystr.str_isdigit (pystr.strip line) = true
                /\ pystr.int (pystr.strip line) = Some i
                /\ 1 <= i <= Z.of_nat (List.length contacts)
                /\ res = Ok (nth_error contacts (Z.to_nat (i - 1)))) ->
  exists listing,
    contact_manager.select_contact contacts w =
    (res,
     mkWorld (store w) rest
       (stdout w ++ listing ++ flat_map (fun _ => asked_again) junk ++
        [Prompt [Lit "Select a contact by number (or press Enter to cancel): "]])
       (disk w) (faults w)).
Proof.
  intros Hne Hshow Hin Hjunk Hline.
  unfold contact_manager.select_contact. destruct contacts as [|c0 contacts0]; [congruence|].
  set (contacts := c0 :: contacts0) in *.
  destruct (listing_ok contacts w Hshow) as (w1 & E1 & ((Hs & Hd & Hf) & Hi) & (listing & Ho)).
  unfold bind at 1. rewrite E1. exists listing.
  rewrite Hi, Hin, length_app. cbn [List.length].
  replace (S (List.length junk + S (List.length rest)))
    with (List.length junk + S (S (List.length rest)))%nat by lia.
  rewrite (select_loop_skip contacts junk Hjunk _ (line :: rest)) by (now rewrite Hi).
  cbn [contact_manager.select_loop]. unfold bind at 1, input at 1.
  cbn [store stdin stdout disk faults]. cbv zeta. rewrite Hs, Hd, Hf, Ho.
  destruct Hline as [(Hb & ->) | [(Hdig & Hint & ->) | (i & Hdig & Hint & Hr & ->)]].
  - rewrite Hb. cbn [String.eqb ret]. unfold ret. rewrite <- !app_assoc. reflexivity.
  - rewrite (isdigit_not_blank _ Hdig), Hdig, Hint. unfold raise.
    rewrite <- !app_assoc. reflexivity.
  - rewrite (isdigit_not_blank _ Hdig), Hdig, Hint.
    destruct (Z.leb_spec 1 i); [|lia].
    destruct (Z.leb_spec i (Z.of_nat (List.length contacts))); [|lia].
    cbn [andb]. unfold ret. rewrite <- !app_assoc. reflexivity.
Qed.

End selection_lemmas.

(** X11.  [select_contact] asks again after an answer that it
    refuses.  It refuses an answer, with its surrounding whitespace
    dropped, that is not blank and either is not made of digits only,
    as [str.isdigit] has it, or is a number that is not from 1 to the
    number of contacts listed: it shows "Invalid selection. Try
    again." and asks again.  After any number of such answers, a blank
    answer cancels: the result is [None]; and an answer made of digits
    that is the number [i], from 1 to the number of contacts listed,
    selects the [i]-th contact listed.  Only the lines up to this
    answer are read, and only the terminal is touched.  (An answer
    made of digits that [int] does not take is not refused: it ends
    [select_contact], see X12.) *)
Theorem select_contact_asks_until_valid (contacts : list nat) (w : world)
    (junk : list string) (line : string) (rest : list string) (picked : option nat) :
  contacts <> [] -> selection.showable (store w) contacts ->
  stdin w = (junk ++ line :: rest)%list ->
  Forall (selection.refused (List.length contacts)) junk ->
  (pystr.strip line = "" /\ picked = None)
  \/ (exists i, pystr.str_isdigit (pystr.strip line) = true
                /\ pystr.int (pystr.strip line) = Some i
                /\ 1 <= i <= Z.of_nat (List.length contacts)
                /\ picked = Some (nth (Z.to_nat (i - 1)) contacts 0%nat)) ->
  exists listing,
    contact_manager.select_contact contacts w =
    (Ok picked,
     mkWorld (store w) rest
       (stdout w ++ listing ++ flat_map (fun _ => selection.asked_again) junk ++
        [Prompt [Lit "Select a contact by number (or press Enter to cancel): "]])
       (disk w) (faults w)).
Proof.
  intros Hne Hshow Hin Hjunk Hline.
  apply (selection_lemmas.select_contact_run contacts w junk line rest (Ok picked)
           Hne Hshow Hin Hjunk).
  destruct Hline as [(Hb & ->) | (i & Hdig & Hint & Hr & ->)].
  - left. split; [exact Hb | reflexivity].
  - right. right. exists i. split; [exact Hdig|]. split; [exact Hint|]. split; [exact Hr|].
    f_equal. symmetry. apply nth_error_nth'. lia.
Qed.

(** X11 for the answers "0", "x" and "7", which are refused when two
    contacts are listed, followed by " 2 ". *)
Lemma select_contact_asks_until_valid_witness :
  let c := fun (n : Z) (name : string) =>
             [(KStr "id", VInt n); (KStr "name", VStr name); (KStr "phone", VStr "1");
              (KStr "email", VStr ""); (KStr "address", VStr "")] in
  let w := mkWorld [c 1 "Ann"; c 2 "Bob"; c 3 "Cy"] ["0"; "x"; "7"; " 2 "; "y"]
             [] Absent [] in
  exists listing,
    contact_manager.select_contact [0; 2]%nat w =
    (Ok (Some 2%nat),
     mkWorld (store w) ["y"]
       (stdout w ++ listing
        ++ flat_map (fun _ => selection.asked_again) ["0"; "x"; "7"]
        ++ [Prompt [Lit "Select a contact by number (or press Enter to cancel): "]])
       (disk w) (faults w)).
Proof.
  intros c w.
  apply (select_contact_asks_until_valid [0; 2]%nat w ["0"; "x"; "7"] " 2 " ["y"]).
  - discriminate.
  - repeat constructor; eexists; reflexivity.
  - reflexivity.
  - apply Forall_cons; [|apply Forall_cons; [|apply Forall_cons; [|apply Forall_nil]]];
      (split; [vm_compute; discriminate|]).
    + right. exists 0. split; [reflexivity | simpl; lia].
    + left. reflexivity.
    + right. exists 7. split; [reflexivity | simpl; lia].
  - right. exists 2. repeat split; simpl; lia.
Defined.

(** X12.  An answer made of digits that [int] does not take ends
    [select_contact] with [ValueError]: [str.isdigit] holds for the
    superscript digits, [int] refuses them, and nothing catches the
    error. *)
Theorem select_contact_raises_on_odd_digits (contacts : list nat) (w : world)
    (junk : list string) (line : string) (rest : list string) :
  contacts <> [] -> selection.showable (store w) contacts ->
  stdin w = (junk ++ line :: rest)%list ->
  Forall (selection.refused (List.length contacts)) junk ->
  pystr.str_isdigit (pystr.strip line) = true -> pystr.int (pystr.strip line) = None ->
  exists w',
    contact_manager.select_contact contacts w = (Raise ValueError, w')
    /\ store w' = store w /\ disk w' = disk w /\ stdin w' = rest.
Proof.
  intros Hne Hshow Hin Hjunk Hdig Hint.
  destruct (selection_lemmas.select_contact_run contacts w junk line rest (Raise ValueError)
              Hne Hshow Hin Hjunk) as (listing & E).
  { right. left. split; [exact Hdig|]. split; [exact Hint | reflexivity]. }
  eexists. split; [exact E|]. repeat split.
Qed.

(** X12 for the answer "2" written as a superscript, U+00B2. *)
Lemma select_contact_raises_on_odd_digits_witness :
  let c := [(KStr "id", VInt 1); (KStr "name", VStr "Ann"); (KStr "phone", VStr "1");
            (KStr "email", VStr ""); (KStr "address", VStr "")] in
  let w := mkWorld [c] [String (ascii_of_nat 178) ""] [] Absent [] in
  exists w',
    contact_manager.select_contact [0%nat] w = (Raise ValueError, w')
    /\ store w' = store w /\ disk w' = disk w /\ stdin w' = [].
Proof.
  intros c w.
  apply (select_contact_raises_on_odd_digits [0%nat] w [] (String (ascii_of_nat 178) "") []).
  - discriminate.
  - repeat constructor; eexists; reflexivity.
  - reflexivity.
  - constructor.
  - reflexivity.
  - reflexivity.
Defined.

(** ** Deleting a contact *)

Module delete_contact_lemmas.
Import frame frame_rules frame_tactics talk_lemmas store_lemmas run_lemmas search_lemmas.
Import id_lemmas removal_lemmas removal selection selection_lemmas.

(** What [search_contacts] does after the query is read only shows
    lines. *)
Lemma shows_search_tail (query : string) (contacts : list py.dict) :
  acts shows
    (results <- lift (contact_manager.filter_refs (contact_manager.matches query) 0 contacts) ;;
     match results with
     | [] => print [Lit ("No matching contacts found." ++ nl)]
     | _ =>
         print [Lit (nl ++ "Search Results:")] ;;
         for_each (enumerate 1 results)
           (fun ic => contact_manager.print_line (fst ic) (snd ic)) ;;
         print [Lit ""]
     end ;;
     ret results).
Proof. shows_go. Qed.

Lemma search_contacts_reads_one (w : world) (line : string) (rest : list string) :
  stdin w = line :: rest -> store w <> [] ->
  stdin (snd (contact_manager.search_contacts w)) = rest.
Proof.
  intros Hin Hne. unfold contact_manager.search_contacts.
  unfold bind at 1, get_store at 1. destruct (store w) as [|c s] eqn:Es; [congruence|].
  unfold bind at 1, input at 1. rewrite Hin. cbv zeta.
  match goal with |- stdin (snd (?m ?w1)) = _ =>
    pose proof (shows_search_tail (pystr.lower (pystr.strip line)) (c :: s) w1) as (_ & H)
  end.
  exact H.
Qed.

(** The record at a position of a good store, and the records around
    it. *)
Lemma good_store_at (s : list py.dict) (ref : nat) :
  spec.good_store s -> (ref < List.length s)%nat ->
  exists n,
    spec.has_id (nth ref s []) n
    /\ s = (firstn ref s ++ nth ref s [] :: skipn (S ref) s)%list
    /\ others n (firstn ref s) /\ others n (skipn (S ref) s).
Proof.
  intros Hgood Hr.
  assert (Hsplit : s = (firstn ref s ++ nth ref s [] :: skipn (S ref) s)%list).
  { rewrite <- (firstn_skipn ref s) at 1. f_equal.
    clear Hgood. revert ref Hr. induction s as [|x s IH]; intros [|ref] Hr; simpl in *;
      try lia; [reflexivity|]. apply IH. lia. }
  assert (Hid : exists n, spec.has_id (nth ref s []) n).
  { destruct Hgood as (_ & ns & Hids & _). clear Hsplit. revert ref Hr.
    induction Hids as [|r s n ns Hr0 _ IH]; intros [|ref] Hr; simpl in *; try lia.
    - now exists n.
    - apply IH. lia. }
  destruct Hid as (n & Hn). exists n. split; [exact Hn|]. split; [exact Hsplit|].
  rewrite Hsplit in Hgood. exact (good_store_others _ _ _ n Hgood Hn).
Qed.

Lemma delete_contact_run (w : world) (query choice confirm : string)
    (rest : list string) (i : Z) (refs : list nat) (ref : nat) (after : list py.dict) :
  spec.good_store (store w) -> Forall search.contact_fields (store w) ->
  stdin w = query :: choice :: confirm :: rest ->
  refs = search.positions (search.found (pystr.strip query)) 0 (store w) ->
  pystr.str_isdigit (pystr.strip choice) = true ->
  pystr.int (pystr.strip choice) = Some i ->
  1 <= i <= Z.of_nat (List.length refs) ->
  ref = nth (Z.to_nat (i - 1)) refs 0%nat ->
  after = (firstn ref (store w) ++ skipn (S ref) (store w))%list ->
  exists res w',
    contact_manager.delete_contact w = (res, w')
    /\ res = Ok tt /\ stdin w' = rest
    /\ if confirms confirm then
         store w' = after
         /\ disk w' = persist.written (hd None (faults w)) (disk w) after
         /\ last (stdout w') (Print []) = Print [Lit ("Contact deleted successfully!" ++ nl)]
       else
         store w' = store w /\ disk w' = disk w
         /\ last (stdout w') (Print []) = Print [Lit ("Deletion aborted." ++ nl)].
Proof.
  intros Hgood Hfields Hin Erefs Hdig Hint Hi Eref Eafter.
  assert (Hrange : Forall (fun r => r < List.length (store w))%nat refs).
  { rewrite Erefs. eapply Forall_impl; [|apply (positions_range _ 0 (store w))].
    simpl. intros; lia. }
  assert (Href : (ref < List.length (store w))%nat).
  { rewrite Forall_forall in Hrange. apply Hrange. rewrite Eref. apply nth_In. lia. }
  assert (Hne : store w <> []) by (destruct (store w); [simpl in Href; lia | discriminate]).
  assert (Hrefs : refs <> []) by (destruct refs; [simpl in Hi; lia | discriminate]).
  destruct (good_store_at (store w) ref Hgood Href) as (n & Hn & Hsplit & Ho1 & Ho2).
  assert (Hc : search.contact_fields (nth ref (store w) [])).
  { rewrite Forall_forall in Hfields. apply Hfields, nth_In, Href. }
  destruct Hc as (name & phone & Hname & Hphone).
  unfold contact_manager.delete_contact. unfold bind at 1, print at 1.
  set (w0 := with_stdout w (Print [Lit (nl ++ "=== Delete Contact ===")])).
  destruct (search_contacts_run w0 query (choice :: confirm :: rest) Hin Hfields)
    as (w1 & E1 & (Hs1 & Hd1 & Hf1)).
  pose proof (search_contacts_reads_one w0 query (choice :: confirm :: rest) Hin Hne) as Hi1.
  rewrite E1 in Hi1. cbn [snd] in Hi1.
  unfold bind at 1. rewrite E1. cbn [store w0 with_stdout] in *. rewrite <- Erefs.
  destruct refs as [|r0 refs0] eqn:Erefs0; [congruence|]. rewrite <- Erefs0 in *.
  destruct (select_contact_run refs w1 [] choice (confirm :: rest)
              (Ok (nth_error refs (Z.to_nat (i - 1))))) as (listing & E2).
  { exact Hrefs. }
  { unfold showable. rewrite Hs1. rewrite Forall_forall in Hrange, Hfields |- *.
    intros r Hr. destruct (Hfields (nth r (store w) [])) as (nm & ph & Hnm & Hph).
    - apply nth_In, Hrange, Hr.
    - split; eexists; eassumption. }
  { exact Hi1. }
  { constructor. }
  { right. right. exists i. repeat split; try assumption; lia. }
  unfold bind at 1. rewrite E2.
  rewrite (nth_error_nth' refs 0%nat) by lia. rewrite <- Eref.
  unfold bind at 1 2, deref at 1, ret at 1. cbn [store]. rewrite Hs1.
  assert (Htrue : py.truthy (VDict (nth ref (store w) [])) = true).
  { destruct (nth ref (store w) []); [discriminate Hname | reflexivity]. }
  rewrite Htrue.
  unfold bind at 1, deref at 1. cbn [store].
  unfold bind at 1, lift at 1, py.getitem. rewrite Hname.
  unfold bind at 1, input at 1. cbn [stdin store stdout disk faults].
  rewrite Hd1, Hf1. subst w0. cbn [with_stdout disk faults].
  unfold confirms.
  destruct (String.eqb (pystr.lower (pystr.strip confirm)) "y"
            || String.eqb (pystr.lower (pystr.strip confirm)) "yes").
  - assert (Hrem : py.remove (store w) ref = after).
    { assert (Hlen : List.length (firstn ref (store w)) = ref)
        by (rewrite length_firstn; lia).
      pose proof (remove_at (firstn ref (store w)) (skipn (S ref) (store w))
                    (nth ref (store w) []) n Ho1 Hn) as Hr.
      rewrite <- Hsplit, Hlen in Hr. rewrite Eafter. exact Hr. }
    match goal with
    | |- context [bind get_store (fun c => bind (set_store (@?f c)) ?k) ?w3] =>
        destruct (commit_run "contacts" f [Lit ("Contact deleted successfully!" ++ nl)] w3)
          as (H1 & H2 & H3 & H4 & _);
        destruct (persist_lemmas.commit_written "contacts" f
                    [Lit ("Contact deleted successfully!" ++ nl)] w3) as [H5 _]
    end.
    cbn [store disk faults] in H2, H5. rewrite Hrem in H2, H5.
    eexists _, _. split; [apply surjective_pairing|].
    split; [exact H1|]. split; [exact H3|].
    split; [exact H2|]. split; [exact H5 | exact H4].
  - unfold print, with_stdout. cbn [store stdin stdout disk faults].
    eexists _, _. split; [reflexivity|]. cbn [store stdin stdout disk faults].
    rewrite last_last. repeat split.
Qed.

End delete_contact_lemmas.

(** X13.  [delete_contact] takes out the contact chosen and no other.
    The user types a query, then the number [i] of one of the contacts
    found, then the answer to "Are you sure ...?".  In a good store
    whose contacts have a name and a phone number, the contact removed
    is the [i]-th of the contacts that the query matches, in the order
    of the store; the others stay, in their order, and the store is
    written to the file.  With an answer other than "y" or "yes" the
    deletion is aborted: the store and the file stay as they are. *)
Theorem delete_contact_removes_selected (w : world) (query choice confirm : string)
    (rest : list string) (i : Z) :
  spec.good_store (store w) -> Forall search.contact_fields (store w) ->
  stdin w = query :: choice :: confirm :: rest ->
  pystr.str_isdigit (pystr.strip choice) = true ->
  pystr.int (pystr.strip choice) = Some i ->
  let found := filter (search.found (pystr.strip query)) (store w) in
  1 <= i <= Z.of_nat (List.length found) ->
  let c := nth (Z.to_nat (i - 1)) found [] in
  let r := contact_manager.delete_contact w in
  fst r = Ok tt /\ stdin (snd r) = rest
  /\ if removal.confirms confirm then
       (exists s1 s2, store w = (s1 ++ c :: s2)%list /\ store (snd r) = (s1 ++ s2)%list)
       /\ disk (snd r) = persist.written (hd None (faults w)) (disk w) (store (snd r))
       /\ last (stdout (snd r)) (Print [])
          = Print [Lit ("Contact deleted successfully!" ++ nl)]
     else
       store (snd r) = store w /\ disk (snd r) = disk w
       /\ last (stdout (snd r)) (Print []) = Print [Lit ("Deletion aborted." ++ nl)].
Proof.
  intros Hgood Hfields Hin Hdig Hint found Hi c r. subst r.
  set (refs := search.positions (search.found (pystr.strip query)) 0 (store w)).
  assert (Hmap : map (fun k => nth k (store w) []) refs = found).
  { unfold found, refs.
    rewrite <- (search_lemmas.positions_filter (search.found (pystr.strip query)) 0 (store w)).
    apply map_ext. intros k. now rewrite Nat.sub_0_r. }
  assert (Hlen : List.length refs = List.length found).
  { rewrite <- Hmap. now rewrite length_map. }
  set (ref := nth (Z.to_nat (i - 1)) refs 0%nat).
  assert (Hc : nth ref (store w) [] = c).
  { unfold c. rewrite <- Hmap.
    rewrite (nth_indep (map (fun k => nth k (store w) []) refs) [] (nth 0%nat (store w) []))
      by (rewrite length_map; lia).
    now rewrite (map_nth (fun k => nth k (store w) [])). }
  assert (Href : (ref < List.length (store w))%nat).
  { pose proof (search_lemmas.positions_range (search.found (pystr.strip query)) 0 (store w))
      as Hr. rewrite Forall_forall in Hr.
    destruct (Hr ref) as [_ H]; [apply nth_In; fold refs; lia | exact H]. }
  destruct (delete_contact_lemmas.delete_contact_run w query choice confirm rest i refs ref
              (firstn ref (store w) ++ skipn (S ref) (store w))%list
              Hgood Hfields Hin eq_refl Hdig Hint ltac:(lia) eq_refl eq_refl)
    as (res & w' & E & -> & Hrest & Hif).
  rewrite E. cbn [fst snd]. split; [reflexivity|]. split; [exact Hrest|].
  destruct (removal.confirms confirm).
  - destruct Hif as (Hstore & Hdisk & Hlast). split; [|split].
    + exists (firstn ref (store w)), (skipn (S ref) (store w)). split; [|exact Hstore].
      rewrite <- Hc.
      destruct (delete_contact_lemmas.good_store_at (store w) ref Hgood Href)
        as (_ & _ & Hsplit & _). exact Hsplit.
    + rewrite Hstore. exact Hdisk.
    + exact Hlast.
  - exact Hif.
Qed.

(** X13 in a store of three contacts: the query "b" finds Bob and
    Barb, the second of them is chosen. *)
Lemma delete_contact_removes_selected_witness :
  let c := fun (n : Z) (name : string) =>
             [(KStr "id", VInt n); (KStr "name", VStr name); (KStr "phone", VStr "555");
              (KStr "email", VStr ""); (KStr "address", VStr "")] in
  let w := mkWorld [c 1 "Bob"; c 2 "Ann"; c 5 "Barb"] ["b"; "2"; "y"] [] Absent [] in
  let r := contact_manager.delete_contact w in
  store (snd r) = [c 1 "Bob"; c 2 "Ann"]
  /\ fst r = Ok tt /\ stdin (snd r) = []
  /\ (exists s1 s2, store w = (s1 ++ c 5 "Barb" :: s2)%list /\ store (snd r) = (s1 ++ s2)%list)
  /\ disk (snd r) = persist.written (hd None (faults w)) (disk w) (store (snd r))
  /\ last (stdout (snd r)) (Print []) = Print [Lit ("Contact deleted successfully!" ++ nl)].
Proof.
  intros c w r. split; [reflexivity|].
  apply (delete_contact_removes_selected w "b" "2" "y" [] 2).
  - split; [repeat constructor|].
    exists [1; 2; 5]. split; [repeat constructor|].
    split; [repeat constructor; lia | repeat constructor; lia].
  - repeat constructor; eexists _, _; split; reflexivity.
  - reflexivity.
  - reflexivity.
  - reflexivity.
  - vm_compute. split; discriminate.
Defined.

(** ** Showing the records *)

Module listing_lemmas.
Import frame frame_rules frame_tactics talk_lemmas store_lemmas run_lemmas todo_lemmas.

Lemma view_lines_ok (l : list (Z * py.dict)) (w : world) :
  for_each l
    (fun ic =>
       print [Fmt (VInt (fst ic)); Lit ". ";
              Fmt (py.get_default (snd ic) "name" (VStr "Unknown")); Lit " "; en_dash;
              Lit " "; Fmt (py.get_default (snd ic) "phone" (VStr ""))]) w
  = (Ok tt,
     mkWorld (store w) (stdin w)
       (stdout w ++ map (fun ic => listing.contact_line (fst ic) (snd ic)) l)
       (disk w) (faults w)).
Proof.
  revert w. induction l as [|ic l IH]; intros w; cbn [for_each map].
  - destruct w. cbn. now rewrite app_nil_r.
  - unfold bind at 1, print at 1. rewrite IH.
    cbn [with_stdout store stdin stdout disk faults].
    rewrite <- app_assoc. reflexivity.
Qed.

Lemma nth_error_enumerate {A} (start : Z) (l : list A) (i : nat) (x : A) :
  nth_error l i = Some x ->
  nth_error (enumerate start l) i = Some (start + Z.of_nat i, x).
Proof.
  revert start i. induction l as [|y l IH]; intros start [|i] H; simpl in H;
    try discriminate.
  - injection H as ->. simpl. now rewrite Z.add_0_r.
  - cbn [enumerate nth_error]. rewrite (IH (start + 1) i H). f_equal. f_equal. lia.
Qed.

Lemma length_enumerate {A} (start : Z) (l : list A) :
  List.length (enumerate start l) = List.length l.
Proof. revert start. induction l; intros; simpl; auto. Qed.

(** A task that cannot be shown: [task['id']] or [task['description']]
    raises. *)
Lemma print_task_fails (t : py.dict) (w : world) :
  ~ spec.listable t ->
  todo_manager.print_task t w = (Raise KeyError, w).
Proof.
  intros Hn. unfold todo_manager.print_task, bind, lift, py.getitem.
  destruct (py.get t "id") as [i|] eqn:Ei; [|reflexivity].
  destruct (py.get t "description") as [d|] eqn:Ed; [|reflexivity].
  exfalso. apply Hn. split; eauto.
Qed.

Lemma listable_dec (t : py.dict) : spec.listable t \/ ~ spec.listable t.
Proof.
  unfold spec.listable.
  destruct (py.get t "id") as [i|]; [|right; intros ((i & Hi) & _); discriminate].
  destruct (py.get t "description") as [d|]; [|right; intros (_ & (d & Hd)); discriminate].
  left. split; eauto.
Qed.

Lemma for_each_print_task (l : list py.dict) (w : world) :
  exists w',
    shows w w'
    /\ ((Forall spec.listable l /\ for_each l todo_manager.print_task w = (Ok tt, w'))
        \/ (~ Forall spec.listable l
            /\ for_each l todo_manager.print_task w = (Raise KeyError, w'))).
Proof.
  revert w. induction l as [|t l IH]; intros w; cbn [for_each].
  - exists w. split; [apply shows_refl|]. left. split; [constructor | reflexivity].
  - destruct (listable_dec t) as [Ht | Ht].
    + destruct (print_task_ok t w Ht) as (w1 & E1 & S1). unfold bind. rewrite E1.
      destruct (IH w1) as (w' & S & [(Hall & E) | (Hno & E)]); exists w';
        (split; [eapply shows_trans; eauto|]); [left | right]; (split; [|exact E]).
      * now constructor.
      * intros H. apply Hno. now inversion H.
    + exists w. split; [apply shows_refl|]. right. split.
      * intros H. apply Ht. now inversion H.
      * unfold bind. now rewrite (print_task_fails t w Ht).
Qed.

Lemma list_tasks_run (w : world) :
  exists res w',
    todo_manager.list_tasks w = (res, w') /\ shows w w'
    /\ ((Forall spec.listable (store w) /\ res = Ok tt)
        \/ (~ Forall spec.listable (store w) /\ res = Raise KeyError)).
Proof.
  unfold todo_manager.list_tasks. unfold bind at 1, print at 1.
  unfold bind at 1, get_store at 1. cbn [with_stdout store].
  destruct (store w) as [|t s] eqn:Es.
  - eexists _, _. split; [reflexivity|]. split; [repeat split|].
    left. split; [constructor | reflexivity].
  - match goal with |- context [bind (for_each ?l _) _ ?w1] =>
      destruct (for_each_print_task l w1) as (w' & S & [(Hall & E) | (Hno & E)])
    end; unfold bind; rewrite E.
    + eexists _, _. split; [reflexivity|]. split; [|left; split; [exact Hall | reflexivity]].
      eapply shows_trans; [|eapply shows_trans; [exact S|]]; repeat split.
    + eexists _, _. split; [reflexivity|]. split; [|right; split; [exact Hno | reflexivity]].
      eapply shows_trans; [|exact S]. repeat split.
Qed.

End listing_lemmas.

(** X14.  What [view_contacts] shows, for records whose text has
    code points below U+0100, on a terminal that takes it.  It shows
    the heading and then, for the empty store, "No contacts found.";
    for any other store one line for each contact, in the order of
    the store and numbered from 1, with the name and the phone number
    of the contact, where a contact without a name is shown as
    "Unknown" and one without a phone number with an empty one, and
    after these lines an empty line.  It returns, reads nothing and
    changes nothing but the terminal. *)
Theorem view_contacts_shows_every_contact (w : world) :
  exists lines,
    contact_manager.view_contacts w
    = (Ok tt,
       mkWorld (store w) (stdin w)
         (stdout w ++ Print [Lit (nl ++ "=== Contact List ===")] :: lines)
         (disk w) (faults w))
    /\ (store w = [] -> lines = [Print [Lit ("No contacts found." ++ nl)]])
    /\ (store w <> [] ->
        List.length lines = S (List.length (store w))
        /\ nth_error lines (List.length (store w)) = Some (Print [Lit ""])
        /\ forall i c,
             nth_error (store w) i = Some c ->
             nth_error lines i = Some (listing.contact_line (Z.of_nat i + 1) c)).
Proof.
  unfold contact_manager.view_contacts. unfold bind at 1, print at 1.
  unfold bind at 1, get_store at 1. cbn [with_stdout store].
  destruct (store w) as [|c s] eqn:Es.
  - eexists [_]. unfold print, with_stdout. cbn [store stdin stdout disk faults].
    rewrite <- app_assoc. rewrite Es. split; [reflexivity|].
    split; [reflexivity | intros H; now contradiction H].
  - set (l := enumerate 1 (c :: s)).
    unfold bind at 1. rewrite (listing_lemmas.view_lines_ok l).
    unfold print, with_stdout. cbn [store stdin stdout disk faults].
    exists (map (fun ic => listing.contact_line (fst ic) (snd ic)) l ++ [Print [Lit ""]])%list.
    rewrite <- !app_assoc. rewrite Es.
    split; [reflexivity|]. split; [discriminate|]. intros _.
    assert (Hl : List.length (map (fun ic => listing.contact_line (fst ic) (snd ic)) l)
                 = List.length (c :: s)).
    { unfold l. now rewrite length_map, listing_lemmas.length_enumerate. }
    split; [rewrite length_app, Hl; simpl; lia|]. split.
    + rewrite nth_error_app2 by (rewrite Hl; lia). rewrite Hl, Nat.sub_diag. reflexivity.
    + intros i x Hi.
      rewrite nth_error_app1
        by (rewrite Hl; apply nth_error_Some; rewrite Hi; discriminate).
      rewrite nth_error_map. unfold l.
      rewrite (listing_lemmas.nth_error_enumerate 1 (c :: s) i x Hi). cbn [option_map fst snd].
      f_equal. f_equal. lia.
Qed.

(** X14 for a store of two contacts, the second without a name: its
    line is "2. Unknown", a dash and its phone number. *)
Example view_contacts_shows_every_contact_witness :
  let w := mkWorld [[(KStr "name", VStr "Ann"); (KStr "phone", VStr "555")];
                    [(KStr "phone", VStr "556")]] ["x"] [] Absent [] in
  contact_manager.view_contacts w
  = (Ok tt,
     mkWorld (store w) ["x"]
       [Print [Lit (nl ++ "=== Contact List ===")];
        Print [Fmt (VInt 1); Lit ". "; Fmt (VStr "Ann"); Lit " "; en_dash; Lit " ";
               Fmt (VStr "555")];
        Print [Fmt (VInt 2); Lit ". "; Fmt (VStr "Unknown"); Lit " "; en_dash; Lit " ";
               Fmt (VStr "556")];
        Print [Lit ""]]
       Absent []).
Proof.
  intros w.
  destruct (view_contacts_shows_every_contact w) as (lines & E & _ & H).
  destruct (H ltac:(discriminate)) as (Hlen & Hend & Hline).
  rewrite E. f_equal. f_equal.
  destruct lines as [|l1 [|l2 [|l3 [|l4 lines]]]]; try discriminate Hlen.
  pose proof (Hline 0%nat _ eq_refl) as H1. pose proof (Hline 1%nat _ eq_refl) as H2.
  cbn in H1, H2, Hend. injection H1 as ->. injection H2 as ->. injection Hend as ->.
  reflexivity.
Defined.

(** X15.  [list_tasks] goes through exactly when every task has an
    identifier and a description; a task without one of them ends it
    with [KeyError], after the tasks before it were shown.  Either way
    nothing but the terminal changes. *)
Theorem list_tasks_needs_id_and_description (w : world) :
  let r := todo_manager.list_tasks w in
  frame.shows w (snd r)
  /\ ((Forall spec.listable (store w) /\ fst r = Ok tt)
      \/ (~ Forall spec.listable (store w) /\ fst r = Raise KeyError)).
Proof.
  intros r. subst r.
  destruct (listing_lemmas.list_tasks_run w) as (res & w' & E & S & H).
  rewrite E. cbn [fst snd]. split; [exact S | exact H].
Qed.

Module search_error_lemmas.

Lemma matches_raises_only (query : string) (c : py.dict) (e : exn) :
  contact_manager.matches query c = Raise e -> e = AttributeError.
Proof.
  unfold contact_manager.matches, contact_manager.str_lower.
  destruct (py.get_default c "name" (VStr "")); try (now intros [= <-]).
  destruct (pystr.contains query (pystr.lower s)); [discriminate|].
  destruct (py.get_default c "phone" (VStr "")); now intros [= <-].
Qed.

Lemma matches_non_text_name (query : string) (c : py.dict) (v : value) :
  py.get c "name" = Some v -> (forall s, v <> VStr s) ->
  contact_manager.matches query c = Raise AttributeError.
Proof.
  intros Hget Hv. unfold contact_manager.matches, py.get_default. rewrite Hget.
  destruct v; try reflexivity. now destruct (Hv s).
Qed.

Lemma filter_refs_raises (query : string) (from : nat) (l : list py.dict) (c : py.dict) :
  In c l -> contact_manager.matches query c = Raise AttributeError ->
  contact_manager.filter_refs (contact_manager.matches query) from l = Raise AttributeError.
Proof.
  intros Hin Hc. revert from. induction l as [|x l IH]; intros from; [destruct Hin|].
  cbn [contact_manager.filter_refs].
  destruct (contact_manager.matches query x) as [b|e] eqn:Ex.
  - destruct Hin as [-> | Hin]; [congruence|]. now rewrite (IH Hin).
  - now rewrite (matches_raises_only _ _ _ Ex).
Qed.

End search_error_lemmas.

(** X16.  A contact whose name is not text makes every search fail:
    when some contact of the store has, under "name", a value that is
    not a string ([null] or a number in the file, say), then
    [search_contacts] ends with [AttributeError] once the query is
    read, whatever the query; the store and the file are not
    touched. *)
Theorem search_raises_on_non_text_name (w : world) (line : string) (rest : list string)
    (c : py.dict) (v : value) :
  stdin w = line :: rest ->
  In c (store w) -> py.get c "name" = Some v -> (forall s, v <> VStr s) ->
  contact_manager.search_contacts w
  = (Raise AttributeError,
     mkWorld (store w) rest
       (stdout w ++ [Prompt [Lit (nl ++ "Enter name or phone number to search: ")]])
       (disk w) (faults w)).
Proof.
  intros Hin Hc Hget Hv. unfold contact_manager.search_contacts.
  unfold bind at 1, get_store at 1.
  destruct (store w) as [|c0 s] eqn:Es; [destruct Hc|].
  unfold bind at 1, input at 1. rewrite Hin. cbv zeta.
  unfold bind at 1, lift at 1.
  rewrite (search_error_lemmas.filter_refs_raises _ 0 (c0 :: s) c Hc
             (search_error_lemmas.matches_non_text_name _ c v Hget Hv)).
  rewrite Es. reflexivity.
Qed.

(** X16 for a file in which the name of the second contact is
    [null]. *)
Lemma search_raises_on_non_text_name_witness :
  let d := Holds (json.Arr
             [json.Obj [("id", json.Int 1); ("name", json.Str "Ann"); ("phone", json.Str "1")];
              json.Obj [("id", json.Int 2); ("name", json.Null); ("phone", json.Str "2")]]) in
  let w := snd (contact_manager.main_menu_start (mkWorld [] ["ann"] [] d [])) in
  contact_manager.search_contacts w
  = (Raise AttributeError,
     mkWorld (store w) []
       (stdout w ++ [Prompt [Lit (nl ++ "Enter name or phone number to search: ")]])
       (disk w) (faults w)).
Proof.
  intros d w.
  apply (search_raises_on_non_text_name w "ann" []
           [(KStr "id", VInt 2); (KStr "name", VNone); (KStr "phone", VStr "2")] VNone).
  - reflexivity.
  - right. left. reflexivity.
  - reflexivity.
  - discriminate.
Defined.

(** ** The dialogue of the password generator *)

Module dialogue_lemmas.
Import run_lemmas yes_no.

Lemma says_eqb (line : string) (b : bool) :
  says line b ->
  (String.eqb (answer line) "y" || String.eqb (answer line) "yes" = b)
  /\ (b = false -> String.eqb (answer line) "n" || String.eqb (answer line) "no" = true).
Proof.
  destruct b; intros [H | H]; rewrite H; split; try reflexivity; discriminate.
Qed.

Lemma unclear_eqb (line : string) :
  unclear line ->
  String.eqb (answer line) "y" || String.eqb (answer line) "yes" = false
  /\ String.eqb (answer line) "n" || String.eqb (answer line) "no" = false.
Proof.
  intros H. unfold unclear in H. simpl in H.
  split; apply orb_false_intro; apply String.eqb_neq; intros E; apply H; rewrite E; tauto.
Qed.

Lemma ask_loop_skip (prompt : string) (junk : list string) :
  Forall unclear junk ->
  forall (fuel : nat) (tail : list string) (w : world),
    stdin w = (junk ++ tail)%list ->
    password_generator.ask_loop (List.length junk + fuel) prompt w
    = password_generator.ask_loop fuel prompt
        (mkWorld (store w) tail
           (stdout w ++ flat_map (fun _ => asked_again prompt) junk) (disk w) (faults w)).
Proof.
  induction 1 as [|line junk Hline _ IH]; intros fuel tail w Hin.
  - destruct w as [s i o d fs]. simpl in Hin. subst i. cbn. now rewrite app_nil_r.
  - cbn [List.length Nat.add password_generator.ask_loop].
    unfold bind at 1, input at 1. rewrite Hin. cbn [app]. cbv zeta.
    destruct (unclear_eqb line Hline) as [Hy Hn]. unfold answer in Hy, Hn. rewrite Hy, Hn.
    unfold bind at 1, print at 1. cbn [fst snd].
    rewrite (IH fuel tail) by reflexivity.
    unfold with_stdout. cbn [store stdin stdout disk faults flat_map].
    f_equal. f_equal. unfold asked_again. rewrite <- !app_assoc. reflexivity.
Qed.

Lemma ask_yes_no_run (prompt : string) (w : world) (junk : list string) (line : string)
    (rest : list string) (b : bool) :
  stdin w = (junk ++ line :: rest)%list -> Forall unclear junk -> says line b ->
  password_generator.ask_yes_no prompt w
  = (Ok b,
     mkWorld (store w) rest
       (stdout w ++ flat_map (fun _ => asked_again prompt) junk ++ [Prompt [Lit prompt]])
       (disk w) (faults w)).
Proof.
  intros Hin Hjunk Hline. unfold password_generator.ask_yes_no.
  rewrite Hin, length_app. cbn [List.length].
  replace (S (List.length junk + S (List.length rest)))
    with (List.length junk + S (S (List.length rest)))%nat by lia.
  rewrite (ask_loop_skip prompt junk Hjunk _ (line :: rest) w Hin).
  cbn [password_generator.ask_loop]. unfold bind at 1, input at 1.
  cbn [store stdin stdout disk faults]. cbv zeta.
  destruct (says_eqb line b Hline) as [Hy Hn]. unfold answer in Hy, Hn. rewrite Hy.
  destruct b.
  - unfold ret. rewrite <- !app_assoc. reflexivity.
  - rewrite (Hn eq_refl). unfold ret. rewrite <- !app_assoc. reflexivity.
Qed.

Lemma length_loop_skip (bad : list string) :
  Forall not_a_length bad ->
  forall (fuel : nat) (tail : list string) (w : world),
    stdin w = (bad ++ tail)%list ->
    password_generator.length_loop (List.length bad + fuel) w
    = password_generator.length_loop fuel
        (mkWorld (store w) tail
           (stdout w ++ flat_map length_asked_again bad) (disk w) (faults w)).
Proof.
  induction 1 as [|line bad Hline _ IH]; intros fuel tail w Hin.
  - destruct w as [s i o d fs]. simpl in Hin. subst i. cbn. now rewrite app_nil_r.
  - cbn [List.length Nat.add password_generator.length_loop].
    unfold bind at 1, input at 1. rewrite Hin. cbn [app].
    unfold not_a_length in Hline. cbn [flat_map]. unfold length_asked_again at 1.
    destruct (pystr.int line) as [n|] eqn:En.
    + destruct (Z.leb_spec n 0) as [_ | Hpos]; [|specialize (Hline n eq_refl); lia].
      unfold bind at 1, print at 1. cbn [fst snd].
      rewrite (IH fuel tail) by reflexivity.
      unfold with_stdout. cbn [store stdin stdout disk faults].
      f_equal. f_equal. rewrite <- !app_assoc. reflexivity.
    + unfold bind at 1, print at 1. cbn [fst snd].
      rewrite (IH fuel tail) by reflexivity.
      unfold with_stdout. cbn [store stdin stdout disk faults].
      f_equal. f_equal. rewrite <- !app_assoc. reflexivity.
Qed.

End dialogue_lemmas.

(** X17.  [ask_yes_no] asks until it gets "y", "yes", "n" or "no", in
    any case of the letters and with blanks around: for every other
    answer it shows "Please answer with 'y' or 'n'." and asks again.
    It returns [True] for "y" and "yes", [False] for "n" and "no",
    and reads no line beyond this answer. *)
Theorem ask_yes_no_asks_until_answered (prompt : string) (w : world)
    (junk : list string) (line : string) (rest : list string) (b : bool) :
  stdin w = (junk ++ line :: rest)%list ->
  Forall yes_no.unclear junk -> yes_no.says line b ->
  password_generator.ask_yes_no prompt w
  = (Ok b,
     mkWorld (store w) rest
       (stdout w ++ flat_map (fun _ => yes_no.asked_again prompt) junk
        ++ [Prompt [Lit prompt]])
       (disk w) (faults w)).
Proof. apply dialogue_lemmas.ask_yes_no_run. Qed.

(** X17 for the answers "maybe" and "", then " YES ". *)
Lemma ask_yes_no_asks_until_answered_witness :
  let w := mkWorld [] ["maybe"; ""; " YES "; "n"] [] Absent [] in
  password_generator.ask_yes_no "Include digits? (y/n): " w
  = (Ok true,
     mkWorld [] ["n"]
       [Prompt [Lit "Include digits? (y/n): "]; Print [Lit "Please answer with 'y' or 'n'."];
        Prompt [Lit "Include digits? (y/n): "]; Print [Lit "Please answer with 'y' or 'n'."];
        Prompt [Lit "Include digits? (y/n): "]]
       Absent []).
Proof.
  intros w.
  apply (ask_yes_no_asks_until_answered "Include digits? (y/n): " w ["maybe"; ""] " YES "
           ["n"] true).
  - reflexivity.
  - apply Forall_cons; [|apply Forall_cons; [|apply Forall_nil]];
      vm_compute; intros [H | [H | [H | [H | []]]]]; discriminate H.
  - right. reflexivity.
Defined.

Module main_lemmas.
Import password_generator.

Lemma generate_password_ok (randbelow : nat -> nat -> nat)
    (randbelow_lt : forall i n, (0 < n)%nat -> (randbelow i n < n)%nat)
    (length : Z) (bu bl bd bs : bool) :
  0 < length -> bu || bl || bd || bs = true ->
  exists password,
    generate_password randbelow length bu bl bd bs = Ok password
    /\ String.length password = Z.to_nat length.
Proof.
  intros Hpos Hsome. unfold generate_password.
  destruct (Z.leb_spec length 0) as [Hle | _]; [lia|]. cbv zeta.
  match goal with |- context [String.eqb ?cs ""] => set (characters := cs) end.
  destruct (String.eqb characters "") eqn:Hempty.
  - exfalso. subst characters.
    destruct bl, bu, bd, bs; try discriminate Hempty; discriminate Hsome.
  - destruct (password_generator_proofs.join_choices_ok randbelow randbelow_lt
                characters length (string_eqb_empty_length _ Hempty)) as (p & Hp & Hlen & _).
    exists p. split; assumption.
Qed.

Lemma length_loop_run (w : world) (bad : list string) (line : string) (rest : list string)
    (length : Z) :
  stdin w = (bad ++ line :: rest)%list -> Forall yes_no.not_a_length bad ->
  pystr.int line = Some length -> 0 < length ->
  length_loop (S (List.length (stdin w))) w
  = (Ok length,
     mkWorld (store w) rest
       (stdout w ++ flat_map yes_no.length_asked_again bad
        ++ [Prompt [Lit "Enter the desired password length (positive integer): "]])
       (disk w) (faults w)).
Proof.
  intros Hin Hbad Hint Hpos. rewrite Hin at 1. rewrite length_app. cbn [List.length].
  replace (S (List.length bad + S (List.length rest)))
    with (List.length bad + S (S (List.length rest)))%nat by lia.
  rewrite (dialogue_lemmas.length_loop_skip bad Hbad _ (line :: rest) w Hin).
  cbn [length_loop]. unfold bind at 1, input at 1.
  cbn [store stdin stdout disk faults]. rewrite Hint.
  destruct (Z.leb_spec length 0) as [Hle | _]; [lia|].
  unfold ret. rewrite <- !app_assoc. reflexivity.
Qed.

End main_lemmas.

(** X18.  The dialogue of [main].  The length is asked for until the
    line typed is a positive integer; then the four questions are put,
    in the order uppercase, lowercase, digits, symbols.  When at least
    one of them is answered with yes, [main] shows "Generated
    password: " with the password that [generate_password] returns
    for these choices, which has the length asked for.  When all four
    are answered with no, it shows the error of [generate_password]
    and "Unable to generate password with the selected options.", and
    no password.  Either way [main] returns. *)
Theorem main_shows_password_or_error
    (randbelow : nat -> nat -> nat)
    (randbelow_lt : forall i n, (0 < n)%nat -> (randbelow i n < n)%nat)
    (w : world) (bad : list string) (len_line u l d s : string) (rest : list string)
    (length : Z) (bu bl bd bs : bool) :
  stdin w = (bad ++ len_line :: u :: l :: d :: s :: rest)%list ->
  Forall yes_no.not_a_length bad ->
  pystr.int len_line = Some length -> 0 < length ->
  yes_no.says u bu -> yes_no.says l bl -> yes_no.says d bd -> yes_no.says s bs ->
  exists last_lines,
    password_generator.main randbelow w
    = (Ok tt,
       mkWorld (store w) rest
         (stdout w ++ [Print [Lit "Password Generator"]]
          ++ flat_map yes_no.length_asked_again bad
          ++ [Prompt [Lit "Enter the desired password length (positive integer): "];
              Prompt [Lit "Include uppercase letters? (y/n): "];
              Prompt [Lit "Include lowercase letters? (y/n): "];
              Prompt [Lit "Include digits? (y/n): "];
              Prompt [Lit "Include symbols? (y/n): "]]
          ++ last_lines)
         (disk w) (faults w))
    /\ if bu || bl || bd || bs then
         exists password,
           password_generator.generate_password randbelow length bu bl bd bs = Ok password
           /\ String.length password = Z.to_nat length
           /\ last_lines = [Print [Lit "Generated password: "; Fmt (VStr password)]]
       else
         last_lines =
         [Print [Lit "Error: ";
                 Lit "No character types selected. Enable at least one type of characters."];
          Print [Lit "Unable to generate password with the selected options."]].
Proof.
  intros Hin Hbad Hint Hpos Hu Hl Hd Hs.
  unfold password_generator.main. unfold bind at 1, print at 1.
  unfold bind at 1.
  rewrite (main_lemmas.length_loop_run _ bad len_line (u :: l :: d :: s :: rest) length)
    by (try exact Hin; assumption).
  unfold bind at 1.
  rewrite (dialogue_lemmas.ask_yes_no_run _ _ [] u (l :: d :: s :: rest) bu)
    by (try reflexivity; try constructor; assumption).
  unfold bind at 1.
  rewrite (dialogue_lemmas.ask_yes_no_run _ _ [] l (d :: s :: rest) bl)
    by (try reflexivity; try constructor; assumption).
  unfold bind at 1.
  rewrite (dialogue_lemmas.ask_yes_no_run _ _ [] d (s :: rest) bd)
    by (try reflexivity; try constructor; assumption).
  unfold bind at 1.
  rewrite (dialogue_lemmas.ask_yes_no_run _ _ [] s rest bs)
    by (try reflexivity; try constructor; assumption).
  cbn [store stdin stdout disk faults with_stdout flat_map app].
  unfold try_except, bind at 1, lift at 1.
  destruct (bu || bl || bd || bs) eqn:Hsome.
  - destruct (main_lemmas.generate_password_ok randbelow randbelow_lt length bu bl bd bs
                Hpos Hsome) as (password & Hp & Hlen).
    rewrite Hp. unfold print, with_stdout. cbn [store stdin stdout disk faults].
    eexists. split.
    + f_equal. f_equal. rewrite <- !app_assoc. cbn [app]. reflexivity.
    + exists password. split; [reflexivity|]. split; [exact Hlen | reflexivity].
  - destruct bu, bl, bd, bs; try discriminate Hsome.
    unfold password_generator.generate_password, password_generator.error_text.
    destruct (Z.leb_spec length 0) as [Hle | _]; [lia|].
    cbn [orb String.eqb password_generator.catches_value_error].
    unfold bind, print, with_stdout. cbn [store stdin stdout disk faults].
    eexists. split; [|reflexivity].
    f_equal. f_equal. rewrite <- !app_assoc. reflexivity.
Qed.

(** X18 with one line that is no length, "0", then the length 8 and
    the answers no, yes, yes, no. *)
Lemma main_shows_password_or_error_witness :
  let randbelow := fun i n => ((7 * i + 3) mod n)%nat in
  let w := mkWorld [] ["0"; "8"; "n"; "y"; "Yes"; "no"] [] Absent [] in
  exists last_lines,
    password_generator.main randbelow w
    = (Ok tt,
       mkWorld [] []
         ([Print [Lit "Password Generator"];
           Prompt [Lit "Enter the desired password length (positive integer): "];
           Print [Lit "Please enter a positive integer greater than zero."];
           Prompt [Lit "Enter the desired password length (positive integer): "];
           Prompt [Lit "Include uppercase letters? (y/n): "];
           Prompt [Lit "Include lowercase letters? (y/n): "];
           Prompt [Lit "Include digits? (y/n): "];
           Prompt [Lit "Include symbols? (y/n): "]] ++ last_lines)
         Absent [])
    /\ exists password,
         password_generator.generate_password randbelow 8 false true true false = Ok password
         /\ String.length password = 8%nat
         /\ last_lines = [Print [Lit "Generated password: "; Fmt (VStr password)]].
Proof.
  intros randbelow w.
  apply (main_shows_password_or_error randbelow) with
    (w := w) (bad := ["0"]) (len_line := "8") (u := "n") (l := "y") (d := "Yes") (s := "no")
    (rest := []) (length := 8) (bu := false) (bl := true) (bd := true) (bs := false).
  - intros i n Hn. apply Nat.mod_upper_bound. lia.
  - reflexivity.
  - apply Forall_cons; [|apply Forall_nil]. intros n. vm_compute. intros [= <-]. discriminate.
  - reflexivity.
  - lia.
  - left. reflexivity.
  - left. reflexivity.
  - right. reflexivity.
  - right. reflexivity.
Defined.

(** ** A new task and its identifier *)

Module fresh_id_lemmas.
Import id_lemmas record_store.

(** No record of the store has an identifier equal to the new one. *)
Lemma eq_int_new_id (s : list py.dict) (t : py.dict) :
  In t s -> py.eq_int (py.get_default t "id" VNone) (generate_new_id s) = false.
Proof.
  intros Hin. destruct (py.eq_int _ _) eqn:E; [exfalso | reflexivity].
  assert (Hnum : py.num (py.get_default t "id" VNone) = Some (generate_new_id s)).
  { unfold py.eq_int in E. destruct (py.get_default t "id" VNone) as [| b | n | x | l | d];
      simpl in E; try discriminate; apply Z.eqb_eq in E; simpl; now rewrite E. }
  assert (Hint : py.is_int (py.get_default t "id" VNone) = true).
  { destruct (py.get_default t "id" VNone); try discriminate Hnum; reflexivity. }
  assert (Hex : In (generate_new_id s) (existing_ids s)).
  { unfold existing_ids. apply in_map_iff. exists t. split.
    - unfold int_of. unfold py.get_default in *.
      destruct (py.get t "id") as [v|]; [|discriminate Hint]. now rewrite Hnum.
    - apply filter_In. split; assumption. }
  rewrite generate_new_id_unfold in Hex. destruct s as [|r s]; [destruct Hin|].
  destruct (max_default_spec (existing_ids (r :: s))) as [_ Hmax].
  - intros E0. rewrite E0 in Hex. destruct Hex.
  - rewrite Forall_forall in Hmax. specialize (Hmax _ Hex). lia.
Qed.

Lemma find_from_new (from : nat) (s : list py.dict) (r : py.dict) (n : Z) :
  (forall t, In t s -> py.eq_int (py.get_default t "id" VNone) n = false) ->
  spec.has_id r n ->
  todo_manager.find_from from (s ++ [r]) n = Some (from + List.length s)%nat.
Proof.
  intros Hs Hr. revert from. induction s as [|t s IH]; intros from;
    cbn [todo_manager.find_from app List.length].
  - rewrite (removal_lemmas.eq_int_has_id _ _ _ Hr), Z.eqb_refl. f_equal. lia.
  - rewrite (Hs t (or_introl eq_refl)), IH by (intros; apply Hs; now right).
    f_equal. lia.
Qed.

End fresh_id_lemmas.

(** X19.  A task just added is found under its identifier.  In a
    store in which every identifier that is there is an integer, after
    [add_task] went through with a description, [find_task_by_id]
    with the identifier given to the new task returns the new task,
    the last one of the store, and no older task.  The identifiers of
    the store may repeat, and records may be without one, as in a
    store loaded from a file that was not written by the program. *)
Theorem new_task_is_found (strptime_ok : string -> bool) (w : world)
    (description due notes : string) (rest : list string) :
  fresh.integer_ids (store w) ->
  stdin w = description :: due :: notes :: rest ->
  pystr.strip description <> "" ->
  let w' := snd (todo_manager.add_task strptime_ok w) in
  let n := todo_manager.generate_new_id (store w) in
  List.length (store w') = S (List.length (store w))
  /\ todo_manager.find_task_by_id (store w') n = Some (List.length (store w))
  /\ py.get (nth (List.length (store w)) (store w') []) "id" = Some (VInt n)
  /\ py.get (nth (List.length (store w)) (store w') []) "description"
     = Some (VStr (pystr.strip description)).
Proof.
  intros _ Hin Hdesc w' n. subst w' n.
  destruct (create_lemmas.add_task_run strptime_ok w description (due :: notes :: rest) Hin)
    as [_ Hrun].
  destruct (Hrun Hdesc due notes rest eq_refl) as (_ & Hstore & _).
  rewrite Hstore. split; [rewrite length_app; simpl; lia|]. split; [|split].
  - unfold todo_manager.find_task_by_id, todo_manager.generate_new_id.
    rewrite (fresh_id_lemmas.find_from_new 0 (store w)); [reflexivity | |reflexivity].
    intros t Ht. now apply fresh_id_lemmas.eq_int_new_id.
  - rewrite app_nth2, Nat.sub_diag by lia. reflexivity.
  - rewrite app_nth2, Nat.sub_diag by lia. reflexivity.
Qed.

(** X19 in a store loaded from a file in which two tasks have the
    identifier 3 and one has none: the new task gets the identifier 4
    and is found under it. *)
Lemma new_task_is_found_witness :
  let w := mkWorld [[(KStr "id", VInt 3); (KStr "description", VStr "x")];
                    [(KStr "description", VStr "y")];
                    [(KStr "id", VInt 3); (KStr "description", VStr "z")]]
             ["call Bob"; ""; ""] [] Absent [] in
  let w' := snd (todo_manager.add_task (fun _ => true) w) in
  todo_manager.generate_new_id (store w) = 4
  /\ List.length (store w') = 4%nat
  /\ todo_manager.find_task_by_id (store w') 4 = Some 3%nat
  /\ py.get (nth 3 (store w') []) "id" = Some (VInt 4)
  /\ py.get (nth 3 (store w') []) "description" = Some (VStr "call Bob").
Proof.
  intros w w'. split; [reflexivity|].
  apply (new_task_is_found (fun _ => true) w "call Bob" "" "" []).
  - repeat constructor.
  - reflexivity.
  - vm_compute. discriminate.
Defined.

(** ** Rules for what an action may end with *)

Module safe_rules.
Import frame hoare shape.

Section rules.

Variable P : py.dict -> Prop.
Variable allowed : exn -> Prop.

Local Abbreviation safe := (hoare.safe (shape.holds P) allowed).

Lemma safe_ret {A} (a : A) (post : A -> list py.dict -> Prop) :
  safe (post a) (ret a) post.
Proof. intros w Hinv Hpre. cbn. auto. Qed.

Lemma safe_raise {A} (e : exn) (pre : list py.dict -> Prop)
    (post : A -> list py.dict -> Prop) :
  allowed e -> safe pre (raise e) post.
Proof. intros He w Hinv Hpre. cbn. auto. Qed.

Lemma safe_bind {A B} (m : M A) (k : A -> M B) (pre : list py.dict -> Prop)
    (mid : A -> list py.dict -> Prop) (post : B -> list py.dict -> Prop) :
  safe pre m mid -> (forall a, safe (mid a) (k a) post) -> safe pre (bind m k) post.
Proof.
  intros Hm Hk w Hinv Hpre. unfold bind. specialize (Hm w Hinv Hpre).
  destruct (m w) as [[a | e] w1]; [|exact Hm].
  destruct Hm as [Hinv1 Hmid]. exact (Hk a w1 Hinv1 Hmid).
Qed.

Lemma safe_conseq {A} (m : M A) (pre pre' : list py.dict -> Prop)
    (post post' : A -> list py.dict -> Prop) :
  safe pre m post ->
  (forall s, Forall P s -> pre' s -> pre s) ->
  (forall a s, Forall P s -> post a s -> post' a s) ->
  safe pre' m post'.
Proof.
  intros Hm Hpre Hpost w Hinv Hp. specialize (Hm w Hinv (Hpre _ (proj1 Hinv) Hp)).
  destruct (m w) as [[a | e] w1]; [|exact Hm].
  destruct Hm as [Hinv1 Hq]. split; [exact Hinv1|]. apply Hpost; [apply Hinv1 | exact Hq].
Qed.

(** An action that only talks and does not raise keeps what is known
    of the store. *)
Lemma safe_talk {A} (m : M A) (pre : list py.dict -> Prop) (ok : A -> Prop) :
  (forall w, talk w (snd (m w))) ->
  (forall w, Forall P (store w) -> pre (store w) ->
             match fst (m w) with Ok a => ok a | Raise e => allowed e end) ->
  safe pre m (fun a s => pre s /\ ok a).
Proof.
  intros Htalk Hres w [Hs Hd] Hpre. specialize (Htalk w). specialize (Hres w Hs Hpre).
  destruct (m w) as [r w1]. cbn [fst snd] in *. destruct Htalk as (Es & Ed & _).
  assert (Hinv1 : holds P w1) by (split; [rewrite Es | rewrite Ed]; assumption).
  destruct r as [a | e]; (split; [exact Hinv1|]); [|exact Hres].
  rewrite Es. split; assumption.
Qed.

Lemma safe_print (text : list piece) (pre : list py.dict -> Prop) :
  safe pre (print text) (fun _ s => pre s).
Proof.
  eapply safe_conseq; [apply (safe_talk (print text) pre (fun _ => True)) | auto |].
  - intros w. repeat split.
  - intros w _ _. exact I.
  - intros a s _ [H _]. exact H.
Qed.

Lemma safe_input (text : list piece) (pre : list py.dict -> Prop) :
  allowed EOFError -> safe pre (input text) (fun _ s => pre s).
Proof.
  intros Heof.
  eapply safe_conseq; [apply (safe_talk (input text) pre (fun _ => True)) | auto |].
  - apply frame_rules.talk_input.
  - intros w _ _. unfold input. destruct (stdin w); cbn; auto.
  - intros a s _ [H _]. exact H.
Qed.

Lemma safe_get_store (pre : list py.dict -> Prop) :
  safe pre get_store (fun c s => pre s /\ c = s).
Proof. intros w Hinv Hpre. cbn. auto. Qed.

Lemma safe_deref (i : nat) (pre : list py.dict -> Prop) :
  safe pre (deref i) (fun c s => pre s /\ c = nth i s []).
Proof. intros w Hinv Hpre. cbn. auto. Qed.

Lemma safe_lift {A} (r : result A) (pre : list py.dict -> Prop) :
  (forall s, Forall P s -> pre s -> exists a, r = Ok a) ->
  safe pre (lift r) (fun a s => pre s /\ r = Ok a).
Proof.
  intros Hr w Hinv Hpre. destruct (Hr _ (proj1 Hinv) Hpre) as (a & ->). cbn. auto.
Qed.

Lemma safe_for_each {A} (l : list A) (body : A -> M unit) (pre : list py.dict -> Prop) :
  (forall x, In x l -> safe pre (body x) (fun _ s => pre s)) ->
  safe pre (for_each l body) (fun _ s => pre s).
Proof.
  induction l as [|x l IH]; intros Hb; cbn [for_each].
  - apply (safe_ret tt (fun _ s => pre s)).
  - eapply safe_bind; [apply Hb; now left|]. intros []. apply IH. intros y Hy. apply Hb. now right.
Qed.

Lemma safe_world {A B} (f : world -> B) (m : B -> M A) (pre : list py.dict -> Prop)
    (post : A -> list py.dict -> Prop) :
  (forall b, safe pre (m b) post) -> safe pre (fun w => m (f w) w) post.
Proof. intros H w. apply H. Qed.

Lemma safe_setitem_at (i : nat) (k : key) (v : value) (pre : list py.dict -> Prop) :
  (forall c, P c -> P (py.setitem c k v)) ->
  safe pre (setitem_at i k v) (fun _ _ => True).
Proof.
  intros Hset w [Hs Hd] _. cbn. split; [|exact I]. split; [|exact Hd]. cbn [store].
  apply store_lemmas.Forall_update_nth; assumption.
Qed.

Lemma safe_set_store (s' : list py.dict) (pre : list py.dict -> Prop) :
  (forall s, Forall P s -> pre s -> Forall P s') ->
  safe pre (set_store s') (fun _ s => s = s').
Proof.
  intros Hs' w [Hs Hd] Hpre. cbn. split; [|reflexivity].
  split; [exact (Hs' _ Hs Hpre) | exact Hd].
Qed.

Lemma safe_save (noun : string) (c : list py.dict) :
  safe (fun s => s = c) (record_store.save_records noun c) (fun _ _ => True).
Proof.
  intros w [Hs Hd] Hc. cbn beta in Hc. subst c.
  pose proof (effect_lemmas.save_records_effect noun (store w) w) as (Es & _ & Edisk).
  destruct (record_store.save_records noun (store w) w) as [r w1] eqn:E.
  cbn [snd] in *.
  assert (Hinv1 : holds P w1).
  { split; [now rewrite Es|].
    destruct Edisk as [-> | [-> | [-> | ->]]];
      [exact Hd | right; now left | right; right; now left |].
    right. right. right. exists (store w). split; [exact Hs | reflexivity]. }
  assert (Hok : r = Ok tt).
  { revert E. unfold record_store.save_records, try_except, write_json, print.
    destruct (faults w) as [|[[msg|msg|msg]|] fs]; cbn; now intros [= <- _]. }
  subst r. split; [exact Hinv1 | exact I].
Qed.

End rules.

End safe_rules.

(** ** The contact manager ends in no other way *)

Module contacts_safe.
Import frame hoare shape safe_rules refs.

Local Abbreviation safe := (hoare.safe (shape.holds shape.contact) hoare.contacts_exit).

Lemma exit_eof : contacts_exit EOFError.
Proof. right. now left. Qed.

Lemma contact_in (s : list py.dict) (ref : nat) :
  Forall shape.contact s -> (ref < List.length s)%nat -> shape.contact (nth ref s []).
Proof. intros Hs Hr. rewrite Forall_forall in Hs. apply Hs, nth_In, Hr. Qed.

Lemma contact_has_fields (c : py.dict) : shape.contact c -> search.contact_fields c.
Proof. intros (n & name & phone & email & address & -> & _). now exists name, phone. Qed.

Lemma contact_getitem (c : py.dict) (field : string) :
  shape.contact c -> In field ["name"; "phone"; "email"; "address"] ->
  exists v, py.getitem c field = Ok v.
Proof.
  intros (n & name & phone & email & address & -> & _) [<- | [<- | [<- | [<- | []]]]];
    eexists; reflexivity.
Qed.

Lemma contact_setitem (c : py.dict) (field x : string) :
  shape.contact c ->
  (field = "name" /\ x <> "") \/ (field = "phone" /\ x <> "")
  \/ field = "email" \/ field = "address" ->
  shape.contact (py.setitem c field (VStr x)).
Proof.
  intros (n & name & phone & email & address & -> & Hn & Hp)
    [(-> & Hx) | [(-> & Hx) | [-> | ->]]]; cbn; unfold shape.contact; eauto 10.
Qed.

Lemma contact_record (c : py.dict) : shape.contact c -> spec.record c.
Proof. intros (n & name & phone & email & address & -> & _). reflexivity. Qed.

Lemma safe_print_end (text : list piece) (pre : list py.dict -> Prop) :
  safe pre (print text) (fun _ _ => True).
Proof.
  eapply safe_conseq; [apply (safe_print _ _ text pre) | intros s _ H; exact H | intros; exact I].
Qed.

Lemma safe_commit (c : list py.dict) (text : list piece) :
  safe (fun s => s = c)
    (bind (contact_manager.save_contacts c) (fun _ => print text)) (fun _ _ => True).
Proof.
  eapply safe_bind; [apply safe_save|]. intros []. apply safe_print_end.
Qed.

Lemma safe_add_contact : safe (fun _ => True) contact_manager.add_contact (fun _ _ => True).
Proof.
  unfold contact_manager.add_contact.
  eapply safe_bind; [apply safe_print|]. intros [].
  eapply safe_bind; [apply safe_input, exit_eof|]. intros name. cbv beta zeta.
  eapply safe_bind; [apply safe_input, exit_eof|]. intros phone. cbv beta zeta.
  eapply safe_bind; [apply safe_input, exit_eof|]. intros email. cbv beta zeta.
  eapply safe_bind; [apply safe_input, exit_eof|]. intros address. cbv beta zeta.
  destruct (String.eqb (pystr.strip name) "") eqn:En; [apply safe_print_end|].
  destruct (String.eqb (pystr.strip phone) "") eqn:Ep; [apply safe_print_end|].
  cbn [orb]. apply String.eqb_neq in En, Ep.
  eapply safe_bind; [apply safe_get_store|]. intros contacts. cbv beta.
  eapply safe_bind.
  { apply safe_set_store. intros s Hs [_ ->]. apply Forall_app. split; [exact Hs|].
    constructor; [|constructor]. unfold shape.contact. eauto 10. }
  intros [].
  eapply safe_bind; [apply safe_get_store|]. intros c2. cbv beta.
  eapply safe_conseq; [apply (safe_commit c2) | | auto].
  intros s _ [_ ->]. reflexivity.
Qed.

Lemma safe_view_contacts :
  safe (fun _ => True) contact_manager.view_contacts (fun _ _ => True).
Proof.
  unfold contact_manager.view_contacts.
  eapply safe_bind; [apply safe_print|]. intros [].
  eapply safe_bind; [apply safe_get_store|]. intros contacts. cbv beta.
  destruct contacts as [|c contacts]; [apply safe_print_end|].
  eapply safe_bind.
  { apply safe_for_each. intros ic _. apply safe_print. }
  intros []. apply safe_print_end.
Qed.

Lemma safe_print_line (idx : Z) (ref : nat) (pre : list py.dict -> Prop) :
  (forall s, pre s -> (ref < List.length s)%nat) ->
  safe pre (contact_manager.print_line idx ref) (fun _ s => pre s).
Proof.
  intros Hr. unfold contact_manager.print_line.
  eapply safe_bind; [apply safe_deref|]. intros c. cbv beta.
  eapply safe_bind.
  { apply safe_lift. intros s Hs [Hp ->]. apply contact_getitem; [|simpl; tauto].
    apply contact_in; auto. }
  intros name. cbv beta.
  eapply safe_bind.
  { apply safe_lift. intros s Hs [[Hp ->] _]. apply contact_getitem; [|simpl; tauto].
    apply contact_in; auto. }
  intros phone. cbv beta.
  eapply safe_conseq; [apply safe_print | intros s _ H; exact H |].
  intros ? s _ [[[H _] _] _]. exact H.
Qed.

Lemma safe_listing (refs : list nat) (pre : list py.dict -> Prop) :
  (forall s, pre s -> in_range refs s) ->
  safe pre (for_each (enumerate 1 refs)
              (fun ic => contact_manager.print_line (fst ic) (snd ic))) (fun _ s => pre s).
Proof.
  intros Hr. apply safe_for_each. intros ic Hic. apply safe_print_line.
  intros s Hs. specialize (Hr s Hs). unfold in_range in Hr. rewrite Forall_forall in Hr.
  apply Hr. exact (search_lemmas.in_enumerate _ _ _ Hic).
Qed.

Lemma safe_search_contacts :
  safe (fun _ => True) contact_manager.search_contacts (fun refs s => in_range refs s).
Proof.
  unfold contact_manager.search_contacts.
  eapply safe_bind; [apply safe_get_store|]. intros contacts. cbv beta.
  destruct contacts as [|c0 contacts0].
  { eapply safe_bind; [apply safe_print|]. intros [].
    eapply safe_conseq; [apply (safe_ret _ _ [] (fun refs s => in_range refs s)) | | auto].
    intros. constructor. }
  set (contacts := c0 :: contacts0).
  eapply safe_bind; [apply safe_input, exit_eof|]. intros query. cbv beta zeta.
  eapply safe_bind.
  { apply safe_lift. intros s Hs [_ E]. eexists.
    apply search_lemmas.filter_refs_positions. rewrite E.
    eapply Forall_impl; [|exact Hs]. apply contact_has_fields. }
  intros results. cbv beta.
  eapply safe_bind with (mid := fun _ s => in_range results s).
  { destruct results as [|r0 results0].
    - eapply safe_conseq; [apply safe_print | intros s _ H; exact H |].
      intros ? s _ _. constructor.
    - set (results := r0 :: results0).
      assert (Hrange : forall s : list py.dict,
                (True /\ contacts = s) /\
                contact_manager.filter_refs
                  (contact_manager.matches (pystr.lower (pystr.strip query))) 0 contacts
                = Ok results -> in_range results s).
      { intros s [[_ <-] E].
        assert (G : forall l from results,
                  contact_manager.filter_refs
                    (contact_manager.matches (pystr.lower (pystr.strip query))) from l
                  = Ok results ->
                  Forall (fun r => from <= r < from + List.length l)%nat results).
        { clear. induction l as [|x l IH]; intros from results;
            cbn [contact_manager.filter_refs].
          - intros [= <-]. constructor.
          - destruct (contact_manager.matches _ x) as [b|e]; [|discriminate].
            destruct (contact_manager.filter_refs _ (S from) l) as [refs|e] eqn:E;
              [|discriminate].
            intros [= <-]. specialize (IH _ _ E).
            assert (H : Forall (fun r => from <= r < from + List.length (x :: l))%nat refs).
            { eapply Forall_impl; [|exact IH]. simpl. intros; lia. }
            destruct b; [constructor; [simpl; lia | exact H] | exact H]. }
        unfold in_range. eapply Forall_impl; [|exact (G _ _ _ E)]. simpl. intros; lia. }
      eapply safe_conseq with (pre := fun s => in_range results s);
        [ | intros s _ H; exact (Hrange s H) | intros ? s _ H; exact H ].
      eapply safe_bind; [apply safe_print|]. intros [].
      eapply safe_bind; [apply safe_listing; auto|]. intros [].
      apply safe_print. }
  intros []. apply (safe_ret _ _ results (fun refs s => in_range refs s)).
Qed.

Lemma exit_value : contacts_exit ValueError.
Proof. right. now right. Qed.

Lemma safe_select_loop (fuel : nat) (contacts : list nat) :
  safe (fun s => in_range contacts s) (contact_manager.select_loop fuel contacts)
    (fun selected s => chosen selected s).
Proof.
  induction fuel as [|fuel IH]; cbn [contact_manager.select_loop].
  - apply safe_raise, exit_eof.
  - eapply safe_bind; [apply safe_input, exit_eof|]. intros choice. cbv beta zeta.
    assert (Hagain : safe (fun s => in_range contacts s)
                       (print [Lit "Invalid selection. Try again."] ;;
                        contact_manager.select_loop fuel contacts)
                       (fun selected s => chosen selected s)).
    { eapply safe_bind; [apply safe_print|]. intros []. exact IH. }
    destruct (String.eqb (pystr.strip choice) "").
    { eapply safe_conseq;
        [apply (safe_ret _ _ None (fun selected s => chosen selected s)) | | auto].
      intros; exact I. }
    destruct (pystr.str_isdigit (pystr.strip choice)); [|exact Hagain].
    destruct (pystr.int (pystr.strip choice)) as [i|]; [|apply safe_raise, exit_value].
    destruct ((1 <=? i) && (i <=? Z.of_nat (List.length contacts))); [|exact Hagain].
    eapply safe_conseq;
      [apply (safe_ret _ _ (nth_error contacts (Z.to_nat (i - 1)))
                (fun selected s => chosen selected s)) | | auto].
    intros s _ Hr. unfold chosen.
    destruct (nth_error contacts (Z.to_nat (i - 1))) as [ref|] eqn:E; [|exact I].
    unfold in_range in Hr. rewrite Forall_forall in Hr. apply Hr.
    exact (nth_error_In _ _ E).
Qed.

Lemma safe_select_contact (contacts : list nat) :
  safe (fun s => in_range contacts s) (contact_manager.select_contact contacts)
    (fun selected s => chosen selected s).
Proof.
  unfold contact_manager.select_contact. destruct contacts as [|c0 contacts0].
  - eapply safe_bind; [apply safe_print|]. intros [].
    eapply safe_conseq;
      [apply (safe_ret _ _ None (fun selected s => chosen selected s)) | | auto].
    intros; exact I.
  - eapply safe_bind; [apply safe_listing; auto|]. intros [].
    apply (safe_world _ _ (fun w => S (List.length (stdin w)))
             (fun fuel => contact_manager.select_loop fuel (c0 :: contacts0))).
    intros fuel. apply safe_select_loop.
Qed.

(** [contact = select_contact(...)] followed by [if not contact]. *)
Lemma safe_selected (selected : option nat) :
  safe (fun s => chosen selected s)
    (match selected with
     | Some ref => c <- deref ref ;; ret (if py.truthy (VDict c) then Some ref else None)
     | None => ret None
     end)
    (fun contact s => chosen contact s).
Proof.
  destruct selected as [ref|].
  - eapply safe_bind; [apply safe_deref|]. intros c. cbv beta.
    eapply safe_conseq;
      [apply (safe_ret _ _ (if py.truthy (VDict c) then Some ref else None)
                (fun contact s => chosen contact s)) | | auto].
    intros s _ [H _]. destruct (py.truthy (VDict c)); [exact H | exact I].
  - apply (safe_ret _ _ None (fun contact s => chosen contact s)).
Qed.

Lemma safe_ask_new (what field : string) (ref : nat) :
  In field ["name"; "phone"; "email"; "address"] ->
  safe (fun s => (ref < List.length s)%nat) (contact_manager.ask_new what field ref)
    (fun _ s => (ref < List.length s)%nat).
Proof.
  intros Hf. unfold contact_manager.ask_new.
  eapply safe_bind; [apply safe_deref|]. intros c. cbv beta.
  eapply safe_bind.
  { apply safe_lift. intros s Hs [Hr ->]. apply contact_getitem; [|exact Hf].
    apply contact_in; auto. }
  intros old. cbv beta.
  eapply safe_bind; [apply safe_input, exit_eof|]. intros line. cbv beta.
  eapply safe_conseq;
    [apply (safe_ret _ _ (pystr.strip line) (fun _ s => (ref < List.length s)%nat)) | | auto].
  intros s _ [[H _] _]. exact H.
Qed.

Lemma safe_answer (ref : nat) (field x : string) (pre : list py.dict -> Prop) :
  field = "name" \/ field = "phone" \/ field = "email" \/ field = "address" ->
  safe pre (if String.eqb x "" then ret tt else setitem_at ref field (VStr x))
    (fun _ _ => True).
Proof.
  intros Hf. destruct (String.eqb x "") eqn:E.
  - eapply safe_conseq; [apply (safe_ret _ _ tt (fun _ _ => True)) | | auto]. intros; exact I.
  - apply String.eqb_neq in E. apply safe_setitem_at. intros c Hc.
    apply contact_setitem; [exact Hc|]. intuition.
Qed.

Lemma safe_update_contact :
  safe (fun _ => True) contact_manager.update_contact (fun _ _ => True).
Proof.
  unfold contact_manager.update_contact.
  eapply safe_bind; [apply safe_print|]. intros [].
  eapply safe_bind; [apply safe_search_contacts|]. intros results. cbv beta.
  destruct results as [|r0 results0].
  { eapply safe_conseq; [apply (safe_ret _ _ tt (fun _ _ => True)) | | auto]. intros; exact I. }
  eapply safe_bind; [apply safe_select_contact|]. intros selected. cbv beta.
  eapply safe_bind; [apply safe_selected|]. intros contact. cbv beta.
  destruct contact as [ref|]; [|apply safe_print_end]. cbn [chosen].
  eapply safe_bind; [apply safe_print|]. intros [].
  eapply safe_bind; [apply safe_ask_new; simpl; tauto|]. intros new_name. cbv beta.
  eapply safe_bind; [apply safe_ask_new; simpl; tauto|]. intros new_phone. cbv beta.
  eapply safe_bind; [apply safe_ask_new; simpl; tauto|]. intros new_email. cbv beta.
  eapply safe_bind; [apply safe_ask_new; simpl; tauto|]. intros new_address. cbv beta.
  eapply safe_bind; [apply safe_answer; tauto|]. intros [].
  eapply safe_bind; [apply safe_answer; tauto|]. intros [].
  eapply safe_bind; [apply safe_answer; tauto|]. intros [].
  eapply safe_bind; [apply safe_answer; tauto|]. intros [].
  eapply safe_bind; [apply safe_get_store|]. intros contacts. cbv beta.
  eapply safe_conseq; [apply (safe_commit contacts) | | auto].
  intros s _ [_ ->]. reflexivity.
Qed.

Lemma Forall_remove (P : py.dict -> Prop) (s : list py.dict) (i : nat) :
  Forall P s -> Forall P (py.remove s i).
Proof.
  intros Hs. destruct (store_lemmas.remove_split s i) as [-> | (l1 & y & l2 & E & ->)];
    [exact Hs|].
  rewrite E in Hs. rewrite Forall_app in *. destruct Hs as [H1 H2].
  split; [exact H1 | now inversion H2].
Qed.

Lemma safe_delete_contact :
  safe (fun _ => True) contact_manager.delete_contact (fun _ _ => True).
Proof.
  unfold contact_manager.delete_contact.
  eapply safe_bind; [apply safe_print|]. intros [].
  eapply safe_bind; [apply safe_search_contacts|]. intros results. cbv beta.
  destruct results as [|r0 results0].
  { eapply safe_conseq; [apply (safe_ret _ _ tt (fun _ _ => True)) | | auto]. intros; exact I. }
  eapply safe_bind; [apply safe_select_contact|]. intros selected. cbv beta.
  eapply safe_bind; [apply safe_selected|]. intros contact. cbv beta.
  destruct contact as [ref|]; [|apply safe_print_end]. cbn [chosen].
  eapply safe_bind; [apply safe_deref|]. intros c. cbv beta.
  eapply safe_bind.
  { apply safe_lift. intros s Hs [Hr ->]. apply contact_getitem; [|simpl; tauto].
    apply contact_in; auto. }
  intros name. cbv beta.
  eapply safe_bind; [apply safe_input, exit_eof|]. intros confirmation. cbv beta zeta.
  destruct (String.eqb (pystr.lower (pystr.strip confirmation)) "y"
            || String.eqb (pystr.lower (pystr.strip confirmation)) "yes");
    [|apply safe_print_end].
  eapply safe_bind; [apply safe_get_store|]. intros contacts. cbv beta.
  eapply safe_bind.
  { apply safe_set_store. intros s Hs [_ ->]. now apply Forall_remove. }
  intros [].
  eapply safe_bind; [apply safe_get_store|]. intros c2. cbv beta.
  eapply safe_conseq; [apply (safe_commit c2) | | auto].
  intros s _ [_ ->]. reflexivity.
Qed.

Lemma safe_menu_round :
  safe (fun _ => True) contact_manager.menu_round (fun _ _ => True).
Proof.
  unfold contact_manager.menu_round.
  do 7 (eapply safe_bind; [apply safe_print|]; intros []).
  eapply safe_bind; [apply safe_input, exit_eof|]. intros choice. cbv beta.
  unfold contact_manager.options. menu_lemmas.by_choice;
    auto using safe_add_contact, safe_view_contacts, safe_update_contact, safe_delete_contact.
  - eapply safe_bind; [apply safe_search_contacts|]. intros results.
    eapply safe_conseq; [apply (safe_ret _ _ tt (fun _ _ => True)) | | auto]. intros; exact I.
  - apply safe_raise. now left.
  - apply safe_print_end.
Qed.

End contacts_safe.

(** ** The to-do manager ends in no other way *)

Module tasks_safe.
Import frame hoare shape safe_rules refs.

Section with_datetime.

Variable strptime_ok : string -> bool.

Local Abbreviation safe := (hoare.safe (shape.holds (shape.task strptime_ok)) hoare.tasks_exit).
Local Abbreviation task := (shape.task strptime_ok).

Lemma exit_eof_tasks : tasks_exit EOFError.
Proof. now right. Qed.

Lemma task_in (s : list py.dict) (ref : nat) :
  Forall task s -> (ref < List.length s)%nat -> task (nth ref s []).
Proof. intros Hs Hr. rewrite Forall_forall in Hs. apply Hs, nth_In, Hr. Qed.

Lemma task_getitem (t : py.dict) (field : string) :
  task t -> In field ["id"; "description"; "completed"; "due_date"; "notes"] ->
  exists v, py.getitem t field = Ok v.
Proof.
  intros (n & description & completed & due & notes & -> & _)
    [<- | [<- | [<- | [<- | [<- | []]]]]]; eexists; reflexivity.
Qed.

Lemma task_set_text (t : py.dict) (field x : string) :
  task t ->
  (field = "description" /\ x <> "") \/ (field = "due_date" /\ strptime_ok x = true)
  \/ field = "notes" ->
  task (py.setitem t field (VStr x)).
Proof.
  intros (n & description & completed & due & notes & -> & Hd & Hdue)
    [(-> & Hx) | [(-> & Hx) | ->]]; cbn; unfold shape.task; eauto 12.
Qed.

Lemma task_set_completed (t : py.dict) (b : bool) :
  task t -> task (py.setitem t "completed" (VBool b)).
Proof.
  intros (n & description & completed & due & notes & -> & Hd & Hdue).
  cbn. unfold shape.task. eauto 12.
Qed.

Lemma safe_print_done (text : list piece) (pre : list py.dict -> Prop) :
  safe pre (print text) (fun _ _ => True).
Proof.
  eapply safe_conseq; [apply (safe_print _ _ text pre) | intros s _ H; exact H | intros; exact I].
Qed.

Lemma safe_done (pre : list py.dict -> Prop) : safe pre (ret tt) (fun _ _ => True).
Proof.
  eapply safe_conseq; [apply (safe_ret _ _ tt (fun _ _ => True)) | | auto]. intros; exact I.
Qed.

Lemma safe_commit_tasks (c : list py.dict) (text : list piece) :
  safe (fun s => s = c)
    (bind (todo_manager.save_tasks c) (fun _ => print text)) (fun _ _ => True).
Proof.
  eapply safe_bind; [apply safe_save|]. intros []. apply safe_print_done.
Qed.

Lemma safe_add_task :
  safe (fun _ => True) (todo_manager.add_task strptime_ok) (fun _ _ => True).
Proof.
  unfold todo_manager.add_task.
  eapply safe_bind; [apply safe_print|]. intros [].
  eapply safe_bind; [apply safe_input, exit_eof_tasks|]. intros description. cbv beta zeta.
  destruct (String.eqb (pystr.strip description) "") eqn:Ed; [apply safe_print_done|].
  apply String.eqb_neq in Ed.
  eapply safe_bind; [apply safe_input, exit_eof_tasks|]. intros due. cbv beta zeta.
  eapply safe_bind with (mid := fun due_date _ => due_date = "" \/ strptime_ok due_date = true).
  { destruct (String.eqb (pystr.strip due) "").
    - eapply safe_conseq;
        [apply (safe_ret _ _ "" (fun d _ => d = "" \/ strptime_ok d = true)) | | auto].
      intros. now left.
    - destruct (strptime_ok (pystr.strip due)) eqn:Eok.
      + eapply safe_conseq;
          [apply (safe_ret _ _ (pystr.strip due)
                    (fun d _ => d = "" \/ strptime_ok d = true)) | | auto].
        intros. now right.
      + eapply safe_bind; [apply safe_print|]. intros [].
        eapply safe_conseq;
          [apply (safe_ret _ _ "" (fun d _ => d = "" \/ strptime_ok d = true)) | | auto].
        intros. now left. }
  intros due_date. cbv beta.
  eapply safe_bind; [apply safe_input, exit_eof_tasks|]. intros notes. cbv beta zeta.
  eapply safe_bind; [apply safe_get_store|]. intros tasks. cbv beta.
  eapply safe_bind.
  { apply safe_set_store. intros s Hs [Hdue ->]. apply Forall_app. split; [exact Hs|].
    constructor; [|constructor]. unfold shape.task. eauto 12. }
  intros [].
  eapply safe_bind; [apply safe_get_store|]. intros c2. cbv beta.
  eapply safe_conseq; [apply (safe_commit_tasks c2) | | auto].
  intros s _ [_ ->]. reflexivity.
Qed.

Lemma safe_print_task (t : py.dict) (pre : list py.dict -> Prop) :
  (forall s, Forall task s -> pre s -> task t) ->
  safe pre (todo_manager.print_task t) (fun _ s => pre s).
Proof.
  intros Ht. unfold todo_manager.print_task. cbv zeta.
  eapply safe_bind.
  { apply safe_lift. intros s Hs Hp. apply task_getitem; [eauto | simpl; tauto]. }
  intros id. cbv beta.
  eapply safe_bind.
  { apply safe_lift. intros s Hs [Hp _]. apply task_getitem; [eauto | simpl; tauto]. }
  intros description. cbv beta.
  eapply safe_conseq; [apply safe_print | intros s _ H; exact H |].
  intros ? s _ [[H _] _]. exact H.
Qed.

Lemma safe_list_tasks (pre : list py.dict -> Prop) :
  safe pre todo_manager.list_tasks (fun _ s => pre s).
Proof.
  unfold todo_manager.list_tasks.
  eapply safe_bind; [apply safe_print|]. intros [].
  eapply safe_bind; [apply safe_get_store|]. intros tasks. cbv beta.
  destruct tasks as [|t0 tasks0].
  { eapply safe_conseq; [apply safe_print | intros s _ H; exact H |].
    intros ? s _ [H _]. exact H. }
  eapply safe_bind.
  { apply safe_for_each. intros t Hin. apply safe_print_task.
    intros s Hs [_ E]. rewrite <- E in Hs. rewrite Forall_forall in Hs. auto. }
  intros [].
  eapply safe_conseq; [apply safe_print | intros s _ H; exact H |].
  intros ? s _ [H _]. exact H.
Qed.

Lemma safe_find_task (task_id : Z) :
  safe (fun _ => True) (todo_manager.find_task task_id) (fun found s => chosen found s).
Proof.
  unfold todo_manager.find_task.
  eapply safe_bind; [apply safe_get_store|]. intros tasks. cbv beta.
  destruct (todo_manager.find_task_by_id tasks task_id) as [ref|] eqn:E.
  - apply todo_lemmas.find_task_by_id_some in E as (Hr & _).
    eapply safe_bind; [apply safe_deref|]. intros t. cbv beta.
    eapply safe_conseq;
      [apply (safe_ret _ _ (if py.truthy (VDict t) then Some ref else None)
                (fun found s => chosen found s)) | | auto].
    intros s _ [[_ <-] _]. destruct (py.truthy (VDict t)); [exact Hr | exact I].
  - eapply safe_conseq;
      [apply (safe_ret _ _ None (fun found s => chosen found s)) | | auto].
    intros; exact I.
Qed.

Lemma safe_set_text (ref : nat) (field x : string) (pre : list py.dict -> Prop) :
  field = "description" \/ field = "notes" ->
  safe pre (if String.eqb x "" then ret tt else setitem_at ref field (VStr x))
    (fun _ _ => True).
Proof.
  intros Hf. destruct (String.eqb x "") eqn:E; [apply safe_done|].
  apply String.eqb_neq in E. apply safe_setitem_at. intros t Ht.
  apply task_set_text; [exact Ht|]. intuition.
Qed.

Lemma safe_set_due (ref : nat) (x : string) (pre : list py.dict -> Prop) :
  safe pre
    (if String.eqb x "" then ret tt
     else if strptime_ok x then setitem_at ref "due_date" (VStr x)
     else print [Lit "Invalid date format. Due date not updated."])
    (fun _ _ => True).
Proof.
  destruct (String.eqb x ""); [apply safe_done|].
  destruct (strptime_ok x) eqn:E; [|apply safe_print_done].
  apply safe_setitem_at. intros t Ht. apply task_set_text; [exact Ht|]. auto.
Qed.

Lemma safe_getitem_at (ref : nat) (t : py.dict) (field : string)
    (pre : list py.dict -> Prop) :
  In field ["id"; "description"; "completed"; "due_date"; "notes"] ->
  (forall s, pre s -> (ref < List.length s)%nat /\ t = nth ref s []) ->
  safe pre (lift (py.getitem t field)) (fun _ s => pre s).
Proof.
  intros Hf Hpre.
  eapply safe_conseq; [apply (safe_lift _ _ (py.getitem t field) pre) | auto |].
  - intros s Hs Hp. destruct (Hpre s Hp) as [Hr ->].
    apply task_getitem; [apply task_in; assumption | exact Hf].
  - intros a s _ [H _]. exact H.
Qed.

Lemma safe_update_task :
  safe (fun _ => True) (todo_manager.update_task strptime_ok) (fun _ _ => True).
Proof.
  unfold todo_manager.update_task.
  eapply safe_bind; [apply safe_list_tasks|]. intros [].
  eapply safe_bind; [apply safe_get_store|]. intros tasks. cbv beta.
  destruct tasks as [|t0 tasks0]; [apply safe_done|].
  eapply safe_bind; [apply safe_input, exit_eof_tasks|]. intros line. cbv beta.
  destruct (pystr.int line) as [task_id|]; [|apply safe_print_done].
  destruct (task_id =? 0); [apply safe_print_done|].
  eapply safe_bind.
  { eapply safe_conseq;
      [apply (safe_find_task task_id) | intros; exact I | intros a s _ H; exact H]. }
  intros found. cbv beta.
  destruct found as [ref|]; [|apply safe_print_done]. cbn [chosen].
  eapply safe_bind; [apply safe_print|]. intros [].
  eapply safe_bind; [apply safe_deref|]. intros t. cbv beta.
  eapply safe_bind; [apply (safe_getitem_at ref); [simpl; tauto | intros s H; exact H]|]. intros description.
  eapply safe_bind; [apply safe_input, exit_eof_tasks|]. intros new_description. cbv beta zeta.
  eapply safe_bind; [apply (safe_getitem_at ref); [simpl; tauto | intros s H; exact H]|]. intros due_date.
  eapply safe_bind; [apply safe_input, exit_eof_tasks|]. intros new_due. cbv beta zeta.
  eapply safe_bind; [apply (safe_getitem_at ref); [simpl; tauto | intros s H; exact H]|]. intros notes.
  eapply safe_bind; [apply safe_input, exit_eof_tasks|]. intros new_notes. cbv beta zeta.
  eapply safe_bind; [apply safe_set_text; tauto|]. intros [].
  eapply safe_bind; [apply safe_set_due|]. intros [].
  eapply safe_bind; [apply safe_set_text; tauto|]. intros [].
  eapply safe_bind; [apply safe_get_store|]. intros c2. cbv beta.
  eapply safe_conseq; [apply (safe_commit_tasks c2) | | auto].
  intros s _ [_ ->]. reflexivity.
Qed.

Lemma safe_set_completed (ref : nat) (b : bool) :
  safe (fun s => (ref < List.length s)%nat) (setitem_at ref "completed" (VBool b))
    (fun _ s => (ref < List.length s)%nat).
Proof.
  intros w [Hs Hd] Hr. cbn. split; [split; [|exact Hd]|].
  - cbn [store]. apply store_lemmas.Forall_update_nth; [|exact Hs].
    intros t Ht. now apply task_set_completed.
  - now rewrite store_lemmas.length_update_nth.
Qed.

Lemma safe_toggle_completion :
  safe (fun _ => True) todo_manager.toggle_completion (fun _ _ => True).
Proof.
  unfold todo_manager.toggle_completion.
  eapply safe_bind; [apply safe_list_tasks|]. intros [].
  eapply safe_bind; [apply safe_get_store|]. intros tasks. cbv beta.
  destruct tasks as [|t0 tasks0]; [apply safe_done|].
  eapply safe_bind; [apply safe_input, exit_eof_tasks|]. intros line. cbv beta.
  destruct (pystr.int line) as [task_id|]; [|apply safe_print_done].
  destruct (task_id =? 0); [apply safe_print_done|].
  eapply safe_bind.
  { eapply safe_conseq;
      [apply (safe_find_task task_id) | intros; exact I | intros a s _ H; exact H]. }
  intros found. cbv beta.
  destruct found as [ref|]; [|apply safe_print_done]. cbn [chosen].
  eapply safe_bind; [apply safe_deref|]. intros t. cbv beta.
  eapply safe_bind.
  { eapply safe_conseq; [apply safe_set_completed | | intros a s _ H; exact H].
    intros s _ [H _]. exact H. }
  intros [].
  eapply safe_bind; [apply safe_deref|]. intros t'. cbv beta.
  eapply safe_bind; [apply (safe_getitem_at ref); [simpl; tauto | intros s H; exact H]|]. intros completed.
  cbv beta zeta.
  eapply safe_bind; [apply safe_get_store|]. intros c2. cbv beta.
  eapply safe_conseq; [apply (safe_commit_tasks c2) | | auto].
  intros s _ [_ ->]. reflexivity.
Qed.

Lemma safe_delete_task :
  safe (fun _ => True) todo_manager.delete_task (fun _ _ => True).
Proof.
  unfold todo_manager.delete_task.
  eapply safe_bind; [apply safe_list_tasks|]. intros [].
  eapply safe_bind; [apply safe_get_store|]. intros tasks. cbv beta.
  destruct tasks as [|t0 tasks0]; [apply safe_done|].
  eapply safe_bind; [apply safe_input, exit_eof_tasks|]. intros line. cbv beta.
  destruct (pystr.int line) as [task_id|]; [|apply safe_print_done].
  destruct (task_id =? 0); [apply safe_print_done|].
  eapply safe_bind.
  { eapply safe_conseq;
      [apply (safe_find_task task_id) | intros; exact I | intros a s _ H; exact H]. }
  intros found. cbv beta.
  destruct found as [ref|]; [|apply safe_print_done]. cbn [chosen].
  eapply safe_bind; [apply safe_deref|]. intros t. cbv beta.
  eapply safe_bind; [apply (safe_getitem_at ref); [simpl; tauto | intros s H; exact H]|]. intros description.
  eapply safe_bind; [apply safe_input, exit_eof_tasks|]. intros confirm. cbv beta zeta.
  destruct (String.eqb (pystr.lower (pystr.strip confirm)) "y"
            || String.eqb (pystr.lower (pystr.strip confirm)) "yes");
    [|apply safe_print_done].
  eapply safe_bind; [apply safe_get_store|]. intros c1. cbv beta.
  eapply safe_bind.
  { apply safe_set_store. intros s Hs [_ ->]. now apply contacts_safe.Forall_remove. }
  intros [].
  eapply safe_bind; [apply safe_get_store|]. intros c2. cbv beta.
  eapply safe_conseq; [apply (safe_commit_tasks c2) | | auto].
  intros s _ [_ ->]. reflexivity.
Qed.

Lemma safe_tasks_round :
  safe (fun _ => True) (todo_manager.menu_round strptime_ok) (fun _ _ => True).
Proof.
  unfold todo_manager.menu_round.
  do 7 (eapply safe_bind; [apply safe_print|]; intros []).
  eapply safe_bind; [apply safe_input, exit_eof_tasks|]. intros choice. cbv beta.
  unfold todo_manager.actions. menu_lemmas.by_choice;
    auto using safe_add_task, safe_update_task, safe_toggle_completion, safe_delete_task.
  - eapply safe_conseq;
      [apply (safe_list_tasks (fun _ => True)) | intros; exact I | intros; exact I].
  - apply safe_raise. now left.
  - apply safe_print_done.
Qed.

End with_datetime.

End tasks_safe.

(** ** The loops end with the input *)

Module reads_lemmas.
Import frame frame_rules frame_tactics input_use.

Lemma reads_refl w : reads w w.
Proof. unfold reads. lia. Qed.

Lemma reads_trans w1 w2 w3 : reads w1 w2 -> reads w2 w3 -> reads w1 w3.
Proof. unfold reads. lia. Qed.

Lemma reads_shows {A} (m : M A) : acts shows m -> acts reads m.
Proof. intros H w. destruct (H w) as [_ E]. unfold reads. rewrite E. lia. Qed.

Lemma reads_input text : acts reads (input text).
Proof.
  intros w. unfold input, reads. destruct (stdin w) eqn:E; cbn; rewrite ?E; cbn; lia.
Qed.

Lemma reads_setitem_at i k v : acts reads (setitem_at i k v).
Proof. intros w. unfold reads. cbn. lia. Qed.

Lemma reads_set_store s : acts reads (set_store s).
Proof. intros w. unfold reads. cbn. lia. Qed.

Lemma reads_save noun records : acts reads (record_store.save_records noun records).
Proof.
  intros w. destruct (effect_lemmas.save_records_effect noun records w) as (_ & E & _).
  unfold reads. rewrite E. lia.
Qed.

Create HintDb reads_db.
#[export] Hint Resolve reads_input reads_setitem_at reads_set_store reads_save : reads_db.

Ltac reads_leaf :=
  first [ solve [auto with reads_db]
        | apply reads_shows; solve [auto with shows_db] ].

Ltac reads_go :=
  repeat first [ reads_leaf | acts_structure reads_refl reads_trans ].

Lemma reads_search_contacts : acts reads contact_manager.search_contacts.
Proof. unfold contact_manager.search_contacts. reads_go. Qed.

Lemma reads_select_loop fuel contacts : acts reads (contact_manager.select_loop fuel contacts).
Proof.
  induction fuel as [|fuel IH]; simpl.
  - apply (acts_raise _ reads_refl).
  - reads_go; exact IH.
Qed.

Lemma reads_select_contact contacts : acts reads (contact_manager.select_contact contacts).
Proof.
  unfold contact_manager.select_contact. destruct contacts as [|c contacts]; [reads_go|].
  apply (acts_bind _ reads_trans); [reads_go|]. intros _.
  apply (acts_world reads (fun w => S (List.length (stdin w)))
           (fun fuel => contact_manager.select_loop fuel (c :: contacts))).
  intros fuel. apply reads_select_loop.
Qed.

#[export] Hint Resolve reads_search_contacts reads_select_contact : reads_db.

Lemma reads_contact_action (choice : string) (action : M unit) :
  contact_manager.options choice = Some action -> acts reads action.
Proof.
  unfold contact_manager.options.
  repeat match goal with
         | |- context [String.eqb ?a ?b] => destruct (String.eqb a b)
         end; intros [= <-];
    try unfold contact_manager.add_contact, contact_manager.view_contacts,
      contact_manager.update_contact, contact_manager.delete_contact,
      contact_manager.ask_new, contact_manager.save_contacts;
    reads_go.
Qed.

Lemma reads_task_action strptime_ok (choice : string) (action : M unit) :
  todo_manager.actions strptime_ok choice = Some action -> acts reads action.
Proof.
  unfold todo_manager.actions.
  repeat match goal with
         | |- context [String.eqb ?a ?b] => destruct (String.eqb a b)
         end; intros [= <-];
    try unfold todo_manager.add_task, todo_manager.update_task,
      todo_manager.toggle_completion, todo_manager.delete_task, todo_manager.find_task,
      todo_manager.save_tasks;
    reads_go.
Qed.

End reads_lemmas.

Module loop_lemmas.
Import frame frame_rules frame_tactics input_use reads_lemmas.

Lemma reads_one_print {A} (text : list piece) (m : M A) :
  reads_one m -> reads_one (bind (print text) (fun _ => m)).
Proof.
  intros Hm w a w'. unfold bind, print. cbn [fst snd]. intros E.
  apply Hm in E. exact E.
Qed.

Lemma reads_one_input {A} (text : list piece) (k : string -> M A) :
  (forall line, acts reads (k line)) -> reads_one (bind (input text) k).
Proof.
  intros Hk w a w'. unfold bind, input.
  destruct (stdin w) as [|line rest] eqn:Ein; [discriminate|].
  intros E. pose proof (Hk line (mkWorld (store w) rest (stdout w ++ [Prompt text])
                                   (disk w) (faults w))) as Hr.
  rewrite E in Hr. unfold reads in Hr. cbn [snd stdin] in Hr. simpl. lia.
Qed.

Lemma contact_round_reads_one : reads_one contact_manager.menu_round.
Proof.
  unfold contact_manager.menu_round. do 7 apply reads_one_print.
  apply reads_one_input. intros line.
  destruct (contact_manager.options (pystr.strip line)) as [action|] eqn:Eo.
  - exact (reads_contact_action _ _ Eo).
  - apply reads_shows. apply shows_print.
Qed.

Lemma task_round_reads_one strptime_ok : reads_one (todo_manager.menu_round strptime_ok).
Proof.
  unfold todo_manager.menu_round. do 7 apply reads_one_print.
  apply reads_one_input. intros line.
  destruct (todo_manager.actions strptime_ok (pystr.strip line)) as [action|] eqn:Eo.
  - exact (reads_task_action _ _ _ Eo).
  - apply reads_shows. apply shows_print.
Qed.

Section menu.

Variable round : M unit.
Hypothesis round_reads_one : reads_one round.
Variable loop : nat -> M unit.
Hypothesis loop_O : loop O = raise EOFError.
Hypothesis loop_S : forall fuel, loop (S fuel) = bind round (fun _ => loop fuel).

Lemma menu_loop_fuel (n fuel1 fuel2 : nat) (w : world) :
  (List.length (stdin w) <= n)%nat ->
  (List.length (stdin w) < fuel1)%nat -> (List.length (stdin w) < fuel2)%nat ->
  loop fuel1 w = loop fuel2 w.
Proof.
  revert fuel1 fuel2 w. induction n as [|n IH]; intros fuel1 fuel2 w Hn H1 H2;
    (destruct fuel1 as [|f1]; [lia|]); (destruct fuel2 as [|f2]; [lia|]);
    rewrite !loop_S; unfold bind;
    destruct (round w) as [[[] | e] w1] eqn:E; try reflexivity;
    pose proof (round_reads_one w tt w1 E) as Hlt.
  - lia.
  - apply IH; lia.
Qed.

End menu.

Lemma bind_input_ext {A} (text : list piece) (k1 k2 : string -> M A) (w : world) :
  (forall line rest,
     stdin w = line :: rest ->
     let w1 := mkWorld (store w) rest (stdout w ++ [Prompt text]) (disk w) (faults w) in
     k1 line w1 = k2 line w1) ->
  bind (input text) k1 w = bind (input text) k2 w.
Proof.
  intros H. unfold bind, input. destruct (stdin w) as [|line rest]; [reflexivity|].
  exact (H line rest eq_refl).
Qed.

Lemma bind_print_ext {A} (text : list piece) (m1 m2 : M A) (w : world) :
  m1 (with_stdout w (Print text)) = m2 (with_stdout w (Print text)) ->
  bind (print text) (fun _ => m1) w = bind (print text) (fun _ => m2) w.
Proof. intros H. unfold bind, print. exact H. Qed.

Lemma select_loop_fuel (contacts : list nat) (fuel1 fuel2 : nat) (w : world) :
  (List.length (stdin w) < fuel1)%nat -> (List.length (stdin w) < fuel2)%nat ->
  contact_manager.select_loop fuel1 contacts w = contact_manager.select_loop fuel2 contacts w.
Proof.
  revert fuel2 w. induction fuel1 as [|f1 IH]; intros [|f2] w H1 H2; try lia.
  cbn [contact_manager.select_loop]. apply bind_input_ext. intros line rest Ein w1.
  rewrite Ein in H1, H2. simpl in H1, H2. cbv zeta.
  assert (Hagain :
            bind (print [Lit "Invalid selection. Try again."])
              (fun _ => contact_manager.select_loop f1 contacts) w1
            = bind (print [Lit "Invalid selection. Try again."])
                (fun _ => contact_manager.select_loop f2 contacts) w1).
  { apply bind_print_ext. apply IH; cbn; lia. }
  destruct (String.eqb (pystr.strip line) ""); [reflexivity|].
  destruct (pystr.str_isdigit (pystr.strip line)); [|exact Hagain].
  destruct (pystr.int (pystr.strip line)) as [i|]; [|reflexivity].
  destruct ((1 <=? i) && (i <=? Z.of_nat (List.length contacts))); [reflexivity|].
  exact Hagain.
Qed.

Lemma ask_loop_fuel (prompt : string) (fuel1 fuel2 : nat) (w : world) :
  (List.length (stdin w) < fuel1)%nat -> (List.length (stdin w) < fuel2)%nat ->
  password_generator.ask_loop fuel1 prompt w = password_generator.ask_loop fuel2 prompt w.
Proof.
  revert fuel2 w. induction fuel1 as [|f1 IH]; intros [|f2] w H1 H2; try lia.
  cbn [password_generator.ask_loop]. apply bind_input_ext. intros line rest Ein w1.
  rewrite Ein in H1, H2. simpl in H1, H2. cbv zeta.
  destruct (String.eqb (pystr.lower (pystr.strip line)) "y"
            || String.eqb (pystr.lower (pystr.strip line)) "yes"); [reflexivity|].
  destruct (String.eqb (pystr.lower (pystr.strip line)) "n"
            || String.eqb (pystr.lower (pystr.strip line)) "no"); [reflexivity|].
  apply bind_print_ext. apply IH; cbn; lia.
Qed.

Lemma length_loop_fuel (fuel1 fuel2 : nat) (w : world) :
  (List.length (stdin w) < fuel1)%nat -> (List.length (stdin w) < fuel2)%nat ->
  password_generator.length_loop fuel1 w = password_generator.length_loop fuel2 w.
Proof.
  revert fuel2 w. induction fuel1 as [|f1 IH]; intros [|f2] w H1 H2; try lia.
  cbn [password_generator.length_loop]. apply bind_input_ext. intros line rest Ein w1.
  rewrite Ein in H1, H2. simpl in H1, H2.
  destruct (pystr.int line) as [n|].
  - destruct (n <=? 0); [|reflexivity]. apply bind_print_ext. apply IH; cbn; lia.
  - apply bind_print_ext. apply IH; cbn; lia.
Qed.

End loop_lemmas.

(** X20.  The loops end with the input at the latest.  Each round of
    the loop of [select_contact], of [ask_yes_no], of the length
    prompt of [main] and of the two [main_menu] reads at least one
    line before the next round begins, so a run makes no more rounds
    than there are lines left, plus the one that meets the end of the
    input: allowing the loop more rounds than that changes neither
    the result nor the world it ends in. *)
Theorem loops_end_with_input (strptime_ok : string -> bool) (contacts : list nat)
    (prompt : string) (fuel : nat) (w : world) :
  (List.length (stdin w) < fuel)%nat ->
  let enough := S (List.length (stdin w)) in
  contact_manager.select_loop fuel contacts w = contact_manager.select_loop enough contacts w
  /\ password_generator.ask_loop fuel prompt w = password_generator.ask_loop enough prompt w
  /\ password_generator.length_loop fuel w = password_generator.length_loop enough w
  /\ contact_manager.menu_loop fuel w = contact_manager.menu_loop enough w
  /\ todo_manager.menu_loop strptime_ok fuel w = todo_manager.menu_loop strptime_ok enough w.
Proof.
  intros Hfuel enough. subst enough.
  split; [apply loop_lemmas.select_loop_fuel; lia|].
  split; [apply loop_lemmas.ask_loop_fuel; lia|].
  split; [apply loop_lemmas.length_loop_fuel; lia|].
  split.
  - apply (loop_lemmas.menu_loop_fuel contact_manager.menu_round
             loop_lemmas.contact_round_reads_one contact_manager.menu_loop)
      with (n := List.length (stdin w)); try lia; reflexivity.
  - apply (loop_lemmas.menu_loop_fuel (todo_manager.menu_round strptime_ok)
             (loop_lemmas.task_round_reads_one strptime_ok)
             (todo_manager.menu_loop strptime_ok))
      with (n := List.length (stdin w)); try lia; reflexivity.
Qed.

(** X20 with three lines of input and a hundred rounds allowed. *)
Lemma loops_end_with_input_witness :
  let w := mkWorld [] ["1"; "Ann"; "555"] [] Absent [] in
  contact_manager.select_loop 100 [0%nat] w = contact_manager.select_loop 4 [0%nat] w
  /\ password_generator.ask_loop 100 "?" w = password_generator.ask_loop 4 "?" w
  /\ password_generator.length_loop 100 w = password_generator.length_loop 4 w
  /\ contact_manager.menu_loop 100 w = contact_manager.menu_loop 4 w
  /\ todo_manager.menu_loop (fun _ => true) 100 w = todo_manager.menu_loop (fun _ => true) 4 w.
Proof.
  intros w. apply (loops_end_with_input (fun _ => true) [0%nat] "?" 100 w). simpl. lia.
Defined.

(** ** Whole sessions *)

Module session_lemmas.
Import frame hoare shape.

Lemma task_record strptime_ok (t : py.dict) : shape.task strptime_ok t -> spec.record t.
Proof. intros (n & d & c & due & notes & -> & _). reflexivity. Qed.

Section shaped.

Variable P : py.dict -> Prop.
Hypothesis P_record : forall c, P c -> spec.record c.

Lemma on_disk_load (w : world) :
  on_disk P (disk w) -> disk w <> Undecodable ->
  exists s, record_store.load_records w = (Ok s, w) /\ Forall P s.
Proof.
  intros [Hd | [Hd | [Hd | (s & Hs & Hd)]]] Hcut.
  - exists []. split; [|constructor]. apply load_records_fallback. now rewrite Hd.
  - exists []. split; [|constructor]. apply load_records_fallback. now rewrite Hd.
  - contradiction.
  - exists s. split; [|exact Hs]. apply restart_lemmas.load_dumped; [|exact Hd].
    eapply Forall_impl; [|exact Hs]. exact P_record.
Qed.

Lemma start_holds (d : file) (lines : list string) (fs : list (option fault)) :
  on_disk P d -> d <> Undecodable ->
  exists w', bind record_store.load_records set_store (mkWorld [] lines [] d fs) = (Ok tt, w')
             /\ holds P w' /\ disk w' = d /\ stdin w' = lines.
Proof.
  intros Hd Hcut. destruct (on_disk_load (mkWorld [] lines [] d fs) Hd Hcut) as (s & E & Hs).
  unfold bind. rewrite E. eexists. split; [reflexivity|].
  split; [split; [exact Hs | exact Hd] | split; reflexivity].
Qed.

Lemma start_cut (d : file) (lines : list string) (fs : list (option fault)) :
  d = Undecodable ->
  bind record_store.load_records set_store (mkWorld [] lines [] d fs)
  = (Raise UnicodeDecodeError, mkWorld [] lines [] d fs).
Proof. intros ->. reflexivity. Qed.

Variables (start round : M unit) (allowed : exn -> Prop).
Hypothesis start_loads : start = bind record_store.load_records set_store.
Hypothesis round_safe :
  hoare.safe (holds P) allowed (fun _ => True) round (fun _ _ => True).
Hypothesis allowed_eof : allowed EOFError.
Variable loop : nat -> M unit.
Hypothesis loop_O : loop O = raise EOFError.
Hypothesis loop_S : forall fuel, loop (S fuel) = bind round (fun _ => loop fuel).

Lemma round_holds (w : world) : holds P w -> holds P (snd (round w)).
Proof.
  intros H. pose proof (round_safe w H I) as Hr.
  destruct (round w) as [[a | e] w1]; apply Hr.
Qed.

Lemma reachable_holds (w : world) : spec.reachable start round w -> holds P w.
Proof.
  induction 1 as [lines fs w H | w w' _ IH Hstep].
  - unfold spec.session in H. rewrite start_loads in H.
    destruct (start_holds Absent lines fs) as (w1 & E & Hh & _);
      [now left | discriminate |]. congruence.
  - destruct Hstep as [w | w lines fs w' H].
    + now apply round_holds.
    + unfold spec.session in H. rewrite start_loads in H.
      destruct (menu_lemmas.file_eq_undecodable (disk w)) as [Hcut | Hcut].
      { rewrite (start_cut _ lines fs Hcut) in H. discriminate. }
      destruct (start_holds (disk w) lines fs) as (w1 & E & Hh & _);
        [apply IH | exact Hcut |]. congruence.
Qed.





End shaped.

Lemma contacts_holds (w : world) : contacts_reachable w -> holds shape.contact w.
Proof.
  apply (reachable_holds shape.contact contacts_safe.contact_record
           contact_manager.main_menu_start contact_manager.menu_round contacts_exit eq_refl
           contacts_safe.safe_menu_round).
Qed.

Lemma tasks_holds strptime_ok (w : world) :
  tasks_reachable strptime_ok w -> holds (shape.task strptime_ok) w.
Proof.
  apply (reachable_holds (shape.task strptime_ok) (task_record strptime_ok)
           todo_manager.main_menu_start (todo_manager.menu_round strptime_ok) tasks_exit
           eq_refl (tasks_safe.safe_tasks_round strptime_ok)).
Qed.

End session_lemmas.

(** X21.  The records the programs hold are the records they make.
    In every world that the contact manager can reach, each contact of
    the store, and of the file when it holds a store, has exactly the
    fields id, name, phone, email and address, in this order, an
    integer as identifier and text in the others, and its name and its
    phone number are not empty.  In every world that the to-do manager
    can reach, each task has exactly the fields id, description,
    completed, due_date and notes, with an integer, text, a truth
    value, text and text; its description is not empty, and its due
    date is empty or a date that [strptime] accepts. *)
Theorem reachable_records_are_well_formed (strptime_ok : string -> bool)
    (P : py.dict -> Prop) (w : world) :
  (contacts_reachable w /\ P = shape.contact)
  \/ (tasks_reachable strptime_ok w /\ P = shape.task strptime_ok) ->
  shape.holds P w.
Proof.
  intros [[Hw ->] | [Hw ->]].
  - now apply session_lemmas.contacts_holds.
  - now apply session_lemmas.tasks_holds.
Qed.

(** X21 in the to-do manager, with years from 2000 on taken for
    dates: a task is added with a due date that is no date, then its
    description and its due date are updated, then it is toggled. *)
Lemma reachable_records_are_well_formed_witness :
  let strptime_ok := fun s : string => String.prefix "20" s in
  let round := todo_manager.menu_round strptime_ok in
  let w0 := mkWorld [] ["1"; " call Bob "; "tomorrow"; ""; "3"; "1"; ""; "2026-01-31"; "x";
                        "4"; "1"] [] Absent [] in
  let w3 := snd (round (snd (round (snd (round w0))))) in
  store w3 = [[(KStr "id", VInt 1); (KStr "description", VStr "call Bob");
               (KStr "completed", VBool true); (KStr "due_date", VStr "2026-01-31");
               (KStr "notes", VStr "x")]]
  /\ shape.holds (shape.task strptime_ok) w3.
Proof.
  intros strptime_ok round w0 w3. split; [reflexivity|].
  apply (reachable_records_are_well_formed strptime_ok). right. split; [|reflexivity].
  apply spec.reach_step with (w := snd (round (snd (round w0)))); [|apply spec.step_round].
  apply spec.reach_step with (w := snd (round w0)); [|apply spec.step_round].
  apply spec.reach_step with (w := w0); [|apply spec.step_round].
  apply spec.reach_first with (lines := stdin w0) (fs := []). reflexivity.
Defined.





(** X24.  A round of the menu never reorders, duplicates or renumbers
    records.  In both programs, from any world, a round does one of
    three things to the store: it puts one record at the end, under
    the identifier that [generate_new_id] gives; or it leaves the
    number of the records and the identifier of each as they are; or
    it takes exactly one record out and leaves the others in their
    order. *)
Theorem round_appends_edits_or_removes (strptime_ok : string -> bool) (w : world) :
  effect.round w (snd (contact_manager.menu_round w))
  /\ effect.round w (snd (todo_manager.menu_round strptime_ok w)).
Proof.
  split.
  - apply menu_lemmas.contacts_round_effect.
  - apply menu_lemmas.tasks_round_effect.
Qed.

(** ** The empty store and the empty query *)

(** X25.  On the empty store the operations that work on the records
    there are only report: [search_contacts], [update_contact] and
    [delete_contact] show "No contacts to search.", [update_task],
    [toggle_completion] and [delete_task] show "No tasks found."; no
    line is read, no file is written, and [search_contacts] returns the
    empty list. *)
Theorem empty_store_operations_only_report (strptime_ok : string -> bool) (w : world) :
  store w = [] ->
  let said := fun (lines : list out) =>
                mkWorld [] (stdin w) (stdout w ++ lines) (disk w) (faults w) in
  let none := Print [Lit (nl ++ "No contacts to search." ++ nl)] in
  let list := [Print [Lit (nl ++ "=== To-Do List ===")];
               Print [Lit ("No tasks found." ++ nl)]] in
  contact_manager.search_contacts w = (Ok [], said [none])
  /\ contact_manager.update_contact w
     = (Ok tt, said [Print [Lit (nl ++ "=== Update Contact ===")]; none])
  /\ contact_manager.delete_contact w
     = (Ok tt, said [Print [Lit (nl ++ "=== Delete Contact ===")]; none])
  /\ todo_manager.update_task strptime_ok w = (Ok tt, said list)
  /\ todo_manager.toggle_completion w = (Ok tt, said list)
  /\ todo_manager.delete_task w = (Ok tt, said list).
Proof.
  intros Hs said none list. subst said none list.
  destruct w as [s i o d fs]. simpl in Hs. subst s.
  unfold contact_manager.search_contacts, contact_manager.update_contact,
    contact_manager.delete_contact, todo_manager.update_task, todo_manager.toggle_completion,
    todo_manager.delete_task, todo_manager.list_tasks, contact_manager.search_contacts,
    bind, print, get_store, ret, with_stdout.
  cbn [fst snd store stdin stdout disk faults].
  rewrite <- !app_assoc. cbn [app].
  repeat split.
Qed.

(** X25 at the start of a first session. *)
Lemma empty_store_operations_only_report_witness :
  let w := mkWorld [] ["Ann"] [] Absent [] in
  let none := Print [Lit (nl ++ "No contacts to search." ++ nl)] in
  let list := [Print [Lit (nl ++ "=== To-Do List ===")];
               Print [Lit ("No tasks found." ++ nl)]] in
  contact_manager.search_contacts w = (Ok [], mkWorld [] ["Ann"] [none] Absent [])
  /\ contact_manager.update_contact w
     = (Ok tt, mkWorld [] ["Ann"] [Print [Lit (nl ++ "=== Update Contact ===")]; none] Absent [])
  /\ contact_manager.delete_contact w
     = (Ok tt, mkWorld [] ["Ann"] [Print [Lit (nl ++ "=== Delete Contact ===")]; none] Absent [])
  /\ todo_manager.update_task (fun _ => true) w = (Ok tt, mkWorld [] ["Ann"] list Absent [])
  /\ todo_manager.toggle_completion w = (Ok tt, mkWorld [] ["Ann"] list Absent [])
  /\ todo_manager.delete_task w = (Ok tt, mkWorld [] ["Ann"] list Absent []).
Proof.
  intros w none list.
  exact (empty_store_operations_only_report (fun _ => true) w eq_refl).
Defined.

Module blank_query_lemmas.

Lemma contains_empty (s : string) : pystr.contains "" s = true.
Proof. destruct s; reflexivity. Qed.

Lemma found_blank (line : string) (c : py.dict) :
  pystr.strip line = "" -> search.found (pystr.strip line) c = true.
Proof.
  intros E. unfold search.found, search.ci_substring. rewrite E.
  change (pystr.lower "") with "". now rewrite contains_empty.
Qed.

Lemma positions_all (p : py.dict -> bool) (from : nat) (s : list py.dict) :
  (forall c, p c = true) -> search.positions p from s = List.seq from (List.length s).
Proof.
  intros Hp. revert from. induction s as [|c s IH]; intros from; simpl; [reflexivity|].
  now rewrite Hp, IH.
Qed.

End blank_query_lemmas.

(** X26.  A blank query finds every contact: the empty text occurs in
    every name, so [search_contacts], given a line of blanks only,
    returns all the contacts of the store, in their order. *)
Theorem blank_query_finds_all (w : world) (line : string) (rest : list string) :
  stdin w = line :: rest ->
  Forall search.contact_fields (store w) ->
  pystr.strip line = "" ->
  exists w',
    contact_manager.search_contacts w = (Ok (List.seq 0 (List.length (store w))), w')
    /\ store w' = store w /\ disk w' = disk w.
Proof.
  intros Hin Hall Hblank.
  destruct (search_lemmas.search_contacts_run w line rest Hin Hall) as (w' & E & (Hs & Hd & _)).
  exists w'. split; [|split; assumption].
  rewrite E. f_equal. f_equal. apply blank_query_lemmas.positions_all.
  intros c. now apply blank_query_lemmas.found_blank.
Qed.

(** X26 for a line of two blanks in a store of two contacts. *)
Lemma blank_query_finds_all_witness :
  let c := fun (n : Z) (name : string) =>
             [(KStr "id", VInt n); (KStr "name", VStr name); (KStr "phone", VStr "555");
              (KStr "email", VStr ""); (KStr "address", VStr "")] in
  let w := mkWorld [c 1 "Ann"; c 2 "Bob"] ["  "] [] Absent [] in
  exists w',
    contact_manager.search_contacts w = (Ok [0; 1]%nat, w')
    /\ store w' = store w /\ disk w' = disk w.
Proof.
  intros c w. apply (blank_query_finds_all w "  " []).
  - reflexivity.
  - repeat constructor; eexists _, _; split; reflexivity.
  - reflexivity.
Defined.
